(** * SimuLad: the forecasting core (simulation.py, alternative_models.py)

    A shallow embedding of the unit conversion, the vector-autoregression
    fitter, the scenario simulator and the two single-series forecasters,
    followed by the loading and merging of the CSV files
    (data-processing.py), the call to the local model (ai_integration.py),
    the expert log (experts.py) and the gap filling of app.py.

    Conventions of the embedding.
    - A pandas cell is a [value]: an exact rational ([Qc], canonical
      fractions, so that equality is Leibniz equality) or [NaN].  Binary
      floating point is idealised as exact arithmetic; NaN propagates through
      every arithmetic operation as it does in numpy.  The statements about
      the simulator keep the operations in the order the code applies them
      ((x + d) - x is not rewritten to d), since rounding breaks such
      identities.
    - An observation table is a [Table]: the [DateTime] stamp of each row
      (seconds) paired with the row's cells, and the labels of the remaining
      columns.  The literal column name "DateTime" never matches the
      temperature test, so the conversion loop skips it.
    - statsmodels and prophet are outside the repository: their routines
      are the fields of the interfaces [VarLib] and [UniLib].  A call
      either returns or raises a [lib_exn]: the singular-matrix error, a
      ValueError or an IndexError with its message, or another exception;
      what is not caught reaches the caller as it was raised.  Among the
      stand-ins of [Toy] that examples run on, [Toy.guarded] refuses what
      statsmodels refuses: a lag selection whose maximum cannot be
      estimated from the observations, and a forecast from fewer rows than
      the lag order.
    - Python exceptions are values of [exn]; a computation is a pair of an
      outcome and the log of the library calls it made, in call order.
    - pandas semantics that the code relies on are written out where they
      are used: [iloc[-k:]] on short frames and for [k = 0], [diff] and
      [dropna], Series arithmetic (cell by cell on operands with the same
      index, and otherwise aligned on the sorted union of their labels), the
      assignment of a Series to [iloc[-1]] (by position, with a ValueError
      when the lengths differ), [cumsum] over NaN, and the two behaviours
      of the [DataFrame] constructor (an array is labelled, a frame is
      reindexed).  Column labels, and the labels of a Series, are taken to
      be distinct, as pandas' CSV reader makes them; an adjustment set is a
      dict from labels to finite deltas, in insertion order.
    - A file as [pd.read_csv] returns it is a [Loader.RawFrame]: its row
      count and its labelled columns of numbers, text or stamps.  File
      names are ASCII text; the output of a program is a string of code
      points below 256.
    - What lies outside the repository on these paths is a parameter too:
      [pd.to_datetime], [pd.merge] and the interpolation, and the
      [ollama] program run through [subprocess.run]. *)

From Stdlib Require Import List String Ascii ZArith QArith Qcanon Lia Bool Arith.
From Stdlib Require Import DecimalString Permutation.
Import ListNotations.

Set Implicit Arguments.

Close Scope Q_scope.
Open Scope nat_scope.

(* ------------------------------------------------------------------ *)
(** ** Python string operations used by the column test *)

Module PyStr.

Open Scope string_scope.

(** [c.lower()] on one ASCII character. *)
Definition lower_ascii (c : ascii) : ascii :=
  let n := nat_of_ascii c in
  if Nat.leb 65 n && Nat.leb n 90 then ascii_of_nat (n + 32) else c.

(** [s.lower()]. *)
Fixpoint lower (s : string) : string :=
  match s with
  | EmptyString => EmptyString
  | String c s' => String (lower_ascii c) (lower s')
  end.

(** [needle in hay]. *)
Fixpoint contains (needle hay : string) : bool :=
  prefix needle hay ||
  match hay with
  | EmptyString => false
  | String _ hay' => contains needle hay'
  end.

(** [s.replace(old, new)] for a non-empty [old]: left to right, without
    overlap.  [skip] counts the characters of a matched occurrence that
    are still to be dropped. *)
Fixpoint replace_from (old new : string) (skip : nat) (s : string) : string :=
  match s with
  | EmptyString => EmptyString
  | String c s' =>
      match skip with
      | S k => replace_from old new k s'
      | O =>
          if prefix old s
          then String.append new (replace_from old new (String.length old - 1) s')
          else String c (replace_from old new 0 s')
      end
  end.

Definition replace (old new s : string) : string := replace_from old new 0 s.

End PyStr.

(* ------------------------------------------------------------------ *)
(** ** Cells, rows and frames *)

Definition value := option Qc.
Abbreviation NaN := (@None Qc).

Definition num (q : Q) : value := Some (Q2Qc q).

Definition vadd (a b : value) : value :=
  match a, b with
  | Some x, Some y => Some (x + y)%Qc
  | _, _ => NaN
  end.

Definition vsub (a b : value) : value :=
  match a, b with
  | Some x, Some y => Some (x - y)%Qc
  | _, _ => NaN
  end.

Definition vmul (a b : value) : value :=
  match a, b with
  | Some x, Some y => Some (x * y)%Qc
  | _, _ => NaN
  end.

Definition isna (v : value) : bool :=
  match v with Some _ => false | None => true end.

(** The rational behind a cell, for evaluating examples. *)
Definition raw (v : value) : option Q := option_map this v.

Definition row := list value.

(** Element-wise operation on two rows of the same width. *)
Fixpoint zip_with (A B C : Type) (f : A -> B -> C) (a : list A) (b : list B) : list C :=
  match a, b with
  | x :: a', y :: b' => f x y :: zip_with f a' b'
  | _, _ => []
  end.

(** Row labels of a frame: time stamps (seconds) after [set_index], or the
    positions 0, 1, ... of a default [RangeIndex]. *)
Inductive label :=
| TimeLabel (t : Z)
| PosLabel (i : nat).

Definition label_eqb (a b : label) : bool :=
  match a, b with
  | TimeLabel s, TimeLabel t => Z.eqb s t
  | PosLabel i, PosLabel j => Nat.eqb i j
  | _, _ => false
  end.

(** The observation table handed to the core: a [DateTime] column and the
    sensor columns. *)
Record Table := mkTable {
  columns : list string;
  rows : list (Z * row)
}.

(** A frame with a row index. *)
Record DataFrame := mkFrame {
  df_columns : list string;
  df_rows : list (label * row)
}.

(** A labelled row, as [iloc[-1]] returns it. *)
Record Series := mkSeries {
  s_index : list string;
  s_values : row
}.

Definition len (d : DataFrame) : nat := List.length (df_rows d).

Definition df_index (d : DataFrame) : list label := map fst (df_rows d).

Definition df_values (d : DataFrame) : list row := map snd (df_rows d).

(** [data.set_index("DateTime")]. *)
Definition set_index (data : Table) : DataFrame :=
  mkFrame (columns data) (map (fun r => (TimeLabel (fst r), snd r)) (rows data)).

Definition raw_rows (data : Table) : list (Z * list (option Q)) :=
  map (fun r => (fst r, map raw (snd r))) (rows data).

(* ------------------------------------------------------------------ *)
(** ** simulation.py: convert_temperature_to_fahrenheit *)

Open Scope string_scope.
Open Scope list_scope.
Open Scope nat_scope.

(** [x * 1.8 + 32]. *)
Definition to_fahrenheit (v : value) : value :=
  vadd (vmul v (num (18 # 10))) (num 32).

(** The test of line 14. *)
Definition is_celsius_temperature (col : string) : bool :=
  PyStr.contains "temp" (PyStr.lower col) && PyStr.contains "degc" (PyStr.lower col).

(** The new label of line 16. *)
Definition fahrenheit_name (col : string) : string :=
  PyStr.replace "DEGC" "degF" (PyStr.replace "degC" "degF" col).

(** [data[col] = data[col] * 1.8 + 32] on one row: every cell whose column
    currently bears the label [col]. *)
Fixpoint scale_row (col : string) (names : list string) (r : row) : row :=
  match names, r with
  | n :: names', v :: r' =>
      (if String.eqb n col then to_fahrenheit v else v) :: scale_row col names' r'
  | _, _ => r
  end.

(** [data.rename(columns={col: new_col}, inplace=True)]. *)
Definition rename_columns (col new_col : string) (names : list string) : list string :=
  map (fun n => if String.eqb n col then new_col else n) names.

(** One iteration of the loop of lines 13-17. *)
Definition convert_column (data : Table) (col : string) : Table :=
  if is_celsius_temperature col then
    let scaled := map (fun r => (fst r, scale_row col (columns data) (snd r))) (rows data) in
    mkTable (rename_columns col (fahrenheit_name col) (columns data)) scaled
  else data.

(** The loop runs over the labels the copy had on entry. *)
Definition convert_temperature_to_fahrenheit (data : Table) : Table :=
  fold_left convert_column (columns data) data.

(* ------------------------------------------------------------------ *)
(** ** Exceptions, outcomes and the log of library calls *)

(** What a statsmodels or prophet routine can raise:
    [numpy.linalg.LinAlgError], the near-singular covariance failure; a
    [ValueError] or an [IndexError], as statsmodels raises on arguments it
    cannot work with; or an exception of any other Python class.  Each
    carries its message. *)
Inductive lib_exn :=
| LibLinAlgError
| LibValueError (msg : string)
| LibIndexError (msg : string)
| LibOtherError (msg : string).

Inductive lib_result (A : Type) :=
| Returned (a : A)
| Raised (e : lib_exn).
Arguments Raised {A} e.

(** The exceptions that can leave the core, by Python class.
    [LinAlgError] comes out of a library routine; [ValueError] is raised by
    a [raise] statement of the repository, by pandas on a shape mismatch, or
    by a library routine; [IndexError] is raised by [iloc] out of bounds, or
    by a library routine; [LibraryError] stands for every exception of a
    library routine that is of another class.  An exception of a library
    routine reaches the caller as it is. *)
Inductive exn :=
| LinAlgError
| LibraryError (msg : string)
| ValueError (msg : string)
| IndexError (msg : string).

Definition of_lib (e : lib_exn) : exn :=
  match e with
  | LibLinAlgError => LinAlgError
  | LibValueError msg => ValueError msg
  | LibIndexError msg => IndexError msg
  | LibOtherError msg => LibraryError msg
  end.

Inductive outcome (A : Type) :=
| Return (a : A)
| Raise (e : exn).
Arguments Raise {A} e.

(** One entry per call into a library, with the arguments it received. *)
Inductive call :=
| CallVAR (endog : DataFrame)
| CallSelectOrder (endog : DataFrame) (maxlags : nat)
| CallFit (endog : DataFrame) (lag : nat)
| CallForecast (window : list row) (steps : nat)
| CallARIMA (ts : list (Z * value))
| CallProphet (ts : list (Z * value)).

Definition M (A : Type) : Type := outcome A * list call.

Definition ret (A : Type) (a : A) : M A := (Return a, []).

Definition raise (A : Type) (e : exn) : M A := (Raise e, []).
Arguments raise {A} e.

Definition bind (A B : Type) (m : M A) (k : A -> M B) : M B :=
  match fst m with
  | Return a => (fst (k a), snd m ++ snd (k a))
  | Raise e => (Raise e, snd m)
  end.

(** [try: body  except C as err: handler], where [handles e] tells whether
    [e] is an instance of [C]. *)
Definition try_except (A : Type) (body : M A) (handles : exn -> bool) (handler : M A) : M A :=
  match fst body with
  | Return a => body
  | Raise e =>
      if handles e then (fst handler, snd body ++ snd handler) else body
  end.

(** A library call: its outcome, and its entry in the log. *)
Definition lib_call (A : Type) (c : call) (r : lib_result A) : M A :=
  match r with
  | Returned a => (Return a, [c])
  | Raised e => (Raise (of_lib e), [c])
  end.

Declare Scope monad_scope.
Delimit Scope monad_scope with monad.
Notation "x <- m ;; k" := (bind m (fun x => k))
  (at level 100, m at next level, right associativity) : monad_scope.
Open Scope monad_scope.

Definition outcome_of (A : Type) (m : M A) : outcome A := fst m.
Definition calls_of (A : Type) (m : M A) : list call := snd m.

(* ------------------------------------------------------------------ *)
(** ** statsmodels.tsa.api.VAR, as the core uses it *)

Class VarLib := {
  var_model : Type;
  var_results : Type;
  (** [VAR(endog)] *)
  VAR : DataFrame -> lib_result var_model;
  (** [model.select_order(maxlags).aic] *)
  select_order_aic : var_model -> nat -> lib_result (option nat);
  (** [model.fit(lag)] *)
  fit : var_model -> nat -> lib_result var_results;
  (** [results.k_ar] *)
  k_ar : var_results -> nat;
  (** [results.forecast(y, steps)] *)
  forecast : var_results -> list row -> nat -> lib_result (list row)
}.

(* ------------------------------------------------------------------ *)
(** ** pandas operations of train_var_model *)

(** [df.diff()]: each row minus its predecessor; the first row is all NaN. *)
Fixpoint diff_rows (prev : row) (rs : list (label * row)) : list (label * row) :=
  match rs with
  | [] => []
  | (l, r) :: rs' => (l, zip_with vsub r prev) :: diff_rows r rs'
  end.

Definition diff (d : DataFrame) : DataFrame :=
  match df_rows d with
  | [] => d
  | (l, r) :: rs => mkFrame (df_columns d) ((l, map (fun _ => NaN) r) :: diff_rows r rs)
  end.

(** [df.dropna()]: drop the rows holding a NaN. *)
Definition dropna (d : DataFrame) : DataFrame :=
  mkFrame (df_columns d) (filter (fun lr => negb (existsb isna (snd lr))) (df_rows d)).

(** [df.iloc[-1]]. *)
Definition iloc_last (d : DataFrame) : M Series :=
  match rev (df_rows d) with
  | [] => raise (IndexError "single positional indexer is out-of-bounds")
  | (_, r) :: _ => ret (mkSeries (df_columns d) r)
  end.

(* ------------------------------------------------------------------ *)
(** ** simulation.py: train_var_model *)

Section Fitter.

Context {L : VarLib}.

(** Lines 36-37 and 48-49: [max(1, n_obs - 1)] when [n_obs <= maxlags].
    For [n_obs = 0] Python computes [max(1, -1) = 1], as the truncated
    subtraction does here. *)
Definition reduce_maxlags (n_obs maxlags : nat) : nat :=
  if n_obs <=? maxlags then Nat.max 1 (n_obs - 1) else maxlags.

(** Line 42 and line 52. *)
Definition lag_of_aic (aic : option nat) : nat :=
  match aic with
  | Some a => a
  | None => 1
  end.

(** Lines 40-43, and again lines 50-53. *)
Definition select_and_fit (endog : DataFrame) (maxlags : nat) : M var_results :=
  model <- lib_call (CallVAR endog) (VAR endog) ;;
  aic <- lib_call (CallSelectOrder endog maxlags) (select_order_aic model maxlags) ;;
  let lag := lag_of_aic aic in
  lib_call (CallFit endog lag) (fit model lag).

Definition is_LinAlgError (e : exn) : bool :=
  match e with
  | LinAlgError => true
  | _ => false
  end.

Definition train_var_model (data : Table) (maxlags : nat)
  : M (var_results * option Series) :=
  let data_converted := convert_temperature_to_fahrenheit data in
  let data_indexed := set_index data_converted in
  let n_obs := len data_indexed in
  let maxlags := reduce_maxlags n_obs maxlags in
  try_except
    (results <- select_and_fit data_indexed maxlags ;;
     ret (results, None))
    is_LinAlgError
    (let data_diff := dropna (diff data_indexed) in
     let maxlags := reduce_maxlags (len data_diff) maxlags in
     results <- select_and_fit data_diff maxlags ;;
     last_level <- iloc_last data_indexed ;;
     ret (results, Some last_level)).

End Fitter.

(* ------------------------------------------------------------------ *)
(** ** pandas operations of simulate_scenario *)

(** [xs[-k:]]: the last [k] items, all of them when fewer exist, and all
    of them when [k] is 0 (Python reads [-0] as [0]). *)
Definition iloc_tail (A : Type) (k : nat) (xs : list A) : list A :=
  if k =? 0 then xs else skipn (List.length xs - k) xs.

(** [var in index]. *)
Definition has_label (var : string) (names : list string) : bool :=
  existsb (String.eqb var) names.

(** [columns.get_loc(var)], for a label that is present. *)
Fixpoint get_loc (var : string) (names : list string) : nat :=
  match names with
  | [] => 0
  | n :: names' => if String.eqb var n then 0 else S (get_loc var names')
  end.

(** Add [change] to the cell at position [j] of a row. *)
Fixpoint add_at (j : nat) (change : Qc) (r : row) : row :=
  match r, j with
  | [], _ => []
  | v :: r', 0 => vadd v (Some change) :: r'
  | v :: r', S j' => v :: add_at j' change r'
  end.

(** Rewrite the last row of a window; [None] when the window is empty. *)
Fixpoint map_last (f : row -> row) (rs : list (label * row)) : option (list (label * row)) :=
  match rs with
  | [] => None
  | [(l, r)] => Some [(l, f r)]
  | lr :: rs' => option_map (cons lr) (map_last f rs')
  end.

(** [obs.iloc[-1, j] += change]. *)
Definition iloc_last_add (j : nat) (change : Qc) (obs : list (label * row))
  : M (list (label * row)) :=
  match map_last (add_at j change) obs with
  | Some obs' => ret obs'
  | None => raise (IndexError "index -1 is out of bounds for axis 0 with size 0")
  end.

(** [data["DateTime"].iloc[-1]]. *)
Definition last_datetime (data : Table) : M Z :=
  match rev (rows data) with
  | [] => raise (IndexError "single positional indexer is out-of-bounds")
  | (t, _) :: _ => ret t
  end.

Definition hour : Z := 3600.

(** [pd.date_range(start=t, periods=steps+1, freq='H')[1:]]. *)
Definition forecast_index (t : Z) (steps : nat) : list label :=
  map (fun i => TimeLabel (t + hour * Z.of_nat i)) (seq 1 steps).

(** [pd.DataFrame(array, index=index, columns=columns)] for a plain array:
    the rows are labelled in order; the shape has to fit. *)
Definition frame_of_array (array : list row) (index : list label) (cols : list string)
  : M DataFrame :=
  if (List.length array =? List.length index)
     && forallb (fun r => List.length r =? List.length cols) array
  then ret (mkFrame cols (combine index array))
  else raise (ValueError "Shape of passed values does not match the indices").

(** [pd.DataFrame(array, columns=columns)]: the index is a RangeIndex. *)
Definition range_index (n : nat) : list label := map PosLabel (seq 0 n).

(** [s[var]], NaN when the label is absent (label alignment). *)
Fixpoint series_get (names : list string) (vals : row) (var : string) : value :=
  match names, vals with
  | n :: names', v :: vals' => if String.eqb var n then v else series_get names' vals' var
  | _, _ => NaN
  end.

(** [s[var] += change]. *)
Definition series_add_at (s : Series) (var : string) (change : Qc) : Series :=
  mkSeries (s_index s) (add_at (get_loc var (s_index s)) change (s_values s)).

(** Decimal numeral of a number, as [str] prints it. *)
Definition decimal (n : nat) : string := NilZero.string_of_uint (Nat.to_uint n).

Fixpoint labels_eqb (a b : list string) : bool :=
  match a, b with
  | [], [] => true
  | x :: a', y :: b' => String.eqb x y && labels_eqb a' b'
  | _, _ => false
  end.

(** Sorting of labels, by code point. *)
Fixpoint insert_label (l : string) (sorted : list string) : list string :=
  match sorted with
  | [] => [l]
  | x :: sorted' => if String.leb l x then l :: sorted else x :: insert_label l sorted'
  end.

Definition sort_labels (names : list string) : list string :=
  fold_right insert_label [] names.

(** The index of [a op b] for two Series whose indexes differ (an outer
    join): the other index when one is empty, and otherwise the labels of
    both, each once, sorted.  The labels of an index are taken to be
    distinct. *)
Definition join_index (a b : list string) : list string :=
  match a, b with
  | [], _ => b
  | _, [] => a
  | _, _ => sort_labels (nodup string_dec (a ++ b))
  end.

(** [a op b] on two Series.  With the same index on both sides the cells
    are combined in place; otherwise pandas aligns the operands on the
    joined index, and a label that an operand lacks gives NaN. *)
Definition series_op (op : value -> value -> value) (a b : Series) : Series :=
  if labels_eqb (s_index a) (s_index b)
  then mkSeries (s_index a) (zip_with op (s_values a) (s_values b))
  else
    let index := join_index (s_index a) (s_index b) in
    mkSeries index
      (map (fun l => op (series_get (s_index a) (s_values a) l)
                        (series_get (s_index b) (s_values b) l)) index).

(** [a - b] and [a + b]. *)
Definition series_sub (a b : Series) : Series := series_op vsub a b.

Definition series_add (a b : Series) : Series := series_op vadd a b.

(** [obs.iloc[-1] = new_row] for a Series [new_row]: its values are
    written by position, whatever its labels, and have to be as many as
    the columns (the message is numpy's, for a frame held in one block). *)
Definition iloc_last_assign (cols : list string) (new_row : Series)
    (obs : list (label * row)) : M (list (label * row)) :=
  if List.length (s_values new_row) =? List.length cols then
    match map_last (fun _ => s_values new_row) obs with
    | Some obs' => ret obs'
    | None => raise (IndexError "single positional indexer is out-of-bounds")
    end
  else
    raise (ValueError
             ("could not broadcast input array from shape ("
              ++ decimal (List.length (s_values new_row)) ++ ",) into shape ("
              ++ decimal (List.length cols) ++ ",)")).

(** [df.cumsum()], column by column; a NaN cell stays NaN and leaves the
    running sum as it was. *)
Fixpoint cumsum_from (acc : list Qc) (rs : list (label * row)) : list (label * row) :=
  match rs with
  | [] => []
  | (l, r) :: rs' =>
      let acc' := zip_with (fun a v => match v with Some x => (a + x)%Qc | None => a end) acc r in
      let out := zip_with (fun a v => option_map (fun _ => a) v) acc' r in
      (l, out) :: cumsum_from acc' rs'
  end.

Definition cumsum (d : DataFrame) : DataFrame :=
  mkFrame (df_columns d)
    (cumsum_from (map (fun _ => Q2Qc 0) (df_columns d)) (df_rows d)).

(** [df + array] for a one-dimensional array: added to every row; its
    length has to be the number of columns. *)
Definition add_array (d : DataFrame) (array : row) : M DataFrame :=
  if List.length array =? List.length (df_columns d)
  then ret (mkFrame (df_columns d)
              (map (fun lr => (fst lr, zip_with vadd (snd lr) array)) (df_rows d)))
  else raise (ValueError ("Unable to coerce to Series, length must be "
                          ++ decimal (List.length (df_columns d)) ++ ": given "
                          ++ decimal (List.length array))).

(** Row of [d] labelled [l], if any. *)
Fixpoint loc_row (l : label) (rs : list (label * row)) : option row :=
  match rs with
  | [] => None
  | (l', r) :: rs' => if label_eqb l l' then Some r else loc_row l rs'
  end.

(** [pd.DataFrame(frame, index=index, columns=columns)] for [frame] a
    DataFrame bearing these very columns: pandas does not relabel, it
    reindexes.  Each label of [index] selects the row of [frame] with that
    label; a label [frame] does not have gives a row of NaN. *)
Definition frame_of_frame (frame : DataFrame) (index : list label) : DataFrame :=
  mkFrame (df_columns frame)
    (map (fun l =>
            match loc_row l (df_rows frame) with
            | Some r => (l, r)
            | None => (l, map (fun _ => NaN) (df_columns frame))
            end) index).

(** A dict of adjustments, in insertion order. *)
Definition adjustments_t := list (string * Qc).

(* ------------------------------------------------------------------ *)
(** ** simulation.py: simulate_scenario *)

Section Simulator.

Context {L : VarLib}.

(** Lines 75-77. *)
Fixpoint apply_adjustments_level (cols : list string) (adjustments : adjustments_t)
    (modified_obs : list (label * row)) : M (list (label * row)) :=
  match adjustments with
  | [] => ret modified_obs
  | (var, change) :: rest =>
      if has_label var cols then
        obs' <- iloc_last_add (get_loc var cols) change modified_obs ;;
        apply_adjustments_level cols rest obs'
      else apply_adjustments_level cols rest modified_obs
  end.

(** Lines 89-91. *)
Fixpoint apply_adjustments_snapshot (adjustments : adjustments_t) (new_last : Series)
  : Series :=
  match adjustments with
  | [] => new_last
  | (var, change) :: rest =>
      if has_label var (s_index new_last)
      then apply_adjustments_snapshot rest (series_add_at new_last var change)
      else apply_adjustments_snapshot rest new_last
  end.

Definition simulate_scenario (data : Table) (results : var_results)
    (adjustments : adjustments_t) (steps : nat) (last_level : option Series)
  : M DataFrame :=
  let data_converted := convert_temperature_to_fahrenheit data in       (* line 68 *)
  let data_indexed := set_index data_converted in                       (* line 69 *)
  match last_level with
  | None =>
      let last_obs := iloc_tail (k_ar results) (df_rows data_indexed) in (* line 73 *)
      modified_obs <-                                                   (* lines 74-77 *)
        apply_adjustments_level (df_columns data_indexed) adjustments last_obs ;;
      fc <- lib_call (CallForecast (map snd modified_obs) steps)        (* line 78 *)
              (forecast results (map snd modified_obs) steps) ;;
      t_last <- last_datetime data ;;                                   (* line 79 *)
      frame_of_array fc (forecast_index t_last steps)                   (* line 80 *)
        (df_columns data_indexed)
  | Some last_level =>
      let data_diff := dropna (diff data_indexed) in                    (* line 84 *)
      let last_obs_diff := iloc_tail (k_ar results) (df_rows data_diff) in (* line 85 *)
      let new_last := apply_adjustments_snapshot adjustments last_level in (* lines 88-91 *)
      original_last <- iloc_last data_indexed ;;                        (* line 92 *)
      let diff_adjustment := series_sub new_last original_last in       (* line 93 *)
      last_diff <-                                                      (* line 95, right *)
        iloc_last (mkFrame (df_columns data_diff) last_obs_diff) ;;
      modified_obs_diff <-                                              (* line 95, left *)
        iloc_last_assign (df_columns data_diff)
          (series_add last_diff diff_adjustment) last_obs_diff ;;
      forecast_diff <- lib_call (CallForecast (map snd modified_obs_diff) steps) (* line 96 *)
                         (forecast results (map snd modified_obs_diff) steps) ;;
      forecast_diff_df <-                                               (* line 97 *)
        frame_of_array forecast_diff (range_index (List.length forecast_diff))
          (df_columns data_indexed) ;;
      forecast_level <- add_array (cumsum forecast_diff_df) (s_values last_level) ;; (* line 99 *)
      t_last <- last_datetime data ;;                                   (* line 100 *)
      ret (frame_of_frame forecast_level (forecast_index t_last steps)) (* line 101 *)
  end.

End Simulator.

(* ------------------------------------------------------------------ *)
(** ** alternative_models.py *)

(** The two external single-series estimators.  [arima_forecast] stands for
    [ARIMA(ts, order).fit().forecast(steps)], [prophet_predict] for
    [Prophet().fit(ts)] followed by [predict] on the future frame; each
    returns its predictions in time order. *)
Class UniLib := {
  arima_forecast : list (Z * value) -> nat * nat * nat -> nat -> lib_result (list value);
  prophet_predict : list (Z * value) -> nat -> lib_result (list (Z * value))
}.

(** [data.set_index("DateTime").iloc[:, j]]: the name and the cells of the
    column at position [j], each cell with its time stamp. *)
Definition iloc_column (data : Table) (j : nat) : M (string * list (Z * value)) :=
  match nth_error (columns data) j with
  | None => raise (IndexError "single positional indexer is out-of-bounds")
  | Some name => ret (name, map (fun r => (fst r, nth j (snd r) NaN)) (rows data))
  end.

(** [df.tail(n)]. *)
Definition tail (A : Type) (n : nat) (xs : list A) : list A :=
  if n =? 0 then [] else skipn (List.length xs - n) xs.

(** [ts["y"].dropna().shape[0]]. *)
Definition count_non_missing (ts : list (Z * value)) : nat :=
  List.length (filter (fun p => negb (isna (snd p))) ts).

Definition arima_message : string := "Not enough data for ARIMA forecasting".
Definition prophet_message : string := "Not enough non-NaN data for Prophet forecasting".

Section SingleSeries.

Context {U : UniLib}.

Definition forecast_arima (data : Table) (order : nat * nat * nat) (steps : nat)
  : M DataFrame :=
  named_ts <- iloc_column data 1 ;;
  let ts := snd named_ts in
  if List.length ts <? 2 then raise (ValueError arima_message)
  else
    fc <- lib_call (CallARIMA ts) (arima_forecast ts order steps) ;;
    t_last <- last_datetime data ;;
    let index := forecast_index t_last steps in
    if List.length fc =? List.length index
    then ret (mkFrame [fst named_ts] (combine index (map (fun v => [v]) fc)))
    else raise (ValueError "Length mismatch").

Definition forecast_prophet (data : Table) (steps : nat) : M DataFrame :=
  named_ts <- iloc_column data 1 ;;
  let ts := snd named_ts in
  if count_non_missing ts <? 2 then raise (ValueError prophet_message)
  else
    fc <- lib_call (CallProphet ts) (prophet_predict ts steps) ;;
    let forecast_df := tail steps fc in
    ret (mkFrame ["yhat"] (map (fun p => (TimeLabel (fst p), [snd p])) forecast_df)).

End SingleSeries.

(* ------------------------------------------------------------------ *)
(** ** data-processing.py: what a file name tells

    File names are taken to be ASCII text with POSIX separators, so that
    [upper] is the ASCII one and [os.path.basename] cuts after the last
    slash. *)

Module FileName.

(** [c.upper()] on one ASCII character. *)
Definition upper_ascii (c : ascii) : ascii :=
  let n := nat_of_ascii c in
  if Nat.leb 97 n && Nat.leb n 122 then ascii_of_nat (n - 32) else c.

(** [s.upper()]. *)
Fixpoint upper (s : string) : string :=
  match s with
  | EmptyString => EmptyString
  | String c s' => String (upper_ascii c) (upper s')
  end.

(** [s.split(sep)] for a separator of one character. *)
Fixpoint split (sep : ascii) (s : string) : list string :=
  match s with
  | EmptyString => [EmptyString]
  | String c s' =>
      if Ascii.eqb c sep then EmptyString :: split sep s'
      else match split sep s' with
           | h :: t => String c h :: t
           | [] => [String c EmptyString]
           end
  end.

(** [sep.join(parts)]. *)
Fixpoint join (sep : string) (parts : list string) : string :=
  match parts with
  | [] => EmptyString
  | [p] => p
  | p :: rest => String.append p (String.append sep (join sep rest))
  end.

(** [os.path.basename(path)]: what follows the last slash. *)
Definition basename (path : string) : string :=
  last (split "/" path) EmptyString.

(** Occurrences of a character. *)
Fixpoint count_char (c : ascii) (s : string) : nat :=
  match s with
  | EmptyString => 0
  | String c' s' => (if Ascii.eqb c' c then 1 else 0) + count_char c s'
  end.

Definition get_location_from_filename (file_path : string) : string :=
  let base := basename file_path in
  let parts := split "_" base in
  if prefix "RF" (upper (hd EmptyString parts))
  then "RainForest"
  else hd EmptyString parts.

Definition get_variable_from_filename (file_path : string) : string :=
  let base := basename file_path in
  let parts := split "_" base in
  if 2 <? List.length parts
  then join "_" (removelast (List.tl parts))
  else "Measurement".

End FileName.

(* ------------------------------------------------------------------ *)
(** ** data-processing.py: load_csv_with_location

    [pd.read_csv] and [pd.to_datetime] are outside the repository: the
    function is modelled from the frame that [read_csv] returned, whose
    column labels pandas makes distinct, and the date parser is a parameter.
    A column is numeric, text or dates, as pandas types it. *)

Module Loader.

Inductive column :=
| Numbers (cells : list value)
| Texts (cells : list string)
| Dates (cells : list (option Z)).

Record RawFrame := mkRaw {
  n_rows : nat;
  raw_columns : list (string * column)
}.

Inductive load_error :=
| LoadIndexError
| LoadKeyError (missing : string).

Definition labels (cols : list (string * column)) : list string := map fst cols.

(** [df.rename(columns={old: new}, inplace=True)]. *)
Definition rename_label (old new : string) (cols : list (string * column))
  : list (string * column) :=
  map (fun nc => (if String.eqb (fst nc) old then new else fst nc, snd nc)) cols.

(** [df[name] = cells]: in place when the label exists, appended otherwise. *)
Definition set_column (name : string) (c : column) (cols : list (string * column))
  : list (string * column) :=
  if has_label name (labels cols)
  then map (fun nc => if String.eqb (fst nc) name then (name, c) else nc) cols
  else cols ++ [(name, c)].

(** [df.drop(columns=gone)]. *)
Definition drop_labels (gone : list string) (cols : list (string * column))
  : list (string * column) :=
  filter (fun nc => negb (has_label (fst nc) gone)) cols.

(** [df[name]] for a label borne by one column. *)
Fixpoint get_column (name : string) (cols : list (string * column)) : option column :=
  match cols with
  | [] => None
  | (n, c) :: cols' => if String.eqb name n then Some c else get_column name cols'
  end.

Definition is_sentinel (v : value) : bool :=
  match v with
  | Some q => Qc_eq_bool q (Q2Qc (-9999))
  | None => false
  end.

(** [df[col].replace(-9999, np.nan)], applied to the numeric columns. *)
Definition replace_sentinel (c : column) : column :=
  match c with
  | Numbers cells => Numbers (map (fun v => if is_sentinel v then NaN else v) cells)
  | other => other
  end.

(** [col not in ["DateTime", "Location"]]. *)
Definition is_data_label (l : string) : bool :=
  negb (String.eqb l "DateTime" || String.eqb l "Location").

Definition unique_col (file_path : string) : string :=
  String.append (FileName.get_location_from_filename file_path)
    (String "_" (FileName.get_variable_from_filename file_path)).

(** Line 58: [df["Location"] = location]. *)
Definition add_location (location : string) (n : nat) (cols : list (string * column))
  : list (string * column) :=
  set_column "Location" (Texts (repeat location n)) cols.

(** Lines 61-72: the first column that is neither [DateTime] nor
    [Location] is renamed to the unique name and the other such columns
    are dropped by label; without any, a column of NaN is added. *)
Definition keep_first_measurement (unique : string) (n : nat)
    (cols : list (string * column)) : list (string * column) :=
  let data_cols := filter is_data_label (labels cols) in
  match data_cols with
  | measurement :: _ =>
      let renamed := rename_label measurement unique cols in
      let extra_cols :=
        filter (fun col => negb (String.eqb col measurement)) data_cols in
      drop_labels extra_cols renamed
  | [] => set_column unique (Numbers (repeat NaN n)) cols
  end.

(** Lines 75-76: the sentinel is replaced in every numeric column. *)
Definition replace_sentinels (cols : list (string * column)) : list (string * column) :=
  map (fun nc => (fst nc, replace_sentinel (snd nc))) cols.

Section Load.

Variable to_datetime : column -> list (option Z).

Definition load_csv_with_location (file_path : string) (df : RawFrame)
  : load_error + RawFrame :=
  let n := n_rows df in
  let cols := raw_columns df in
  (* lines 44-45 *)
  match
    (if has_label "DateTime" (labels cols) then inr cols
     else match cols with
          | [] => inl LoadIndexError
          | (first, _) :: _ => inr (rename_label first "DateTime" cols)
          end)
  with
  | inl e => inl e
  | inr cols =>
      (* line 48 *)
      match get_column "DateTime" cols with
      | None => inl (LoadKeyError "DateTime")
      | Some stamps =>
          let cols := set_column "DateTime" (Dates (to_datetime stamps)) cols in
          (* lines 51-55 *)
          let location := FileName.get_location_from_filename file_path in
          let unique := unique_col file_path in
          (* line 58 *)
          let cols := add_location location n cols in
          (* lines 61-72 *)
          let cols := keep_first_measurement unique n cols in
          (* lines 75-76 *)
          let cols := replace_sentinels cols in
          (* line 79 *)
          match get_column "DateTime" cols, get_column "Location" cols,
                get_column unique cols with
          | Some d, Some l, Some m =>
              inr (mkRaw n [("DateTime", d); ("Location", l); (unique, m)])
          | None, _, _ => inl (LoadKeyError "DateTime")
          | _, None, _ => inl (LoadKeyError "Location")
          | _, _, None => inl (LoadKeyError unique)
          end
      end
  end.

End Load.

(** A property of the columns that bear a given label. *)
Definition labelled (name : string) (P : column -> Prop) (cols : list (string * column))
  : Prop :=
  Forall (fun nc => fst nc = name -> P (snd nc)) cols.

(** Columns free of the sentinel. *)
Definition no_sentinel (c : column) : Prop :=
  match c with
  | Numbers cells => Forall (fun v => is_sentinel v = false) cells
  | _ => True
  end.

End Loader.

(* ------------------------------------------------------------------ *)
(** ** Merging the loaded files by location ([data-processing.py]) *)

(** [merge_by_location] groups the frames in a dict keyed by the first
    cell of their [Location] column, then folds [pd.merge] over each
    group.  The dict is an association list in insertion order, which is
    the order [groups.items()] iterates in.  The pandas calls are
    parameters: reading the first location (KeyError without the column,
    IndexError without a row), the outer merge, and the final sort and
    interpolation. *)
Module Merge.

Inductive merge_error :=
| MergeIndexError
| MergeKeyError (missing : string)
| MergeLibraryError (msg : string).

Definition and_then (A B : Type) (m : merge_error + A) (k : A -> merge_error + B)
  : merge_error + B :=
  match m with
  | inl e => inl e
  | inr a => k a
  end.

Section MergeByLocation.

Variables frame key : Type.

(** Equality of dict keys. *)
Variable key_eqb : key -> key -> bool.

(** [df["Location"].iloc[0]]. *)
Variable first_location : frame -> merge_error + key.

(** [pd.merge(left, right, on=["DateTime", "Location"], how="outer")]. *)
Variable merge : frame -> frame -> merge_error + frame.

(** [df.sort_values("DateTime")], then
    [df.set_index("DateTime").interpolate(method="time").reset_index()]. *)
Variable sort_and_interpolate : frame -> merge_error + frame.

(** [groups.setdefault(loc, []).append(df)]. *)
Fixpoint setdefault_append (loc : key) (df : frame) (groups : list (key * list frame))
  : list (key * list frame) :=
  match groups with
  | [] => [(loc, [df])]
  | (k, group) :: groups' =>
      if key_eqb loc k then (k, group ++ [df]) :: groups'
      else (k, group) :: setdefault_append loc df groups'
  end.

(** Lines 107-109. *)
Fixpoint group_frames (dfs : list frame) (groups : list (key * list frame))
  : merge_error + list (key * list frame) :=
  match dfs with
  | [] => inr groups
  | df :: dfs' =>
      and_then (first_location df) (fun loc =>
      group_frames dfs' (setdefault_append loc df groups))
  end.

(** Lines 113-117, for one group. *)
Definition merge_group (group : list frame) : merge_error + frame :=
  match group with
  | [] => inl MergeIndexError
  | first :: rest =>
      and_then
        (fold_left (fun merged_df df => and_then merged_df (fun m => merge m df))
           rest (inr first))
        sort_and_interpolate
  end.

(** Lines 112-118. *)
Fixpoint merge_groups (groups : list (key * list frame))
  : merge_error + list (key * frame) :=
  match groups with
  | [] => inr []
  | (loc, group) :: groups' =>
      and_then (merge_group group) (fun merged_df =>
      and_then (merge_groups groups') (fun merged_by_location =>
      inr ((loc, merged_df) :: merged_by_location)))
  end.

Definition merge_by_location (dfs : list frame) : merge_error + list (key * frame) :=
  and_then (group_frames dfs []) merge_groups.

(** The frames of [dfs] whose first location is [loc], in order. *)
Definition located (loc : key) (dfs : list frame) : list frame :=
  filter (fun df => match first_location df with
                    | inr k => key_eqb k loc
                    | inl _ => false
                    end) dfs.

(** The locations of [dfs], each at its first appearance: scanning
    [dfs] from the left, a location is noted when it is not noted yet. *)
Definition note (seen : list key) (df : frame) : list key :=
  match first_location df with
  | inr k => if existsb (key_eqb k) seen then seen else seen ++ [k]
  | inl _ => seen
  end.

Definition first_appearances (dfs : list frame) : list key := fold_left note dfs [].

(** The groups the first loop builds from [dfs]. *)
Definition groups_of (dfs : list frame) : list (key * list frame) :=
  map (fun k => (k, located k dfs)) (first_appearances dfs).

(** Every frame has a first location. *)
Definition all_located (dfs : list frame) : Prop :=
  Forall (fun df => exists k, first_location df = inr k) dfs.

End MergeByLocation.

End Merge.

(* ------------------------------------------------------------------ *)
(** ** The local model ([ai_integration.py]) and the expert log ([experts.py]) *)

(** Text is a string of code points below 256.  [subprocess.run] with
    [check=True] is a parameter: it completes with the captured output,
    raises [CalledProcessError] on a non-zero exit, or raises something
    else (for instance when the [ollama] program is not found). *)
Module Ollama.

Open Scope string_scope.

(** [c.isspace()]. *)
Definition is_space (c : ascii) : bool :=
  let n := nat_of_ascii c in
  (Nat.leb 9 n && Nat.leb n 13) || (Nat.leb 28 n && Nat.leb n 32)
  || Nat.eqb n 133 || Nat.eqb n 160.

(** [s.lstrip()]. *)
Fixpoint lstrip (s : string) : string :=
  match s with
  | EmptyString => EmptyString
  | String c s' => if is_space c then lstrip s' else s
  end.

(** [s.rstrip()]. *)
Fixpoint rstrip (s : string) : string :=
  match s with
  | EmptyString => EmptyString
  | String c s' =>
      match rstrip s' with
      | EmptyString => if is_space c then EmptyString else String c EmptyString
      | kept => String c kept
      end
  end.

(** [s.strip()]. *)
Definition strip (s : string) : string := rstrip (lstrip s).

Inductive run_result :=
| Completed (stdout : string)
| CalledProcessError (text : string)
| OtherError (name : string).

(** The argument list handed to [subprocess.run]. *)
Definition command (model simulation_text : string) : list string :=
  ["ollama"; "run"; model;
   "Summarize the following simulation results: " ++ simulation_text].

Section Summary.

Variable run : list string -> run_result.

(** An exception that is not caught is [inl]. *)
Definition generate_summary (simulation_text model : string) : string + string :=
  match run (command model simulation_text) with
  | Completed stdout => inr (strip stdout)
  | CalledProcessError text => inr ("Error generating summary: " ++ text)
  | OtherError name => inl name
  end.

End Summary.

(** Every character is white space. *)
Fixpoint all_space (s : string) : bool :=
  match s with
  | EmptyString => true
  | String c s' => is_space c && all_space s'
  end.

Fixpoint last_char (s : string) : option ascii :=
  match s with
  | EmptyString => None
  | String c EmptyString => Some c
  | String _ s' => last_char s'
  end.

Definition first_char (s : string) : option ascii :=
  match s with
  | EmptyString => None
  | String c _ => Some c
  end.

(** Neither the first nor the last character is white space. *)
Definition trimmed (s : string) : Prop :=
  (forall c, first_char s = Some c -> is_space c = false) /\
  (forall c, last_char s = Some c -> is_space c = false).

End Ollama.

Module Experts.

Open Scope string_scope.

Record entry := mkEntry {
  timestamp : string;
  expert : string;
  message : string
}.

(** The module-level [conversation_log] is the state; [now] is the clock
    reading, formatted, at the time of the call. *)
Definition add_expert_message (now : string) (expert message : string)
    (conversation_log : list entry) : list entry :=
  conversation_log ++ [mkEntry now expert message].

Definition newline : string := String (ascii_of_nat 10) EmptyString.

(** [data_summary and data_summary.strip()], as a truth value. *)
Definition has_summary (data_summary : option string) : bool :=
  match data_summary with
  | None => false
  | Some EmptyString => false
  | Some text =>
      match Ollama.strip text with
      | EmptyString => false
      | _ => true
      end
  end.

(** Lines 22-37.  [None] is formatted as [None], which only the first
    branch could print and never does. *)
Definition prompt (expert context : string) (data_summary : option string) : string :=
  if has_summary data_summary then
    "You are " ++ expert ++ ", a seasoned expert in environmental sensor data analysis. "
    ++ "Based on the following summarized data and context, provide a detailed, actionable analysis and forecast. "
    ++ "Data Summary: "
    ++ match data_summary with Some text => text | None => "None" end ++ newline
    ++ "Context: " ++ context ++ newline ++ newline
    ++ "Provide your expert analysis:"
  else
    "You are " ++ expert ++ ", a seasoned expert in environmental sensor data analysis. "
    ++ "Based on the following context, provide a detailed, actionable, and specific forecast and analysis. "
    ++ "Do not include generic placeholders or incomplete ranges. "
    ++ "Context: " ++ context ++ newline ++ newline
    ++ "Provide your expert analysis:".

Section Response.

Variable run : list string -> Ollama.run_result.

(** The outcome, and the log after the call. *)
Definition generate_expert_response (now : string) (expert context : string)
    (data_summary : option string) (model_choice : string)
    (conversation_log : list entry) : (string + string) * list entry :=
  match Ollama.generate_summary run (prompt expert context data_summary) model_choice with
  | inr response => (inr response, add_expert_message now expert response conversation_log)
  | inl e => (inl e, conversation_log)
  end.

End Response.

Definition get_conversation_log (conversation_log : list entry) : list entry :=
  conversation_log.

End Experts.

(* ------------------------------------------------------------------ *)
(** ** Filling the gaps before a forecast ([app.py]) *)

(** [prepare_data] (lines 100-104; the same expression stands at line
    52) sends every sensor column through
    [.interpolate(method='time').ffill().bfill()].  A column is the list
    of its cells in row order.  The time-weighted interpolation over the
    frame's [DateTime] index is a parameter; the two fills are pandas'
    own, cell by cell. *)
Module Prepare.

(** [.ffill()]: a missing cell takes the last reading before it;
    [last] is that reading, NaN before the first one. *)
Fixpoint ffill_from (last : value) (cells : list value) : list value :=
  match cells with
  | [] => []
  | Some q :: cells' => Some q :: ffill_from (Some q) cells'
  | None :: cells' => last :: ffill_from last cells'
  end.

Definition ffill (cells : list value) : list value := ffill_from NaN cells.

(** [.bfill()]: a missing cell takes the next reading after it. *)
Fixpoint bfill (cells : list value) : list value :=
  match cells with
  | [] => []
  | Some q :: cells' => Some q :: bfill cells'
  | None :: cells' => hd NaN (bfill cells') :: bfill cells'
  end.

Section FillGaps.

(** [.interpolate(method='time')] on one column. *)
Variable interpolate_time : list value -> list value.

Definition fill_gaps (cells : list value) : list value :=
  bfill (ffill (interpolate_time cells)).

End FillGaps.

(** [out] has one cell per cell of [cells], and every reading of [cells]
    at its place. *)
Fixpoint keeps_readings (cells out : list value) : bool :=
  match cells, out with
  | [], [] => true
  | Some q :: cells', Some q' :: out' => Qc_eq_bool q q' && keeps_readings cells' out'
  | None :: cells', _ :: out' => keeps_readings cells' out'
  | _, _ => false
  end.

(** No cell of a column is missing. *)
Definition complete (cells : list value) : Prop :=
  Forall (fun v => isna v = false) cells.

End Prepare.

(* ------------------------------------------------------------------ *)
(** ** A stand-in estimator, to run the core on concrete tables *)

Module Toy.

(** A naive estimator: the model remembers its data, lag selection answers
    [aic maxlags], fitting fails with the singular-matrix error on the
    frames [singular] picks out, the fitted model is its lag order, and
    the forecast repeats the last row of the window. *)
Definition lib (aic : nat -> option nat) (singular : DataFrame -> bool) : VarLib := {|
  var_model := DataFrame;
  var_results := nat;
  VAR := fun endog => Returned endog;
  select_order_aic := fun _ maxlags => Returned (aic maxlags);
  fit := fun endog lag =>
    if singular endog then Raised LibLinAlgError else Returned lag;
  k_ar := fun results => results;
  forecast := fun _ window steps => Returned (repeat (last window []) steps)
|}.

(** Lag selection takes the largest order allowed; nothing is singular. *)
Definition plain : VarLib := lib Some (fun _ => false).

(** Lag selection finds no order. *)
Definition no_aic : VarLib := lib (fun _ => None) (fun _ => false).

(** Frames indexed by more than [n] rows are singular. *)
Definition singular_above (n : nat) : VarLib :=
  lib Some (fun endog => n <? len endog).

(** The largest lag order statsmodels takes for estimable, with a constant
    term: (n - k - 1) // (1 + k) for n observations of k variables. *)
Definition max_estimable (endog : DataFrame) : Z :=
  ((Z.of_nat (len endog) - Z.of_nat (List.length (df_columns endog)) - 1)
   / (1 + Z.of_nat (List.length (df_columns endog))))%Z.

Definition too_many_lags : string :=
  "maxlags is too large for the number of observations and the number of equations. The largest model cannot be estimated.".

(** An estimator with the checks statsmodels makes on what it is asked:
    [select_order] refuses a maximum above the largest estimable order and
    otherwise reports an order between 0 and the maximum, never None;
    [forecast] needs at least one lag matrix and refuses a window shorter
    than the lag order.  [pick] chooses the order, [singular] the frames
    whose fit fails with the singular-matrix error; the forecast repeats
    the last row of the window. *)
Definition guarded (pick : nat -> nat) (singular : DataFrame -> bool) : VarLib := {|
  var_model := DataFrame;
  var_results := nat;
  VAR := fun endog => Returned endog;
  select_order_aic := fun endog maxlags =>
    if (max_estimable endog <? Z.of_nat maxlags)%Z
    then Raised (LibValueError too_many_lags)
    else Returned (Some (Nat.min (pick maxlags) maxlags));
  fit := fun endog lag =>
    if singular endog then Raised LibLinAlgError else Returned lag;
  k_ar := fun results => results;
  forecast := fun results window steps =>
    if results =? 0
    then Raised (LibIndexError "index 0 is out of bounds for axis 0 with size 0")
    else if List.length window <? results
    then Raised (LibValueError
                   ("y must by have at least order (" ++ decimal results
                    ++ ") observations. Got " ++ decimal (List.length window) ++ "."))
    else Returned (repeat (last window []) steps)
|}.

(** Lag selection takes the largest order allowed; nothing is singular. *)
Definition checked : VarLib := guarded (fun maxlags => maxlags) (fun _ => false).

(** Single-series stand-ins: the last value, repeated. *)
Definition uni : UniLib := {|
  arima_forecast := fun ts _ steps => Returned (repeat (snd (last ts (0%Z, NaN))) steps);
  prophet_predict := fun ts steps =>
    Returned (ts ++ map (fun i => (fst (last ts (0%Z, NaN)) + hour * Z.of_nat i,
                                   snd (last ts (0%Z, NaN))))%Z (seq 1 steps))
|}.

Definition hourly (vals : list row) : list (Z * row) :=
  combine (map (fun i => (hour * Z.of_nat i)%Z) (seq 0 (List.length vals))) vals.

(** Ten hourly rows: a linearly rising temperature and a uniform wind. *)
Definition ten_rows : Table :=
  mkTable ["Temp_degC"; "Wind"]
    (hourly (map (fun i => [num (Z.of_nat i # 1); num 3]) (seq 0 10))).

Definition three_rows : Table :=
  mkTable ["Temp_degC"; "Wind"]
    (hourly [[num 10; num 3]; [num 11; num 4]; [num 13; num 6]]).

Definition two_rows : Table :=
  mkTable ["Temp_degC"; "Wind"] (hourly [[num 10; num 3]; [num 11; num 4]]).

Definition one_row : Table :=
  mkTable ["Temp_degC"; "Wind"] (hourly [[num 10; num 3]]).

(** Three rows whose wind readings are missing but for the first. *)
Definition gappy : Table :=
  mkTable ["Temp_degC"; "Wind"]
    (hourly [[num 10; num 3]; [num 11; NaN]; [num 13; NaN]]).

(** The time stamps and one measurement: three observations, and one. *)
Definition univariate : Table :=
  mkTable ["Wind"] (hourly [[num 3]; [num 4]; [num 6]]).

Definition univariate_short : Table :=
  mkTable ["Wind"] (hourly [[num 3]]).

(** A temperature column whose Celsius marker is written in lower case. *)
Definition lowercase_marker : Table :=
  mkTable ["temp_degc"] (hourly [[num 10]]).

(** The frame behind an outcome, cell by cell. *)
Definition cells (m : M DataFrame) : option (list (label * list (option Q))) :=
  match fst m with
  | Return d => Some (map (fun lr => (fst lr, map raw (snd lr))) (df_rows d))
  | Raise _ => None
  end.

(** A stand-in for [pd.to_datetime]: numbers are read as hours, stamps
    already parsed are kept, and text is coerced to NaT. *)
Definition to_datetime (c : Loader.column) : list (option Z) :=
  match c with
  | Loader.Dates stamps => stamps
  | Loader.Numbers cells =>
      map (fun v => match v with Some q => Some (Qnum (this q)) | None => None end) cells
  | Loader.Texts cells => map (fun _ => None) cells
  end.

Definition tower_file : string := "data/RF_MountainTower_rad_at10m_FEB-2025.csv".

(** Three rows: hours, a radiation column with one sentinel, and a flag. *)
Definition tower_frame : Loader.RawFrame :=
  Loader.mkRaw 3
    [("DateTime", Loader.Numbers [num 0; num 1; num 2]);
     ("rad", Loader.Numbers [num 5; num (-9999); num 7]);
     ("flag", Loader.Texts ["a"; "b"; "c"])].

(** The same readings under a first column that is not called [DateTime]. *)
Definition headerless_frame : Loader.RawFrame :=
  Loader.mkRaw 3
    [("time", Loader.Numbers [num 0; num 1; num 2]);
     ("rad", Loader.Numbers [num 5; num (-9999); num 7])].

(** A second measurement column that already bears the unique name. *)
Definition clash_frame : Loader.RawFrame :=
  Loader.mkRaw 1
    [("DateTime", Loader.Numbers [num 0]);
     ("rad", Loader.Numbers [num 5]);
     ("RainForest_MountainTower_rad_at10m", Loader.Numbers [num 6])].

Definition stamps_only : Loader.RawFrame :=
  Loader.mkRaw 2 [("DateTime", Loader.Numbers [num 0; num 1])].

(** A loaded file of two rows: stamps, location and one measurement. *)
Definition reading (location name : string) (cells : list value) : Loader.RawFrame :=
  Loader.mkRaw 2
    [("DateTime", Loader.Dates [Some 0%Z; Some 1%Z]);
     ("Location", Loader.Texts [location; location]);
     (name, Loader.Numbers cells)].

Definition tower_rad : Loader.RawFrame := reading "RainForest" "RainForest_rad" [num 5; num 6].
Definition lake_temp : Loader.RawFrame := reading "Lake" "Lake_temp" [num 1; num 2].
Definition tower_wind : Loader.RawFrame := reading "RainForest" "RainForest_wind" [num 3; num 4].

(** A loaded file without any row. *)
Definition no_rows : Loader.RawFrame :=
  Loader.mkRaw 0
    [("DateTime", Loader.Dates []); ("Location", Loader.Texts []);
     ("Lake_wind", Loader.Numbers [])].

(** [df["Location"].iloc[0]] on a text column. *)
Definition first_location (df : Loader.RawFrame) : Merge.merge_error + string :=
  match Loader.get_column "Location" (Loader.raw_columns df) with
  | Some (Loader.Texts (location :: _)) => inr location
  | Some _ => inl Merge.MergeIndexError
  | None => inl (Merge.MergeKeyError "Location")
  end.

(** A stand-in for the outer merge, for frames that share their stamps:
    the measurement columns of the right frame are put after the left
    frame's columns. *)
Definition merge (left right : Loader.RawFrame) : Merge.merge_error + Loader.RawFrame :=
  inr (Loader.mkRaw (Loader.n_rows left)
         (Loader.raw_columns left
          ++ filter (fun nc => Loader.is_data_label (fst nc)) (Loader.raw_columns right))).

(** A stand-in for the sort and the interpolation, for frames that are
    sorted and have no gap. *)
Definition sort_and_interpolate (df : Loader.RawFrame) : Merge.merge_error + Loader.RawFrame :=
  inr df.

Definition merged_towers : list (string * Loader.RawFrame) :=
  [("RainForest",
    Loader.mkRaw 2
      [("DateTime", Loader.Dates [Some 0%Z; Some 1%Z]);
       ("Location", Loader.Texts ["RainForest"; "RainForest"]);
       ("RainForest_rad", Loader.Numbers [num 5; num 6]);
       ("RainForest_wind", Loader.Numbers [num 3; num 4])]);
   ("Lake", lake_temp)].

(** A stand-in for the [ollama] program: it answers the model [phi3]
    with a padded line, exits with an error on other names, and is not
    found when the model name is empty. *)
Definition run (cmd : list string) : Ollama.run_result :=
  match cmd with
  | [_; _; EmptyString; _] => Ollama.OtherError "FileNotFoundError"
  | [_; _; "phi3"; _] =>
      Ollama.Completed
        (String (ascii_of_nat 10) (" Warmer and calmer. " ++ String (ascii_of_nat 10) ""))
  | _ => Ollama.CalledProcessError "returned non-zero exit status 1."
  end.

(** A stand-in for the interpolation over hourly stamps: a single missing
    cell between two readings takes their mean; every other cell is kept. *)
Fixpoint interpolate_hourly (cells : list value) : list value :=
  match cells with
  | Some a :: ((None :: Some b :: _) as rest) =>
      Some a :: Some ((a + b) / Q2Qc 2)%Qc :: tl (interpolate_hourly rest)
  | v :: rest => v :: interpolate_hourly rest
  | [] => []
  end.

End Toy.

(* ------------------------------------------------------------------ *)
(** ** Vocabulary of the properties *)

Section Vocabulary.

Context {L : VarLib}.

(** The three ways [select_and_fit] can go, with the calls made. *)
Inductive fit_run (endog : DataFrame) (maxlags : nat) : M var_results -> Prop :=
| run_no_model e :
    VAR endog = Raised e ->
    fit_run endog maxlags (Raise (of_lib e), [CallVAR endog])
| run_no_order model e :
    VAR endog = Returned model ->
    select_order_aic model maxlags = Raised e ->
    fit_run endog maxlags
      (Raise (of_lib e), [CallVAR endog; CallSelectOrder endog maxlags])
| run_no_fit model aic lag e :
    VAR endog = Returned model ->
    select_order_aic model maxlags = Returned aic ->
    match aic with Some a => lag = a | None => lag = 1 end ->
    fit model lag = Raised e ->
    fit_run endog maxlags
      (Raise (of_lib e),
       [CallVAR endog; CallSelectOrder endog maxlags; CallFit endog lag])
| run_fitted model aic lag results :
    VAR endog = Returned model ->
    select_order_aic model maxlags = Returned aic ->
    match aic with Some a => lag = a | None => lag = 1 end ->
    fit model lag = Returned results ->
    fit_run endog maxlags
      (Return results,
       [CallVAR endog; CallSelectOrder endog maxlags; CallFit endog lag]).

(** A routine of one fitting attempt raised [e]. *)
Definition attempt_raised (endog : DataFrame) (maxlags : nat) (e : lib_exn) : Prop :=
  VAR endog = Raised e \/
  exists model,
    VAR endog = Returned model /\
    (select_order_aic model maxlags = Raised e \/
     exists aic,
       select_order_aic model maxlags = Returned aic /\
       fit model (lag_of_aic aic) = Raised e).

(** The frames and the lag bounds of the two fitting attempts. *)
Definition level_frame (data : Table) : DataFrame :=
  set_index (convert_temperature_to_fahrenheit data).

Definition level_maxlags (data : Table) (maxlags : nat) : nat :=
  reduce_maxlags (len (level_frame data)) maxlags.

Definition diff_frame (data : Table) : DataFrame := dropna (diff (level_frame data)).

Definition diff_maxlags (data : Table) (maxlags : nat) : nat :=
  reduce_maxlags (len (diff_frame data)) (level_maxlags data maxlags).

Definition level_fit (data : Table) (maxlags : nat) : M var_results :=
  select_and_fit (level_frame data) (level_maxlags data maxlags).

Definition fallback_fit (data : Table) (maxlags : nat) : M var_results :=
  select_and_fit (diff_frame data) (diff_maxlags data maxlags).

(** The rows the simulator can draw its window from. *)
Definition available_rows (data : Table) (last_level : option Series) : list (label * row) :=
  match last_level with
  | None => df_rows (level_frame data)
  | Some _ => df_rows (diff_frame data)
  end.

(** Lines 79-81, and lines 97-102: what the simulator makes of the
    array [fc] that the forecasting routine returned. *)
Definition finish_forecast (data : Table) (steps : nat) (last_level : option Series)
    (t_last : Z) (fc : list row) : M DataFrame :=
  match last_level with
  | None => frame_of_array fc (forecast_index t_last steps) (df_columns (level_frame data))
  | Some last_level =>
      forecast_diff_df <-
        frame_of_array fc (range_index (List.length fc)) (df_columns (level_frame data)) ;;
      forecast_level <- add_array (cumsum forecast_diff_df) (s_values last_level) ;;
      ret (frame_of_frame forecast_level (forecast_index t_last steps))
  end.

Definition known (names : list string) (adjustments : adjustments_t) : adjustments_t :=
  filter (fun a => has_label (fst a) names) adjustments.

(** The delta an adjustment set holds for a variable, 0 when it has none. *)
Definition net_delta (adjustments : adjustments_t) (var : string) : Qc :=
  match find (fun a => String.eqb var (fst a)) adjustments with
  | Some a => snd a
  | None => Q2Qc 0
  end.

End Vocabulary.

(** The label and the cells of a row after the conversion, for the labels
    [marked] picks out. *)
Definition relabel (marked : string -> bool) (n : string) : string :=
  if marked n then fahrenheit_name n else n.

Fixpoint rescale (marked : string -> bool) (names : list string) (r : row) : row :=
  match names, r with
  | n :: names', v :: r' =>
      (if marked n then to_fahrenheit v else v) :: rescale marked names' r'
  | _, _ => r
  end.

(** No cell of a frame is NaN. *)
Definition gap_free (d : DataFrame) : Prop :=
  Forall (fun lr => Forall (fun v => isna v = false) (snd lr)) (df_rows d).

(** Every row of a frame is labelled by a position. *)
Definition positional (rs : list (label * row)) : Prop :=
  Forall (fun lr => exists i, fst lr = PosLabel i) rs.

(** Every cell of a frame is NaN. *)
Definition all_nan (d : DataFrame) : Prop :=
  Forall (fun lr => Forall (fun v => v = NaN) (snd lr)) (df_rows d).

(** Every row of a frame has one cell per column. *)
Definition rectangular (d : DataFrame) : Prop :=
  Forall (fun lr => List.length (snd lr) = List.length (df_columns d)) (df_rows d).

(** A snapshot as train_var_model takes it from a table: a Series that
    bears the labels of the converted table's columns, in their order, with
    one value each, the table having one cell per column in every row. *)
Definition snapshot_of (data : Table) (snapshot : Series) : Prop :=
  rectangular (set_index (convert_temperature_to_fahrenheit data)) /\
  s_index snapshot = columns (convert_temperature_to_fahrenheit data) /\
  List.length (s_values snapshot)
    = List.length (columns (convert_temperature_to_fahrenheit data)).

Ltac case_if :=
  match goal with
  | |- context [if ?c then _ else _] => destruct c eqn:?
  end.

(* ================================================================== *)
(** * Properties *)

(** ** The call log and outcomes of sequenced computations *)

Lemma bind_ret_l (A B : Type) (a : A) (k : A -> M B) : (x <- ret a ;; k x) = k a.
Proof.
  unfold bind, ret. simpl. destruct (k a); reflexivity.
Qed.

Lemma convert_column_rows_length (data : Table) (col : string) :
  List.length (rows (convert_column data col)) = List.length (rows data).
Proof.
  unfold convert_column. destruct (is_celsius_temperature col); [|reflexivity].
  simpl. now rewrite length_map.
Qed.

Lemma convert_rows_length (data : Table) :
  List.length (rows (convert_temperature_to_fahrenheit data)) = List.length (rows data).
Proof.
  unfold convert_temperature_to_fahrenheit. generalize (columns data) as cols.
  intros cols. revert data. induction cols as [|c cols IH]; intros data; simpl.
  - reflexivity.
  - now rewrite IH, convert_column_rows_length.
Qed.

Lemma level_frame_len (data : Table) : len (level_frame data) = List.length (rows data).
Proof.
  unfold level_frame, len, set_index. simpl.
  now rewrite length_map, convert_rows_length.
Qed.

Lemma diff_len (d : DataFrame) : len (diff d) = len d.
Proof.
  unfold diff, len. destruct (df_rows d) as [|[l r] rs] eqn:Hd; [now rewrite Hd|].
  simpl. f_equal. clear Hd. revert r. induction rs as [|[l' r'] rs IH]; intros r; simpl.
  - reflexivity.
  - now rewrite IH.
Qed.

Lemma diff_frame_len_le (data : Table) : len (diff_frame data) <= len (level_frame data).
Proof.
  unfold diff_frame. rewrite <- (diff_len (level_frame data)).
  unfold dropna, len. simpl. apply filter_length_le.
Qed.

(** ** The fitter *)

Section FitterFacts.

Context {L : VarLib}.

Lemma select_and_fit_run endog maxlags :
  fit_run endog maxlags (select_and_fit endog maxlags).
Proof.
  unfold select_and_fit, bind, lib_call.
  destruct (VAR endog) as [model|e] eqn:HV; simpl.
  2:{ now apply run_no_model. }
  destruct (select_order_aic model maxlags) as [aic|e] eqn:HS; simpl.
  2:{ now apply run_no_order with model. }
  destruct (fit model (lag_of_aic aic)) as [r|e] eqn:HF; simpl.
  - apply run_fitted with model aic; auto. destruct aic; reflexivity.
  - apply run_no_fit with model aic; auto. destruct aic; reflexivity.
Qed.

Lemma select_and_fit_first_call endog maxlags :
  exists rest, calls_of (select_and_fit endog maxlags) = CallVAR endog :: rest.
Proof.
  destruct (select_and_fit_run endog maxlags); simpl; eauto.
Qed.

Lemma select_and_fit_raises endog maxlags e :
  outcome_of (select_and_fit endog maxlags) = Raise e ->
  exists le, e = of_lib le /\ attempt_raised endog maxlags le.
Proof.
  destruct (select_and_fit_run endog maxlags)
    as [le HV|model le HV HS|model aic lag le HV HS Hlag HF|model aic lag r HV HS Hlag HF];
    simpl; intros H; inversion H; subst; exists le; (split; [reflexivity|]).
  - now left.
  - right. exists model. split; [assumption|]. now left.
  - right. exists model. split; [assumption|]. right. exists aic. split; [assumption|].
    destruct aic; simpl; now subst.
Qed.

Lemma train_var_model_unfold data maxlags :
  train_var_model data maxlags =
    try_except
      (results <- level_fit data maxlags ;; ret (results, None))
      is_LinAlgError
      (results <- fallback_fit data maxlags ;;
       last_level <- iloc_last (level_frame data) ;;
       ret (results, Some last_level)).
Proof. reflexivity. Qed.

(** [train_var_model], case by case on the level attempt. *)
Lemma train_level_returns data maxlags results :
  outcome_of (level_fit data maxlags) = Return results ->
  train_var_model data maxlags =
    (Return (results, None), calls_of (level_fit data maxlags)).
Proof.
  rewrite train_var_model_unfold. unfold outcome_of, calls_of.
  destruct (level_fit data maxlags) as [o log]. simpl. intros ->.
  unfold try_except, bind, ret. simpl. now rewrite app_nil_r.
Qed.

Lemma train_level_propagates data maxlags e :
  outcome_of (level_fit data maxlags) = Raise e ->
  e <> LinAlgError ->
  train_var_model data maxlags = (Raise e, calls_of (level_fit data maxlags)).
Proof.
  rewrite train_var_model_unfold. unfold outcome_of, calls_of.
  destruct (level_fit data maxlags) as [o log]. simpl. intros -> Hne.
  unfold try_except, bind at 1 2. simpl.
  destruct e; try congruence; reflexivity.
Qed.

Lemma train_level_singular data maxlags :
  outcome_of (level_fit data maxlags) = Raise LinAlgError ->
  train_var_model data maxlags =
    (outcome_of (results <- fallback_fit data maxlags ;;
                 last_level <- iloc_last (level_frame data) ;;
                 ret (results, Some last_level)),
     calls_of (level_fit data maxlags) ++
     calls_of (results <- fallback_fit data maxlags ;;
               last_level <- iloc_last (level_frame data) ;;
               ret (results, Some last_level))).
Proof.
  rewrite train_var_model_unfold. unfold outcome_of, calls_of.
  destruct (level_fit data maxlags) as [o log]. simpl. intros ->.
  unfold try_except, bind at 1 2. simpl. reflexivity.
Qed.

Lemma iloc_last_calls d : calls_of (iloc_last d) = [].
Proof.
  unfold iloc_last. destruct (rev (df_rows d)) as [|[l r] t]; reflexivity.
Qed.

Lemma iloc_last_return d s :
  outcome_of (iloc_last d) = Return s <->
  exists before l, df_rows d = before ++ [(l, s_values s)] /\ s_index s = df_columns d.
Proof.
  unfold iloc_last, outcome_of. split.
  - destruct (rev (df_rows d)) as [|[l r] t] eqn:Hr; simpl; [discriminate|].
    intros H. inversion H; subst. simpl.
    exists (rev t), l. split; [|reflexivity].
    rewrite <- (rev_involutive (df_rows d)), Hr. reflexivity.
  - intros (before & l & Hrows & Hidx). rewrite Hrows, rev_app_distr. simpl.
    destruct s as [i v]. simpl in *. now subst.
Qed.

(** The fallback, once the level attempt hit the singular matrix. *)
Lemma fallback_outcome data maxlags :
  let fb := (results <- fallback_fit data maxlags ;;
             last_level <- iloc_last (level_frame data) ;;
             ret (results, Some last_level)) in
  calls_of fb = calls_of (fallback_fit data maxlags) /\
  (forall e, outcome_of (fallback_fit data maxlags) = Raise e -> outcome_of fb = Raise e) /\
  (forall r, outcome_of (fallback_fit data maxlags) = Return r ->
     outcome_of fb =
       match outcome_of (iloc_last (level_frame data)) with
       | Return s => Return (r, Some s)
       | Raise e => Raise e
       end).
Proof.
  intros fb. subst fb. unfold outcome_of, calls_of.
  pose proof (iloc_last_calls (level_frame data)) as Hc. unfold calls_of in Hc.
  destruct (fallback_fit data maxlags) as [[r|e] log];
    destruct (iloc_last (level_frame data)) as [[s|e'] log'];
    unfold bind, ret; simpl in *; subst; rewrite ?app_nil_r;
    repeat split; try discriminate; intros x Hx; inversion Hx; reflexivity.
Qed.

(** The log of [train_var_model]: the level attempt, followed by the
    fallback attempt exactly when the level attempt hit the singular
    matrix. *)
Lemma train_calls data maxlags :
  (outcome_of (level_fit data maxlags) <> Raise LinAlgError /\
   calls_of (train_var_model data maxlags) = calls_of (level_fit data maxlags)) \/
  (outcome_of (level_fit data maxlags) = Raise LinAlgError /\
   calls_of (train_var_model data maxlags) =
     calls_of (level_fit data maxlags) ++ calls_of (fallback_fit data maxlags)).
Proof.
  destruct (outcome_of (level_fit data maxlags)) as [r|e] eqn:Hl.
  - left. split; [discriminate|]. now rewrite (train_level_returns _ _ Hl).
  - destruct e.
    + right. split; [reflexivity|]. rewrite (train_level_singular _ _ Hl).
      unfold calls_of at 1. simpl.
      now destruct (fallback_outcome data maxlags) as [-> _].
    + left. split; [discriminate|].
      rewrite (train_level_propagates (e:=LibraryError msg) _ _ Hl); [reflexivity|discriminate].
    + left. split; [discriminate|].
      rewrite (train_level_propagates (e:=ValueError msg) _ _ Hl); [reflexivity|discriminate].
    + left. split; [discriminate|].
      rewrite (train_level_propagates (e:=IndexError msg) _ _ Hl); [reflexivity|discriminate].
Qed.

Lemma train_calls_in data maxlags c :
  In c (calls_of (train_var_model data maxlags)) ->
  In c (calls_of (level_fit data maxlags)) \/
  (outcome_of (level_fit data maxlags) = Raise LinAlgError /\
   In c (calls_of (fallback_fit data maxlags))).
Proof.
  destruct (train_calls data maxlags) as [[_ ->]|[H ->]]; [now left|].
  rewrite in_app_iff. intros [Hc|Hc]; [now left|right; now split].
Qed.

(** What a [CallFit] entry of one attempt tells. *)
Lemma select_and_fit_fit_call endog maxlags c_endog lag :
  In (CallFit c_endog lag) (calls_of (select_and_fit endog maxlags)) ->
  c_endog = endog /\
  exists model aic,
    VAR endog = Returned model /\
    select_order_aic model maxlags = Returned aic /\
    match aic with Some a => lag = a | None => lag = 1 end.
Proof.
  intros Hin. destruct (select_and_fit_run endog maxlags); simpl in Hin;
    repeat (destruct Hin as [Hin|Hin]; try discriminate; try contradiction);
    inversion Hin; subst; split; eauto.
Qed.

Lemma select_and_fit_select_call endog maxlags c_endog c_max :
  In (CallSelectOrder c_endog c_max) (calls_of (select_and_fit endog maxlags)) ->
  c_endog = endog /\ c_max = maxlags.
Proof.
  intros Hin. destruct (select_and_fit_run endog maxlags); simpl in Hin;
    repeat (destruct Hin as [Hin|Hin]; try discriminate; try contradiction);
    inversion Hin; subst; split; reflexivity.
Qed.

Lemma select_and_fit_selected endog maxlags model aic :
  VAR endog = Returned model ->
  select_order_aic model maxlags = Returned aic ->
  In (CallSelectOrder endog maxlags) (calls_of (select_and_fit endog maxlags)) /\
  In (CallFit endog (match aic with Some a => a | None => 1 end))
     (calls_of (select_and_fit endog maxlags)).
Proof.
  intros HV HS.
  destruct (select_and_fit_run endog maxlags) as [e HV'|model' e HV' HS'|model' aic' lag e HV' HS' Hlag _
                   |model' aic' lag r HV' HS' Hlag _];
    rewrite HV in HV'; try discriminate; inversion HV'; subst model';
    rewrite HS in HS'; try discriminate; inversion HS'; subst aic';
    simpl; destruct aic; subst; auto.
Qed.


Lemma reduce_maxlags_le n_obs maxlags :
  1 <= maxlags -> reduce_maxlags n_obs maxlags <= maxlags.
Proof.
  unfold reduce_maxlags. destruct (n_obs <=? maxlags) eqn:H; [|lia].
  apply Nat.leb_le in H. lia.
Qed.

Lemma reduce_maxlags_pos n_obs maxlags :
  1 <= maxlags -> 1 <= reduce_maxlags n_obs maxlags.
Proof.
  unfold reduce_maxlags. destruct (n_obs <=? maxlags); lia.
Qed.

End FitterFacts.

(** C1, as stated, fails.  With an estimator that checks its arguments as
    statsmodels does, a table of one observation and a table of two meet
    the same end: the table is handed to the estimator, lag selection is
    asked for a maximum of 1, and what the caller gets is the ValueError of
    the lag selection.  The fitter tells fewer than 2 observations from 2
    or more neither by an error of its own nor by what it does before the
    estimator is consulted. *)
Lemma train_var_model_one_and_two_rows_alike :
  len (level_frame Toy.one_row) = 1 /\ len (level_frame Toy.two_rows) = 2 /\
  @train_var_model Toy.checked Toy.one_row 3
    = (Raise (ValueError Toy.too_many_lags),
       [CallVAR (level_frame Toy.one_row);
        CallSelectOrder (level_frame Toy.one_row) 1]) /\
  @train_var_model Toy.checked Toy.two_rows 3
    = (Raise (ValueError Toy.too_many_lags),
       [CallVAR (level_frame Toy.two_rows);
        CallSelectOrder (level_frame Toy.two_rows) 1]).
Proof.
  repeat split; reflexivity.
Qed.

(** C1, amended: train_var_model has no observation-count check.  On every
    table, whatever its number of observations, the first thing it does is
    hand the converted table to the estimator; an exception it raises is
    the one a routine of the estimator raised, on the level frame or, after
    the singular-matrix error, on the differenced frame (or else the
    IndexError of line 54, on a table without rows); when the level fit of
    the estimator returns, so does train_var_model; with fewer than 2
    observations and a requested maximum of at least 1 the maximum lag it
    asks for is 1. *)
Theorem train_var_model_no_count_check {L : VarLib} (data : Table) (maxlags : nat) :
  (exists rest,
     calls_of (train_var_model data maxlags) = CallVAR (level_frame data) :: rest) /\
  (forall e,
     outcome_of (train_var_model data maxlags) = Raise e ->
     (exists raised,
        e = of_lib raised /\
        (attempt_raised (level_frame data) (level_maxlags data maxlags) raised \/
         outcome_of (level_fit data maxlags) = Raise LinAlgError /\
         attempt_raised (diff_frame data) (diff_maxlags data maxlags) raised)) \/
     (rows data = [] /\ e = IndexError "single positional indexer is out-of-bounds")) /\
  (forall results,
     outcome_of (level_fit data maxlags) = Return results ->
     outcome_of (train_var_model data maxlags) = Return (results, None)) /\
  (len (level_frame data) < 2 -> 1 <= maxlags -> level_maxlags data maxlags = 1).
Proof.
  split; [|split; [|split]].
  - destruct (select_and_fit_first_call (level_frame data) (level_maxlags data maxlags))
      as [rest Hrest].
    fold (level_fit data maxlags) in Hrest.
    destruct (train_calls data maxlags) as [[_ ->]|[_ ->]]; rewrite Hrest; simpl; eauto.
  - intros e He.
    destruct (outcome_of (level_fit data maxlags)) as [r|e0] eqn:Hl.
    + rewrite (train_level_returns _ _ Hl) in He. discriminate.
    + assert (Hprop : e0 <> LinAlgError -> e = e0).
      { intros Hne. rewrite (train_level_propagates _ _ Hl Hne) in He.
        now inversion He. }
      destruct e0 as [|msg0|msg0|msg0].
      * rewrite (train_level_singular _ _ Hl) in He. unfold outcome_of at 1 in He.
        simpl in He.
        destruct (fallback_outcome data maxlags) as (_ & Hraise & Hret).
        destruct (outcome_of (fallback_fit data maxlags)) as [r|e1] eqn:Hf.
        -- rewrite (Hret _ eq_refl) in He. right.
           unfold iloc_last, outcome_of in He.
           destruct (rev (df_rows (level_frame data))) as [|[l r0] t] eqn:Hrev;
             [|discriminate].
           simpl in He. inversion He. split; [|reflexivity].
           apply (f_equal (@rev _)) in Hrev. rewrite rev_involutive in Hrev. simpl in Hrev.
           pose proof (level_frame_len data) as Hlen. unfold len in Hlen.
           apply length_zero_iff_nil.
           refine (eq_trans (eq_sym Hlen) _).
           exact (f_equal (@List.length _) Hrev).
        -- rewrite (Hraise _ eq_refl) in He. inversion He; subst. left.
           destruct (select_and_fit_raises _ _ Hf) as (raised & -> & Hr).
           exists raised. split; [reflexivity|]. right. now split.
      * rewrite (Hprop ltac:(discriminate)). left.
        destruct (select_and_fit_raises _ _ Hl) as (raised & Heq & Hr).
        exists raised. split; [assumption|now left].
      * rewrite (Hprop ltac:(discriminate)). left.
        destruct (select_and_fit_raises _ _ Hl) as (raised & Heq & Hr).
        exists raised. split; [assumption|now left].
      * rewrite (Hprop ltac:(discriminate)). left.
        destruct (select_and_fit_raises _ _ Hl) as (raised & Heq & Hr).
        exists raised. split; [assumption|now left].
  - intros results Hl. now rewrite (train_level_returns _ _ Hl).
  - intros Hn Hm. unfold level_maxlags, reduce_maxlags.
    destruct (len (level_frame data) <=? maxlags) eqn:Hle.
    + lia.
    + apply Nat.leb_gt in Hle. lia.
Qed.

Lemma train_var_model_no_count_check_witness :
  len (level_frame Toy.one_row) < 2 /\ 1 <= 3 /\
  @level_maxlags Toy.one_row 3 = 1 /\
  exists raised,
    ValueError Toy.too_many_lags = of_lib raised /\
    @attempt_raised Toy.checked (level_frame Toy.one_row) 1 raised.
Proof.
  destruct (@train_var_model_no_count_check Toy.checked Toy.one_row 3)
    as (_ & Hraise & _ & Hlag).
  assert (Hn : len (level_frame Toy.one_row) < 2) by (vm_compute; lia).
  split; [exact Hn|]. split; [lia|]. split.
  - apply Hlag; [exact Hn|lia].
  - destruct (Hraise (ValueError Toy.too_many_lags) eq_refl)
      as [(raised & Heq & [Hr|[Hl _]])|[Hrows _]].
    + exists raised. split; [exact Heq|exact Hr].
    + discriminate.
    + discriminate.
Defined.

(** C4: train_var_model returns no snapshot exactly when the level fit
    succeeded, and returns the snapshot (the last row of the converted table,
    before differencing) exactly when the level attempt raised the
    singular-matrix error and the fit on the differenced table succeeded;
    every other exception of the level attempt leaves train_var_model as it
    is, with no differenced attempt made, and so does every exception of the
    differenced attempt. *)
Theorem train_var_model_snapshot_iff_differenced {L : VarLib}
    (data : Table) (maxlags : nat) :
  (forall results,
     outcome_of (train_var_model data maxlags) = Return (results, None) <->
     outcome_of (level_fit data maxlags) = Return results) /\
  (forall results snapshot,
     outcome_of (train_var_model data maxlags) = Return (results, Some snapshot) <->
     outcome_of (level_fit data maxlags) = Raise LinAlgError /\
     outcome_of (fallback_fit data maxlags) = Return results /\
     exists before l,
       df_rows (level_frame data) = before ++ [(l, s_values snapshot)] /\
       s_index snapshot = df_columns (level_frame data)) /\
  (forall e,
     outcome_of (level_fit data maxlags) = Raise e -> e <> LinAlgError ->
     outcome_of (train_var_model data maxlags) = Raise e /\
     calls_of (train_var_model data maxlags) = calls_of (level_fit data maxlags)) /\
  (forall e,
     outcome_of (level_fit data maxlags) = Raise LinAlgError ->
     outcome_of (fallback_fit data maxlags) = Raise e ->
     outcome_of (train_var_model data maxlags) = Raise e).
Proof.
  destruct (fallback_outcome data maxlags) as (_ & Hraise & Hret).
  split; [|split; [|split]].
  - intros results. split.
    + intros Ht. destruct (outcome_of (level_fit data maxlags)) as [r|e] eqn:Hl.
      * rewrite (train_level_returns _ _ Hl) in Ht. now inversion Ht.
      * destruct e;
          try (rewrite (train_level_propagates _ _ Hl) in Ht; [discriminate|discriminate]).
        rewrite (train_level_singular _ _ Hl) in Ht. unfold outcome_of at 1 in Ht.
        simpl in Ht.
        destruct (outcome_of (fallback_fit data maxlags)) as [r|e] eqn:Hf.
        -- rewrite (Hret _ eq_refl) in Ht.
           destruct (outcome_of (iloc_last (level_frame data))); discriminate.
        -- rewrite (Hraise _ eq_refl) in Ht. discriminate.
    + intros Hl. now rewrite (train_level_returns _ _ Hl).
  - intros results snapshot. rewrite <- iloc_last_return. split.
    + intros Ht. destruct (outcome_of (level_fit data maxlags)) as [r|e] eqn:Hl.
      * rewrite (train_level_returns _ _ Hl) in Ht. discriminate.
      * destruct e;
          try (rewrite (train_level_propagates _ _ Hl) in Ht; [discriminate|discriminate]).
        rewrite (train_level_singular _ _ Hl) in Ht. unfold outcome_of at 1 in Ht.
        simpl in Ht. split; [reflexivity|].
        destruct (outcome_of (fallback_fit data maxlags)) as [r|e] eqn:Hf.
        -- rewrite (Hret _ eq_refl) in Ht.
           destruct (outcome_of (iloc_last (level_frame data))); [|discriminate].
           inversion Ht; subst. split; reflexivity.
        -- rewrite (Hraise _ eq_refl) in Ht. discriminate.
    + intros (Hl & Hf & Hs). rewrite (train_level_singular _ _ Hl).
      unfold outcome_of at 1. simpl. rewrite (Hret _ Hf), Hs. reflexivity.
  - intros e Hl Hne. now rewrite (train_level_propagates _ _ Hl Hne).
  - intros e Hl Hf. rewrite (train_level_singular _ _ Hl).
    unfold outcome_of at 1. simpl. now apply Hraise.
Qed.

Lemma train_var_model_snapshot_iff_differenced_witness :
  exists snapshot,
    outcome_of (@train_var_model (Toy.singular_above 2) Toy.three_rows 3)
      = Return (1, Some snapshot) /\
    map raw (s_values snapshot) = [Some (277 # 5)%Q; Some (6 # 1)%Q].
Proof.
  exists (mkSeries (df_columns (level_frame Toy.three_rows))
            (snd (last (df_rows (level_frame Toy.three_rows)) (PosLabel 0, [])))).
  split; [|reflexivity].
  apply (proj1 (proj2 (@train_var_model_snapshot_iff_differenced
                         (Toy.singular_above 2) Toy.three_rows 3))).
  split; [reflexivity|]. split; [reflexivity|].
  apply iloc_last_return. reflexivity.
Defined.




(** C10: every fit that train_var_model requests, on the level table or on
    the differenced table, follows a lag selection on that same table, with
    lag order 1 when the selection reported no AIC order and with exactly the
    AIC order otherwise; and whenever a selection returns, that fit is
    requested. *)
Theorem train_var_model_fits_aic_order_or_one {L : VarLib}
    (data : Table) (maxlags : nat) :
  (forall endog lag,
     In (CallFit endog lag) (calls_of (train_var_model data maxlags)) ->
     exists model m aic,
       (endog = level_frame data /\ m = level_maxlags data maxlags \/
        endog = diff_frame data /\ m = diff_maxlags data maxlags) /\
       VAR endog = Returned model /\
       select_order_aic model m = Returned aic /\
       match aic with None => lag = 1 | Some a => lag = a end) /\
  (forall model aic,
     VAR (level_frame data) = Returned model ->
     select_order_aic model (level_maxlags data maxlags) = Returned aic ->
     In (CallFit (level_frame data) (match aic with None => 1 | Some a => a end))
        (calls_of (train_var_model data maxlags))) /\
  (forall model aic,
     outcome_of (level_fit data maxlags) = Raise LinAlgError ->
     VAR (diff_frame data) = Returned model ->
     select_order_aic model (diff_maxlags data maxlags) = Returned aic ->
     In (CallFit (diff_frame data) (match aic with None => 1 | Some a => a end))
        (calls_of (train_var_model data maxlags))).
Proof.
  split; [|split].
  - intros endog lag Hin. apply train_calls_in in Hin.
    unfold level_fit, fallback_fit in Hin. destruct Hin as [Hin|[_ Hin]];
      apply select_and_fit_fit_call in Hin;
      destruct Hin as (-> & model & aic & HV & HS & Hlag);
      exists model; eexists; exists aic; (split; [|split; [exact HV|split; [exact HS|]]]);
      [left; split; reflexivity|destruct aic; assumption
      |right; split; reflexivity|destruct aic; assumption].
  - intros model aic HV HS.
    destruct (@select_and_fit_selected _ _ _ _ _ HV HS) as [_ Hin].
    fold (level_fit data maxlags) in Hin.
    destruct (train_calls data maxlags) as [[_ ->]|[_ ->]];
      [|apply in_or_app; left]; destruct aic; assumption.
  - intros model aic Hl HV HS.
    destruct (@select_and_fit_selected _ _ _ _ _ HV HS) as [_ Hin].
    fold (fallback_fit data maxlags) in Hin.
    destruct (train_calls data maxlags) as [[Hne _]|[_ ->]]; [contradiction|].
    apply in_or_app. right. destruct aic; assumption.
Qed.

Lemma train_var_model_fits_aic_order_or_one_witness :
  In (CallFit (level_frame Toy.three_rows) 1)
     (calls_of (@train_var_model Toy.no_aic Toy.three_rows 3)) /\
  In (CallFit (diff_frame Toy.three_rows) 1)
     (calls_of (@train_var_model (Toy.singular_above 2) Toy.three_rows 3)).
Proof.
  split.
  - apply (proj1 (proj2 (@train_var_model_fits_aic_order_or_one
                           Toy.no_aic Toy.three_rows 3))
             (level_frame Toy.three_rows) None); reflexivity.
  - apply (proj2 (proj2 (@train_var_model_fits_aic_order_or_one
                           (Toy.singular_above 2) Toy.three_rows 3))
             (diff_frame Toy.three_rows) (Some 1)); reflexivity.
Defined.

(** ** Unit conversion *)

Lemma convert_column_other (data : Table) (col : string) :
  is_celsius_temperature col = false -> convert_column data col = data.
Proof.
  unfold convert_column. now intros ->.
Qed.

Lemma fold_convert_no_marker (cols : list string) (data : Table) :
  Forall (fun c => is_celsius_temperature c = false) cols ->
  fold_left convert_column cols data = data.
Proof.
  intros H. revert data. induction H as [|c cols Hc _ IH]; intros data; simpl.
  - reflexivity.
  - now rewrite (convert_column_other _ _ Hc).
Qed.

(** Labels still bearing the Celsius marker are labels the loop has yet to
    visit. *)
Lemma fold_convert_marked_pending (todo : list string) (data : Table) :
  Forall (fun c => is_celsius_temperature c = true ->
                   is_celsius_temperature (fahrenheit_name c) = false) todo ->
  Forall (fun n => is_celsius_temperature n = true -> In n todo) (columns data) ->
  Forall (fun n => is_celsius_temperature n = false)
         (columns (fold_left convert_column todo data)).
Proof.
  revert data. induction todo as [|c todo IH]; intros data Hren Hpend; simpl.
  - apply Forall_forall. intros n Hn.
    rewrite Forall_forall in Hpend. specialize (Hpend n Hn).
    destruct (is_celsius_temperature n); [now destruct Hpend|reflexivity].
  - inversion Hren as [|? ? Hc Hren']; subst. apply IH; [assumption|].
    rewrite Forall_forall in *. intros n Hn Hmark.
    unfold convert_column in Hn.
    destruct (is_celsius_temperature c) eqn:Hcm.
    + simpl in Hn. unfold rename_columns in Hn. apply in_map_iff in Hn.
      destruct Hn as (n0 & Hn0 & Hin0).
      destruct (String.eqb n0 c) eqn:Heq.
      * subst n. rewrite (Hc eq_refl) in Hmark. discriminate.
      * subst n0. destruct (Hpend n Hin0 Hmark) as [Hnc|Hrest]; [|assumption].
        subst c. rewrite String.eqb_refl in Heq. discriminate.
    + destruct (Hpend n Hn Hmark) as [Hnc|Hrest]; [|assumption].
      subst c. congruence.
Qed.

(** X2: when every label that bears the Celsius marker loses it in the
    renaming of line 16, a second conversion changes nothing. *)
Lemma convert_idempotent_when_renamed (data : Table) :
  Forall (fun c => is_celsius_temperature c = true ->
                   is_celsius_temperature (fahrenheit_name c) = false) (columns data) ->
  convert_temperature_to_fahrenheit (convert_temperature_to_fahrenheit data)
    = convert_temperature_to_fahrenheit data.
Proof.
  intros Hren. unfold convert_temperature_to_fahrenheit at 1.
  apply fold_convert_no_marker.
  apply fold_convert_marked_pending; [assumption|].
  apply Forall_forall. auto.
Qed.

(** C2, on a table whose temperature label spells the marker in lower case:
    the test of line 14 ignores case, the renaming of line 16 knows only
    "degC" and "DEGC", so the label stays as it is and the second
    conversion converts the Fahrenheit values once more (10 degC gives 50,
    then 122). *)
Theorem convert_twice_lowercase_marker :
  columns (convert_temperature_to_fahrenheit Toy.lowercase_marker) = ["temp_degc"] /\
  raw_rows (convert_temperature_to_fahrenheit Toy.lowercase_marker)
    = [(0%Z, [Some (50 # 1)%Q])] /\
  raw_rows (convert_temperature_to_fahrenheit
              (convert_temperature_to_fahrenheit Toy.lowercase_marker))
    = [(0%Z, [Some (122 # 1)%Q])].
Proof.
  repeat split; reflexivity.
Qed.

(** ** The single-series forecasters *)

Lemma iloc_column_return (data : Table) (j : nat) (named_ts : string * list (Z * value)) :
  outcome_of (iloc_column data j) = Return named_ts ->
  iloc_column data j = ret named_ts.
Proof.
  unfold iloc_column, outcome_of. destruct (nth_error (columns data) j); simpl.
  - intros H. inversion H. reflexivity.
  - discriminate.
Qed.

Lemma last_datetime_calls (data : Table) : calls_of (last_datetime data) = [].
Proof.
  unfold last_datetime. destruct (rev (rows data)) as [|[t r] rest]; reflexivity.
Qed.

(** On a table with at least two sensor columns, with [ts] the series
    that the routine reads (the sensor column at position 1):
    forecast_arima raises its own error, before the estimator is asked
    anything, exactly when [ts] has fewer than 2 observations, and
    forecast_prophet exactly when [ts] has fewer than 2 non-missing values;
    with enough data the estimator is called, on [ts]. *)
Lemma single_series_second_sensor_check {U : UniLib}
    (data : Table) (order : nat * nat * nat) (steps : nat)
    (name : string) (ts : list (Z * value)) :
  outcome_of (iloc_column data 1) = Return (name, ts) ->
  (forecast_arima data order steps = raise (ValueError arima_message)
     <-> List.length ts < 2) /\
  (2 <= List.length ts ->
   calls_of (forecast_arima data order steps) = [CallARIMA ts]) /\
  (forecast_prophet data steps = raise (ValueError prophet_message)
     <-> count_non_missing ts < 2) /\
  (2 <= count_non_missing ts ->
   calls_of (forecast_prophet data steps) = [CallProphet ts]).
Proof.
  intros Hts. apply iloc_column_return in Hts.
  unfold forecast_arima, forecast_prophet. rewrite Hts, !bind_ret_l. cbn [snd fst].
  assert (Harima :
    calls_of (fc <- lib_call (CallARIMA ts) (arima_forecast ts order steps) ;;
              t_last <- last_datetime data ;;
              (let index := forecast_index t_last steps in
               if List.length fc =? List.length index
               then ret (mkFrame [name] (combine index (map (fun v => [v]) fc)))
               else raise (ValueError "Length mismatch")))
      = [CallARIMA ts]).
  { unfold lib_call.
    destruct (arima_forecast ts order steps) as [fc|e]; unfold bind at 1; simpl;
      [|reflexivity].
    pose proof (last_datetime_calls data) as Hc. unfold calls_of in Hc.
    unfold last_datetime in *.
    destruct (rev (rows data)) as [|[t r] rest]; unfold bind, raise, ret; simpl;
      [reflexivity|].
    destruct (List.length fc =? List.length (forecast_index t steps)); reflexivity. }
  assert (Hprophet :
    calls_of (fc <- lib_call (CallProphet ts) (prophet_predict ts steps) ;;
              ret (mkFrame ["yhat"]
                     (map (fun p => (TimeLabel (fst p), [snd p])) (tail steps fc))))
      = [CallProphet ts]).
  { unfold lib_call. destruct (prophet_predict ts steps) as [fc|e];
      unfold bind, ret; reflexivity. }
  destruct (List.length ts <? 2) eqn:Hlen;
    [apply Nat.ltb_lt in Hlen|apply Nat.ltb_ge in Hlen];
    (destruct (count_non_missing ts <? 2) eqn:Hcnt;
     [apply Nat.ltb_lt in Hcnt|apply Nat.ltb_ge in Hcnt]);
    repeat match goal with
           | |- _ /\ _ => split
           | |- _ <-> _ => split
           end;
    intros; try reflexivity; try lia; try assumption;
    match goal with
    | H : _ = raise _ |- _ =>
        exfalso; apply (f_equal (@calls_of _)) in H;
        first [discriminate (eq_trans (eq_sym Harima) H)
              |discriminate (eq_trans (eq_sym Hprophet) H)]
    end.
Qed.

(** C9, on tables that hold the time stamps and one measurement, the
    univariate series that the docstring of forecast_arima describes
    (the second column is the measurement).  After [set_index] the
    measurement is the column at position 0, and both routines read
    position 1: with three observations, which are enough for either
    check, and with one, which is not, each raises IndexError before it
    counts anything and before the estimator is called. *)
Theorem single_series_univariate_index_error :
  columns Toy.univariate = ["Wind"] /\
  List.length (rows Toy.univariate) = 3 /\
  List.length (rows Toy.univariate_short) = 1 /\
  @forecast_arima Toy.uni Toy.univariate (1, 1, 1) 24
    = raise (IndexError "single positional indexer is out-of-bounds") /\
  @forecast_prophet Toy.uni Toy.univariate 24
    = raise (IndexError "single positional indexer is out-of-bounds") /\
  @forecast_arima Toy.uni Toy.univariate_short (1, 1, 1) 24
    = raise (IndexError "single positional indexer is out-of-bounds") /\
  @forecast_prophet Toy.uni Toy.univariate_short 24
    = raise (IndexError "single positional indexer is out-of-bounds").
Proof.
  repeat split; reflexivity.
Qed.

(** ** The simulator: windows *)

Lemma bind_lib_call (A B : Type) (c : call) (r : lib_result A) (k : A -> M B) :
  (x <- lib_call c r ;; k x) =
    match r with
    | Returned a => (outcome_of (k a), c :: calls_of (k a))
    | Raised e => (Raise (of_lib e), [c])
    end.
Proof. destruct r; reflexivity. Qed.

Lemma bind_ext (A B : Type) (m : M A) (k1 k2 : A -> M B) :
  (forall a, k1 a = k2 a) -> (x <- m ;; k1 x) = (x <- m ;; k2 x).
Proof.
  intros H. unfold bind. destruct (fst m); [now rewrite H|reflexivity].
Qed.


(** For lag order 0 the window is the whole table. *)
Lemma iloc_tail_zero (A : Type) (xs : list A) : iloc_tail 0 xs = xs.
Proof. reflexivity. Qed.

Lemma iloc_tail_nonempty (A : Type) (k : nat) (xs : list A) :
  xs <> [] -> iloc_tail k xs <> [].
Proof.
  intros Hxs. unfold iloc_tail. destruct (k =? 0) eqn:H0; [assumption|].
  apply Nat.eqb_neq in H0. intros Hnil.
  apply (f_equal (@List.length A)) in Hnil. rewrite length_skipn in Hnil.
  destruct xs; [congruence|]. cbn [List.length] in Hnil. lia.
Qed.

Lemma map_last_some (f : row -> row) (rs : list (label * row)) :
  rs <> [] ->
  exists rs', map_last f rs = Some rs' /\
              List.length rs' = List.length rs /\ rs' <> [].
Proof.
  induction rs as [|[l r] rs IH]; [congruence|]. intros _.
  destruct rs as [|lr rs].
  - simpl. eexists. repeat split. discriminate.
  - destruct IH as (rs' & Hrs' & Hlen & _); [discriminate|].
    change (map_last f ((l, r) :: lr :: rs))
      with (option_map (cons (l, r)) (map_last f (lr :: rs))).
    rewrite Hrs'. simpl. eexists. split; [reflexivity|]. split; [|discriminate].
    simpl in *. now rewrite Hlen.
Qed.

Lemma last_datetime_return (data : Table) :
  rows data <> [] -> exists t, last_datetime data = ret t.
Proof.
  intros H. unfold last_datetime. destruct (rev (rows data)) as [|[t r] rest] eqn:Hr.
  - apply (f_equal (@rev _)) in Hr. rewrite rev_involutive in Hr. simpl in Hr. congruence.
  - now exists t.
Qed.

Lemma set_index_rows_nil (data : Table) :
  df_rows (set_index data) = [] <-> rows data = [].
Proof.
  unfold set_index. simpl. split.
  - apply map_eq_nil.
  - now intros ->.
Qed.

Lemma iloc_last_nonempty (d : DataFrame) :
  df_rows d <> [] -> exists s, iloc_last d = ret s /\ s_index s = df_columns d.
Proof.
  intros H. unfold iloc_last. destruct (rev (df_rows d)) as [|[l r] rest] eqn:Hr.
  - apply (f_equal (@rev _)) in Hr. rewrite rev_involutive in Hr. simpl in Hr. congruence.
  - eexists. split; reflexivity.
Qed.

Lemma zip_with_length (A B C : Type) (f : A -> B -> C) (a : list A) (b : list B) :
  List.length (zip_with f a b) = Nat.min (List.length a) (List.length b).
Proof.
  revert b. induction a as [|x a IH]; intros [|y b]; simpl; auto.
Qed.

Lemma diff_rows_width (w : nat) (prev : row) (rs : list (label * row)) :
  List.length prev = w ->
  Forall (fun lr => List.length (snd lr) = w) rs ->
  Forall (fun lr => List.length (snd lr) = w) (diff_rows prev rs).
Proof.
  intros Hprev H. revert prev Hprev.
  induction H as [|[l r] rs Hr _ IH]; intros prev Hprev; simpl.
  - constructor.
  - simpl in Hr. constructor.
    + simpl. rewrite zip_with_length. lia.
    + now apply IH.
Qed.

Lemma diff_frame_columns (data : Table) :
  df_columns (diff_frame data) = df_columns (level_frame data).
Proof.
  unfold diff_frame, dropna, diff. cbn [df_columns].
  now destruct (df_rows (level_frame data)) as [|[l r] rs].
Qed.

Lemma diff_frame_rectangular (data : Table) :
  rectangular (level_frame data) -> rectangular (diff_frame data).
Proof.
  unfold rectangular, diff_frame, dropna. cbn [df_rows df_columns].
  intros H. apply Forall_forall. intros lr Hin. apply filter_In in Hin.
  destruct Hin as [Hin _]. revert lr Hin. apply Forall_forall.
  unfold diff. destruct (df_rows (level_frame data)) as [|[l r] rs] eqn:Hrows.
  - rewrite Hrows. constructor.
  - cbn [df_rows df_columns]. inversion H as [|? ? Hr Hrs]; subst. simpl in Hr.
    constructor.
    + simpl. now rewrite length_map.
    + now apply diff_rows_width.
Qed.

Lemma add_at_length (j : nat) (change : Qc) (r : row) :
  List.length (add_at j change r) = List.length r.
Proof.
  revert j. induction r as [|v r IH]; intros [|j]; simpl; auto.
Qed.

Lemma map_last_snoc (f : row -> row) (init : list (label * row)) (l : label) (r : row) :
  map_last f (init ++ [(l, r)]) = Some (init ++ [(l, f r)]).
Proof.
  induction init as [|[l1 r1] init IH]; [reflexivity|].
  destruct init as [|lr' init].
  - reflexivity.
  - change (map_last f (((l1, r1) :: lr' :: init) ++ [(l, r)]))
      with (option_map (cons (l1, r1)) (map_last f ((lr' :: init) ++ [(l, r)]))).
    rewrite IH. reflexivity.
Qed.

Lemma map_last_spec (f : row -> row) (rs rs' : list (label * row)) :
  map_last f rs = Some rs' ->
  exists init l r, rs = init ++ [(l, r)] /\ rs' = init ++ [(l, f r)].
Proof.
  revert rs'. induction rs as [|[l r] rs IH]; intros rs' H; [discriminate|].
  destruct rs as [|lr rs].
  - simpl in H. inversion H. now exists [], l, r.
  - change (map_last f ((l, r) :: lr :: rs))
      with (option_map (cons (l, r)) (map_last f (lr :: rs))) in H.
    destruct (map_last f (lr :: rs)) as [rs1|]; [|discriminate].
    simpl in H. inversion H; subst.
    destruct (IH rs1 eq_refl) as (init & l0 & r0 & Hrs & Hrs1).
    exists ((l, r) :: init), l0, r0. rewrite Hrs, Hrs1. split; reflexivity.
Qed.

Lemma apply_adjustments_snapshot_length adjustments s :
  List.length (s_values (apply_adjustments_snapshot adjustments s))
  = List.length (s_values s).
Proof.
  revert s. induction adjustments as [|[v d] rest IH]; intros s; simpl; [reflexivity|].
  destruct (has_label v (s_index s)); rewrite IH; [|reflexivity].
  simpl. apply add_at_length.
Qed.

Lemma iloc_tail_incl (A : Type) (k : nat) (xs : list A) (x : A) :
  In x (iloc_tail k xs) -> In x xs.
Proof.
  unfold iloc_tail. destruct (k =? 0); [auto|].
  intros H. rewrite <- (firstn_skipn (List.length xs - k) xs).
  apply in_or_app. now right.
Qed.

Lemma bind_return_inv (A B : Type) (m : M A) (k : A -> M B) (b : B) :
  outcome_of (x <- m ;; k x) = Return b ->
  exists a, outcome_of m = Return a /\ outcome_of (k a) = Return b.
Proof.
  unfold bind, outcome_of. destruct (fst m) as [a|e]; simpl; [eauto|discriminate].
Qed.

Lemma labels_eqb_refl (a : list string) : labels_eqb a a = true.
Proof.
  induction a as [|x a IH]; simpl; [reflexivity|]. now rewrite String.eqb_refl.
Qed.

Lemma labels_eqb_eq (a b : list string) : labels_eqb a b = true <-> a = b.
Proof.
  split; [|intros ->; apply labels_eqb_refl].
  revert b. induction a as [|x a IH]; intros [|y b]; simpl; try discriminate;
    [reflexivity|].
  intros H. apply andb_prop in H. destruct H as [Hx Ha].
  apply String.eqb_eq in Hx. subst. f_equal. now apply IH.
Qed.

(** On operands that bear the same index, the operation is cell by cell. *)
Lemma series_op_same_index (op : value -> value -> value) (a b : Series) :
  s_index a = s_index b ->
  series_op op a b = mkSeries (s_index a) (zip_with op (s_values a) (s_values b)).
Proof.
  intros H. unfold series_op. now rewrite H, labels_eqb_refl.
Qed.

Lemma apply_adjustments_snapshot_index adjustments s :
  s_index (apply_adjustments_snapshot adjustments s) = s_index s.
Proof.
  revert s. induction adjustments as [|[v d] rest IH]; intros s; simpl; [reflexivity|].
  destruct (has_label v (s_index s)); now rewrite IH.
Qed.

Lemma iloc_last_snoc (cols : list string) (init : list (label * row)) (l : label) (r : row) :
  iloc_last (mkFrame cols (init ++ [(l, r)])) = ret (mkSeries cols r).
Proof.
  unfold iloc_last. cbn [df_rows df_columns]. now rewrite rev_app_distr.
Qed.

Lemma iloc_last_assign_snoc (cols : list string) (new_row : Series)
    (init : list (label * row)) (l : label) (r : row) :
  List.length (s_values new_row) = List.length cols ->
  iloc_last_assign cols new_row (init ++ [(l, r)])
  = ret (init ++ [(l, s_values new_row)]).
Proof.
  intros Hlen. unfold iloc_last_assign. apply Nat.eqb_eq in Hlen. rewrite Hlen.
  now rewrite map_last_snoc.
Qed.

Lemma iloc_last_assign_calls (cols : list string) (new_row : Series)
    (obs : list (label * row)) :
  calls_of (iloc_last_assign cols new_row obs) = [].
Proof.
  unfold iloc_last_assign. destruct (_ =? _); [|reflexivity].
  destruct (map_last _ obs); reflexivity.
Qed.

Lemma insert_label_in (y l : string) (sorted : list string) :
  In y (insert_label l sorted) <-> y = l \/ In y sorted.
Proof.
  induction sorted as [|x sorted IH]; simpl.
  - intuition.
  - destruct (String.leb l x); simpl; [intuition|]. rewrite IH. intuition.
Qed.

Lemma sort_labels_in (y : string) (names : list string) :
  In y (sort_labels names) <-> In y names.
Proof.
  unfold sort_labels. induction names as [|x names IH]; simpl; [reflexivity|].
  rewrite insert_label_in, IH. intuition.
Qed.

(** The joined index holds the labels of both operands. *)
Lemma join_index_in (y : string) (a b : list string) :
  In y (join_index a b) <-> In y a \/ In y b.
Proof.
  unfold join_index. destruct a as [|x a]; [simpl; intuition|].
  destruct b as [|z b]; [simpl; intuition|].
  rewrite sort_labels_in, nodup_In, in_app_iff. reflexivity.
Qed.

(** On operands whose indexes differ, the result is laid out on the joined
    index. *)
Lemma series_op_joined (op : value -> value -> value) (a b : Series) :
  s_index a <> s_index b ->
  s_index (series_op op a b) = join_index (s_index a) (s_index b) /\
  List.length (s_values (series_op op a b))
  = List.length (join_index (s_index a) (s_index b)).
Proof.
  intros Hne. unfold series_op.
  destruct (labels_eqb (s_index a) (s_index b)) eqn:E.
  - apply labels_eqb_eq in E. contradiction.
  - cbn [s_index s_values]. now rewrite length_map.
Qed.

(** [iloc[-1] = new_row] with a row that is not as wide as the frame. *)
Lemma iloc_last_assign_mismatch (cols : list string) (new_row : Series)
    (obs : list (label * row)) :
  List.length (s_values new_row) <> List.length cols ->
  exists msg, iloc_last_assign cols new_row obs = raise (ValueError msg).
Proof.
  intros Hlen. unfold iloc_last_assign. apply Nat.eqb_neq in Hlen. rewrite Hlen.
  eexists. reflexivity.
Qed.

Section SimulatorFacts.

Context {L : VarLib}.

Lemma apply_adjustments_level_return cols adjustments obs :
  obs <> [] ->
  exists obs', apply_adjustments_level cols adjustments obs = ret obs' /\
               List.length obs' = List.length obs /\ obs' <> [].
Proof.
  revert obs. induction adjustments as [|[var change] rest IH]; intros obs Hobs; simpl.
  - exists obs. auto.
  - destruct (has_label var cols); [|now apply IH].
    unfold iloc_last_add.
    destruct (map_last_some (add_at (get_loc var cols) change) Hobs)
      as (obs1 & -> & Hlen1 & Hne1).
    rewrite bind_ret_l. destruct (IH obs1 Hne1) as (obs' & -> & Hlen & Hne).
    exists obs'. repeat split; [congruence|assumption].
Qed.

Lemma available_rows_table data last_level :
  available_rows data last_level <> [] -> rows data <> [].
Proof.
  intros H Hnil. apply H. destruct last_level as [s|]; unfold available_rows.
  - pose proof (diff_frame_len_le data) as Hle. rewrite level_frame_len, Hnil in Hle.
    unfold len in Hle. destruct (df_rows (diff_frame data)); [reflexivity|simpl in Hle; lia].
  - pose proof (level_frame_len data) as Hlen. rewrite Hnil in Hlen.
    unfold len in Hlen. now apply length_zero_iff_nil.
Qed.

Lemma finish_forecast_calls data steps last_level t_last fc :
  calls_of (finish_forecast data steps last_level t_last fc) = [].
Proof.
  unfold finish_forecast, frame_of_array, add_array.
  destruct last_level as [s|]; repeat (case_if; rewrite ?bind_ret_l); reflexivity.
Qed.

(** Lines 84-96, for a snapshot that is a row of the table: the window
    handed to the forecasting routine is the last differenced rows, the
    last one having gained the difference between the adjusted snapshot and
    the last row of the table, cell by cell. *)
Lemma differenced_branch_call data results adjustments steps snapshot :
  snapshot_of data snapshot ->
  df_rows (diff_frame data) <> [] ->
  exists before l_last r_last init l r,
    df_rows (level_frame data) = before ++ [(l_last, r_last)] /\
    iloc_tail (k_ar results) (df_rows (diff_frame data)) = init ++ [(l, r)] /\
    let window :=
      map snd init ++
      [zip_with vadd r
         (zip_with vsub (s_values (apply_adjustments_snapshot adjustments snapshot))
            r_last)] in
    List.length (last window []) = List.length (df_columns (level_frame data)) /\
    simulate_scenario data results adjustments steps (Some snapshot)
    = (forecast_diff <- lib_call (CallForecast window steps)
                          (forecast results window steps) ;;
       forecast_diff_df <-
         frame_of_array forecast_diff (range_index (List.length forecast_diff))
           (df_columns (level_frame data)) ;;
       forecast_level <- add_array (cumsum forecast_diff_df) (s_values snapshot) ;;
       t_last <- last_datetime data ;;
       ret (frame_of_frame forecast_level (forecast_index t_last steps))).
Proof.
  intros (Hrect & Hidx & Hvals) Havail.
  fold (level_frame data) in Hrect.
  assert (Hlevel : df_rows (level_frame data) <> []).
  { intros Hnil. apply Havail. pose proof (diff_frame_len_le data) as Hle.
    unfold len in Hle. rewrite Hnil in Hle.
    destruct (df_rows (diff_frame data)); [reflexivity|simpl in Hle; lia]. }
  destruct (exists_last Hlevel) as (before & [l_last r_last] & Hrows).
  pose proof (iloc_tail_nonempty (k_ar results) Havail) as Hne.
  assert (Htail_in : forall lr, In lr (iloc_tail (k_ar results) (df_rows (diff_frame data))) ->
                     List.length (snd lr) = List.length (df_columns (level_frame data))).
  { intros lr Hin. apply iloc_tail_incl in Hin.
    pose proof (diff_frame_rectangular Hrect) as Hd. unfold rectangular in Hd.
    rewrite Forall_forall in Hd. rewrite <- (diff_frame_columns data). now apply Hd. }
  unfold simulate_scenario. cbv zeta. fold (level_frame data). fold (diff_frame data).
  remember (iloc_tail (k_ar results) (df_rows (diff_frame data))) as tail_rows eqn:Htail.
  destruct (exists_last Hne) as (init & [l r] & ->).
  exists before, l_last, r_last, init, l, r.
  split; [exact Hrows|]. split; [reflexivity|]. cbv zeta.
  assert (Hr : List.length r = List.length (df_columns (level_frame data))).
  { apply (Htail_in (l, r)). apply in_or_app. right. now left. }
  assert (Hlast_len : List.length r_last = List.length (df_columns (level_frame data))).
  { unfold rectangular in Hrect. rewrite Forall_forall in Hrect.
    apply (Hrect (l_last, r_last)). rewrite Hrows. apply in_or_app. right. now left. }
  assert (Hsum : List.length
                   (zip_with vadd r
                      (zip_with vsub
                         (s_values (apply_adjustments_snapshot adjustments snapshot)) r_last))
                 = List.length (df_columns (level_frame data))).
  { rewrite !zip_with_length, apply_adjustments_snapshot_length, Hr, Hlast_len.
    unfold level_frame, set_index. cbn [df_columns]. rewrite Hvals. lia. }
  split.
  { rewrite last_last. exact Hsum. }
  assert (Horig : iloc_last (level_frame data)
                  = ret (mkSeries (df_columns (level_frame data)) r_last)).
  { unfold iloc_last. rewrite Hrows, rev_app_distr. reflexivity. }
  rewrite Horig, bind_ret_l.
  rewrite iloc_last_snoc, bind_ret_l. unfold series_sub, series_add.
  rewrite (series_op_same_index vsub
             (apply_adjustments_snapshot adjustments snapshot)
             (mkSeries (df_columns (level_frame data)) r_last))
    by (now rewrite apply_adjustments_snapshot_index).
  cbn [s_values s_index]. rewrite apply_adjustments_snapshot_index.
  rewrite series_op_same_index
    by (cbn [s_index]; rewrite Hidx; apply diff_frame_columns).
  cbn [s_values s_index].
  rewrite iloc_last_assign_snoc
    by (cbn [s_values]; rewrite (diff_frame_columns data); exact Hsum).
  rewrite bind_ret_l. cbn [s_values]. rewrite map_app. reflexivity.
Qed.

(** With rows available, and a snapshot that is a row of the table when
    there is one, the simulator consults the forecasting routine exactly
    once, on a window cut from those rows; an exception of the routine
    goes to the caller, an array goes to [finish_forecast]. *)
Lemma simulate_scenario_forecast_call data results adjustments steps last_level :
  available_rows data last_level <> [] ->
  (forall snapshot, last_level = Some snapshot -> snapshot_of data snapshot) ->
  exists window t_last,
    last_datetime data = ret t_last /\
    List.length window
      = List.length (iloc_tail (k_ar results) (available_rows data last_level)) /\
    calls_of (simulate_scenario data results adjustments steps last_level)
      = [CallForecast window steps] /\
    outcome_of (simulate_scenario data results adjustments steps last_level)
      = match forecast results window steps with
        | Returned fc => outcome_of (finish_forecast data steps last_level t_last fc)
        | Raised e => Raise (of_lib e)
        end.
Proof.
  intros Havail Hfits.
  pose proof (available_rows_table _ _ Havail) as Hrows.
  destruct (last_datetime_return _ Hrows) as (t & Ht).
  destruct last_level as [s|]; unfold available_rows in *.
  - destruct (differenced_branch_call results adjustments steps (Hfits s eq_refl) Havail)
      as (before & l_last & r_last & init & l & r & _ & Htail & H).
    cbv zeta in H. destruct H as [_ ->].
    match goal with
    | |- context [CallForecast ?w steps] => exists w, t
    end.
    split; [assumption|]. split.
    { rewrite Htail, !length_app, length_map. reflexivity. }
    rewrite bind_lib_call.
    destruct (forecast results _ steps) as [fc|e]; [|split; reflexivity].
    match goal with
    | |- context [_ :: calls_of ?k] =>
        assert (Hk : k = finish_forecast data steps (Some s) t fc)
    end.
    { unfold finish_forecast. apply bind_ext. intros fdf. apply bind_ext. intros fl.
      now rewrite Ht, bind_ret_l. }
    rewrite Hk. unfold calls_of at 1, outcome_of at 1. cbn [fst snd].
    now rewrite finish_forecast_calls.
  - unfold simulate_scenario. cbv zeta. fold (level_frame data).
    destruct (apply_adjustments_level_return (df_columns (level_frame data)) adjustments
                (iloc_tail_nonempty (k_ar results) Havail)) as (obs & -> & Hlen & _).
    rewrite bind_ret_l. exists (map snd obs), t.
    split; [assumption|]. split; [now rewrite length_map|].
    rewrite bind_lib_call.
    destruct (forecast results (map snd obs) steps) as [fc|e]; [|split; reflexivity].
    rewrite Ht, bind_ret_l.
    change (frame_of_array fc (forecast_index t steps) (df_columns (level_frame data)))
      with (finish_forecast data steps None t fc).
    unfold calls_of at 1, outcome_of at 1. cbn [fst snd].
    now rewrite finish_forecast_calls.
Qed.

(** The call of the differenced branch, for a snapshot that is a row of
    the table. *)
Lemma differenced_branch_calls data results adjustments steps snapshot :
  snapshot_of data snapshot ->
  df_rows (diff_frame data) <> [] ->
  exists before l_last r_last init l r,
    df_rows (level_frame data) = before ++ [(l_last, r_last)] /\
    iloc_tail (k_ar results) (df_rows (diff_frame data)) = init ++ [(l, r)] /\
    calls_of (simulate_scenario data results adjustments steps (Some snapshot))
      = [CallForecast
           (map snd init ++
            [zip_with vadd r
               (zip_with vsub (s_values (apply_adjustments_snapshot adjustments snapshot))
                  r_last)])
           steps].
Proof.
  intros Hfits Havail.
  destruct (@simulate_scenario_forecast_call data results adjustments steps (Some snapshot))
    as (window & t & _ & _ & Hcalls & _).
  { exact Havail. }
  { intros s Hs. inversion Hs; subst. exact Hfits. }
  destruct (differenced_branch_call results adjustments steps Hfits Havail)
    as (before & l_last & r_last & init & l & r & Hrows & Htail & H).
  cbv zeta in H. destruct H as [_ Heq].
  exists before, l_last, r_last, init, l, r.
  split; [exact Hrows|]. split; [exact Htail|].
  rewrite Hcalls. rewrite Heq, bind_lib_call in Hcalls.
  destruct (forecast results _ steps); unfold calls_of in Hcalls; cbn [snd] in Hcalls;
    inversion Hcalls; reflexivity.
Qed.

(** Lines 93-95 on a snapshot that bears a label no column has: the
    difference and the sum are aligned on the labels of both operands, so
    the row to be assigned is wider than the frame, the assignment raises
    ValueError, and the forecasting routine is never reached. *)
Lemma simulate_scenario_foreign_label data results adjustments steps snapshot x :
  In x (s_index snapshot) ->
  ~ In x (df_columns (level_frame data)) ->
  NoDup (df_columns (level_frame data)) ->
  df_rows (diff_frame data) <> [] ->
  exists msg,
    simulate_scenario data results adjustments steps (Some snapshot)
    = (Raise (ValueError msg), []).
Proof.
  intros Hx Hforeign Hnodup Havail.
  assert (Hlevel : df_rows (level_frame data) <> []).
  { intros Hnil. apply Havail. pose proof (diff_frame_len_le data) as Hle.
    unfold len in Hle. rewrite Hnil in Hle.
    destruct (df_rows (diff_frame data)); [reflexivity|simpl in Hle; lia]. }
  destruct (exists_last Hlevel) as (before & [l_last r_last] & Hrows).
  pose proof (iloc_tail_nonempty (k_ar results) Havail) as Hne.
  unfold simulate_scenario. cbv zeta. fold (level_frame data). fold (diff_frame data).
  destruct (exists_last Hne) as (init & [l r] & ->).
  assert (Horig : iloc_last (level_frame data)
                  = ret (mkSeries (df_columns (level_frame data)) r_last)).
  { unfold iloc_last. rewrite Hrows, rev_app_distr. reflexivity. }
  rewrite Horig, bind_ret_l, iloc_last_snoc, bind_ret_l.
  rewrite (diff_frame_columns data).
  set (cols := df_columns (level_frame data)) in *.
  set (adjustment := series_sub (apply_adjustments_snapshot adjustments snapshot)
                       (mkSeries cols r_last)).
  assert (Hadj : In x (s_index adjustment)).
  { unfold adjustment, series_sub.
    destruct (series_op_joined vsub (apply_adjustments_snapshot adjustments snapshot)
                (mkSeries cols r_last)) as [-> _].
    - rewrite apply_adjustments_snapshot_index. cbn [s_index]. intros Heq.
      apply Hforeign. now rewrite <- Heq.
    - rewrite join_index_in, apply_adjustments_snapshot_index. now left. }
  destruct (@iloc_last_assign_mismatch cols
              (series_add (mkSeries cols r) adjustment) (init ++ [(l, r)]))
    as (msg & ->).
  - unfold series_add.
    destruct (series_op_joined vadd (mkSeries cols r) adjustment) as [_ ->].
    + cbn [s_index]. intros Heq. apply Hforeign. now rewrite Heq.
    + cbn [s_index].
      assert (Hle : List.length (x :: cols)
                    <= List.length (join_index cols (s_index adjustment))).
      { apply NoDup_incl_length.
        - now constructor.
        - intros y [<-|Hy]; rewrite join_index_in; [now right|now left]. }
      simpl in Hle. lia.
  - exists msg. reflexivity.
Qed.

End SimulatorFacts.




(** ** The simulator: the shape of the forecast table *)

Lemma map_fst_combine (A B : Type) (a : list A) (b : list B) :
  List.length a = List.length b -> map fst (combine a b) = a.
Proof.
  revert b. induction a as [|x a IH]; intros [|y b] H; simpl in *; try discriminate.
  - reflexivity.
  - f_equal. apply IH. lia.
Qed.

Lemma map_snd_combine (A B : Type) (a : list A) (b : list B) :
  List.length a = List.length b -> map snd (combine a b) = b.
Proof.
  revert b. induction a as [|x a IH]; intros [|y b] H; simpl in *; try discriminate.
  - reflexivity.
  - f_equal. apply IH. lia.
Qed.

Lemma forecast_index_length (t : Z) (steps : nat) :
  List.length (forecast_index t steps) = steps.
Proof.
  unfold forecast_index. now rewrite length_map, length_seq.
Qed.

Lemma range_index_length (n : nat) : List.length (range_index n) = n.
Proof.
  unfold range_index. now rewrite length_map, length_seq.
Qed.

Lemma frame_of_array_fits (array : list row) (index : list label) (cols : list string) :
  List.length array = List.length index ->
  Forall (fun r => List.length r = List.length cols) array ->
  frame_of_array array index cols = ret (mkFrame cols (combine index array)).
Proof.
  intros Hlen Hwidth. unfold frame_of_array.
  apply Nat.eqb_eq in Hlen. rewrite Hlen. simpl.
  replace (forallb (fun r => List.length r =? List.length cols) array) with true;
    [reflexivity|].
  symmetry. apply forallb_forall. rewrite Forall_forall in Hwidth.
  intros r Hr. apply Nat.eqb_eq. now apply Hwidth.
Qed.

Lemma frame_of_frame_index (frame : DataFrame) (index : list label) :
  df_index (frame_of_frame frame index) = index /\
  df_columns (frame_of_frame frame index) = df_columns frame.
Proof.
  split; [|reflexivity]. unfold df_index, frame_of_frame. simpl.
  rewrite map_map. rewrite <- (map_id index) at 2. apply map_ext.
  intros l. now destruct (loc_row l (df_rows frame)).
Qed.

Lemma last_datetime_last (data : Table) before t_last r_last :
  rows data = before ++ [(t_last, r_last)] -> last_datetime data = ret t_last.
Proof.
  intros H. unfold last_datetime. rewrite H, rev_app_distr. reflexivity.
Qed.

Lemma ret_injective (A : Type) (a b : A) : ret a = ret b -> a = b.
Proof. intros H. now inversion H. Qed.

(** ** The simulator: the differenced branch *)

Lemma loc_row_time_positional (t : Z) (rs : list (label * row)) :
  positional rs -> loc_row (TimeLabel t) rs = None.
Proof.
  induction 1 as [|[l r] rs [i Hi] _ IH]; simpl in *; [reflexivity|].
  subst l. simpl. exact IH.
Qed.

Lemma combine_range_positional (n : nat) (array : list row) :
  positional (combine (range_index n) array).
Proof.
  unfold positional, range_index. generalize (seq 0 n) as ixs. intros ixs.
  revert array. induction ixs as [|i ixs IH]; intros [|r array]; simpl; constructor.
  - now exists i.
  - apply IH.
Qed.

Lemma cumsum_from_positional (acc : list Qc) (rs : list (label * row)) :
  positional rs -> positional (cumsum_from acc rs).
Proof.
  intros H. revert acc. induction H as [|[l r] rs Hl _ IH]; intros acc; simpl.
  - constructor.
  - constructor; [exact Hl|apply IH].
Qed.

Lemma map_cells_positional (f : row -> row) (rs : list (label * row)) :
  positional rs -> positional (map (fun lr => (fst lr, f (snd lr))) rs).
Proof.
  induction 1 as [|[l r] rs Hl _ IH]; simpl; constructor; assumption.
Qed.

(** Line 101 on a frame indexed by positions: every row asked for is
    missing, and comes out as a row of NaN, one per column. *)
Lemma frame_of_frame_positional_rows (frame : DataFrame) (t : Z) (steps : nat) :
  positional (df_rows frame) ->
  df_rows (frame_of_frame frame (forecast_index t steps))
  = map (fun l => (l, map (fun _ => NaN) (df_columns frame))) (forecast_index t steps).
Proof.
  intros Hpos. unfold frame_of_frame, forecast_index. cbn [df_rows].
  rewrite !map_map. apply map_ext. intros i.
  now rewrite (loc_row_time_positional _ Hpos).
Qed.

Lemma frame_of_frame_positional (frame : DataFrame) (t : Z) (steps : nat) :
  positional (df_rows frame) ->
  all_nan (frame_of_frame frame (forecast_index t steps)) /\
  rectangular (frame_of_frame frame (forecast_index t steps)).
Proof.
  intros Hpos. unfold all_nan, rectangular.
  rewrite (@frame_of_frame_positional_rows frame t steps Hpos). split.
  - apply Forall_forall. intros lr Hin. apply in_map_iff in Hin.
    destruct Hin as (l & <- & _). cbn [snd]. apply Forall_forall.
    intros v Hv. apply in_map_iff in Hv. now destruct Hv as (_ & <- & _).
  - apply Forall_forall. intros lr Hin. apply in_map_iff in Hin.
    destruct Hin as (l & <- & _). cbn [snd]. now rewrite length_map.
Qed.

(** Lines 97-101: whatever they return holds NaN in every cell, one per
    column: the frame of reconstructed levels is indexed 0, 1, ... and
    line 101 asks pandas for its rows at the forecast time stamps. *)
Lemma finish_forecast_differenced_all_nan {L : VarLib} (data : Table) (steps : nat)
    (snapshot : Series) (t_last : Z) (fc : list row) (frame : DataFrame) :
  outcome_of (finish_forecast data steps (Some snapshot) t_last fc) = Return frame ->
  all_nan frame /\ rectangular frame.
Proof.
  unfold finish_forecast, frame_of_array, add_array.
  case_if; [|discriminate]. rewrite bind_ret_l.
  case_if; [|discriminate]. rewrite bind_ret_l.
  intros H. inversion H; subst. apply frame_of_frame_positional. cbn [df_rows cumsum].
  apply (map_cells_positional (fun r => zip_with vadd r (s_values snapshot))).
  apply cumsum_from_positional. apply combine_range_positional.
Qed.

Lemma lib_call_return_inv (A : Type) (c : call) (r : lib_result A) (a : A) :
  outcome_of (lib_call c r) = Return a -> r = Returned a.
Proof.
  destruct r as [a'|e]; simpl; intros H; inversion H; reflexivity.
Qed.

Lemma simulate_scenario_differenced_all_nan {L : VarLib} (data : Table)
    (results : var_results) (adjustments : adjustments_t) (steps : nat)
    (snapshot : Series) (frame : DataFrame) :
  df_rows (diff_frame data) <> [] ->
  outcome_of (simulate_scenario data results adjustments steps (Some snapshot))
    = Return frame ->
  all_nan frame.
Proof.
  intros _ Hout. unfold simulate_scenario in Hout. cbv zeta in Hout.
  apply bind_return_inv in Hout. destruct Hout as (orig & _ & Hout).
  apply bind_return_inv in Hout. destruct Hout as (last_diff & _ & Hout).
  apply bind_return_inv in Hout. destruct Hout as (obs & _ & Hout).
  apply bind_return_inv in Hout. destruct Hout as (fc & _ & Hout).
  apply bind_return_inv in Hout. destruct Hout as (fdf & Hfdf & Hout).
  apply bind_return_inv in Hout. destruct Hout as (fl & Hfl & Hout).
  apply bind_return_inv in Hout. destruct Hout as (t & _ & Hout).
  inversion Hout; subst. apply frame_of_frame_positional.
  unfold frame_of_array in Hfdf. revert Hfdf. case_if; [|discriminate].
  intros Hfdf. inversion Hfdf; subst. clear Hfdf.
  unfold add_array in Hfl. revert Hfl. case_if; [|discriminate].
  intros Hfl. inversion Hfl; subst. cbn [df_rows cumsum].
  apply (map_cells_positional (fun r => zip_with vadd r (s_values snapshot))).
  apply cumsum_from_positional. apply combine_range_positional.
Qed.

(** C8: when the table has a last time stamp [t_last], the forecasting
    routine answers with [steps] rows over the variables of the model (the
    columns of the converted table) and, in the differenced branch, a
    differenced row exists and the snapshot is a row of the table, then
    simulate_scenario returns a frame whose columns are those variables,
    whose index is the [steps] stamps t_last + 1 h, ..., t_last + steps h,
    and whose rows have one cell per column; for steps = 0 the frame has
    those columns and no row.  In the level branch the cells are the values
    the routine gave; in the differenced branch every cell is NaN. *)
Theorem simulate_scenario_forecast_table {L : VarLib} (data : Table)
    (results : var_results) (adjustments : adjustments_t) (steps : nat)
    (last_level : option Series) (before : list (Z * row)) (t_last : Z) (r_last : row) :
  rows data = before ++ [(t_last, r_last)] ->
  (forall window,
     In (CallForecast window steps)
        (calls_of (simulate_scenario data results adjustments steps last_level)) ->
     exists fc,
       forecast results window steps = Returned fc /\
       List.length fc = steps /\
       Forall (fun r => List.length r
                        = List.length (columns (convert_temperature_to_fahrenheit data))) fc) ->
  (forall snapshot,
     last_level = Some snapshot ->
     df_rows (diff_frame data) <> [] /\ snapshot_of data snapshot) ->
  exists frame,
    outcome_of (simulate_scenario data results adjustments steps last_level) = Return frame /\
    df_columns frame = columns (convert_temperature_to_fahrenheit data) /\
    df_index frame = map (fun i => TimeLabel (t_last + 3600 * Z.of_nat i)) (seq 1 steps) /\
    len frame = steps /\
    rectangular frame /\
    (steps = 0 -> df_rows frame = []) /\
    (last_level = None ->
     exists window,
       calls_of (simulate_scenario data results adjustments steps last_level)
         = [CallForecast window steps] /\
       forecast results window steps = Returned (df_values frame)) /\
    (last_level <> None -> all_nan frame).
Proof.
  intros Hrows Hlib Hsnap.
  assert (Havail : available_rows data last_level <> []).
  { destruct last_level as [s|]; unfold available_rows.
    - now destruct (Hsnap s eq_refl).
    - unfold level_frame. rewrite set_index_rows_nil. intros Hnil.
      pose proof (convert_rows_length data) as Hlen. rewrite Hnil, Hrows in Hlen.
      rewrite length_app in Hlen. simpl in Hlen. lia. }
  assert (Hfits : forall snapshot, last_level = Some snapshot -> snapshot_of data snapshot).
  { intros snapshot Hs. now destruct (Hsnap snapshot Hs). }
  destruct (@simulate_scenario_forecast_call _ data results adjustments steps last_level
              Havail Hfits) as (window & t & Ht & _ & Hcalls & Hout).
  rewrite (@last_datetime_last data before t_last r_last Hrows) in Ht.
  apply ret_injective in Ht. subst t.
  destruct (Hlib window) as (fc & Hfc & Hlen & Hwidth).
  { rewrite Hcalls. now left. }
  rewrite Hfc in Hout. rewrite Hout.
  assert (Hshape : forall frame, df_index frame = forecast_index t_last steps ->
            df_index frame = map (fun i => TimeLabel (t_last + 3600 * Z.of_nat i)) (seq 1 steps) /\
            len frame = steps /\ (steps = 0 -> df_rows frame = [])).
  { intros frame Hidx. split; [exact Hidx|].
    assert (Hl : len frame = steps).
    { unfold len. rewrite <- (length_map fst). fold (df_index frame).
      now rewrite Hidx, forecast_index_length. }
    split; [exact Hl|]. intros H0. rewrite H0 in Hl. unfold len in Hl.
    now apply length_zero_iff_nil. }
  destruct last_level as [s|].
  - unfold finish_forecast.
    rewrite frame_of_array_fits; [|now rewrite range_index_length|exact Hwidth].
    rewrite bind_ret_l. unfold add_array. cbn [df_columns cumsum].
    destruct (Hfits s eq_refl) as (_ & _ & Hs).
    apply Nat.eqb_eq in Hs. unfold level_frame, set_index. cbn [df_columns].
    rewrite Hs, bind_ret_l.
    match goal with
    | |- context [frame_of_frame ?fl ?idx] =>
        destruct (@frame_of_frame_positional fl t_last steps) as [Hnan Hrect];
        [|destruct (Hshape (frame_of_frame fl idx) (proj1 (frame_of_frame_index fl idx)))
            as (Hi & Hl & H0)]
    end.
    { cbn [df_rows].
      apply (map_cells_positional (fun r => zip_with vadd r (s_values s))).
      apply cumsum_from_positional. apply combine_range_positional. }
    eexists. split; [reflexivity|]. split; [reflexivity|].
    split; [exact Hi|]. split; [exact Hl|]. split; [exact Hrect|].
    split; [exact H0|]. split; [discriminate|]. intros _. exact Hnan.
  - unfold finish_forecast.
    rewrite frame_of_array_fits;
      [|now rewrite forecast_index_length|exact Hwidth].
    eexists. split; [reflexivity|]. split; [reflexivity|].
    assert (Hidx : df_index (mkFrame (df_columns (level_frame data))
                               (combine (forecast_index t_last steps) fc))
                   = forecast_index t_last steps).
    { unfold df_index. cbn [df_rows]. apply map_fst_combine.
      now rewrite forecast_index_length. }
    destruct (Hshape _ Hidx) as (Hi & Hl & H0).
    split; [exact Hi|]. split; [exact Hl|]. split.
    { unfold rectangular. cbn [df_rows df_columns]. apply Forall_forall.
      intros [l r] Hin. apply in_combine_r in Hin. rewrite Forall_forall in Hwidth.
      now apply Hwidth. }
    split; [exact H0|]. split; [|intros H; now elim H].
    intros _. exists window. split; [exact Hcalls|].
    rewrite Hfc. f_equal. unfold df_values. cbn [df_rows]. symmetry.
    apply map_snd_combine. now rewrite forecast_index_length.
Qed.

Lemma simulate_scenario_forecast_table_witness :
  (exists frame,
     outcome_of (@simulate_scenario Toy.checked Toy.three_rows 1 [("Temp_degF", Q2Qc 2)] 2 None)
       = Return frame /\
     df_columns frame = ["Temp_degF"; "Wind"] /\
     df_index frame = [TimeLabel 10800; TimeLabel 14400] /\
     rectangular frame) /\
  (exists frame,
     outcome_of (@simulate_scenario Toy.checked Toy.three_rows 1 [("Temp_degF", Q2Qc 2)] 2
                   (Some (mkSeries ["Temp_degF"; "Wind"] [num (554 # 10); num 6])))
       = Return frame /\
     df_columns frame = ["Temp_degF"; "Wind"] /\
     df_index frame = [TimeLabel 10800; TimeLabel 14400] /\
     rectangular frame /\
     all_nan frame).
Proof.
  split.
  - destruct (@simulate_scenario_forecast_table Toy.checked Toy.three_rows 1
                [("Temp_degF", Q2Qc 2)] 2 None
                (Toy.hourly [[num 10; num 3]; [num 11; num 4]]) 7200%Z [num 13; num 6])
      as (frame & Hout & Hcols & Hidx & _ & Hrect & _).
    + reflexivity.
    + intros window Hin. vm_compute in Hin. destruct Hin as [Hin|[]].
      inversion Hin; subst. eexists. split; [reflexivity|].
      split; [reflexivity|]. repeat constructor.
    + discriminate.
    + exists frame. repeat split; assumption.
  - destruct (@simulate_scenario_forecast_table Toy.checked Toy.three_rows 1
                [("Temp_degF", Q2Qc 2)] 2
                (Some (mkSeries ["Temp_degF"; "Wind"] [num (554 # 10); num 6]))
                (Toy.hourly [[num 10; num 3]; [num 11; num 4]]) 7200%Z [num 13; num 6])
      as (frame & Hout & Hcols & Hidx & _ & Hrect & _ & _ & Hnan).
    + reflexivity.
    + intros window Hin. vm_compute in Hin. destruct Hin as [Hin|[]].
      inversion Hin; subst. eexists. split; [reflexivity|].
      split; [reflexivity|]. repeat constructor.
    + intros snapshot Hs. inversion Hs; subst. split; [vm_compute; discriminate|].
      split; [repeat constructor|split; reflexivity].
    + exists frame. repeat split; try assumption. apply Hnan. discriminate.
Defined.

(** C3, on three hourly rows with a model of lag order 2, the snapshot that
    train_var_model would return (55.4 degF, wind 6), the adjustment
    Wind + 2 and two steps.  The window handed to the forecasting routine is
    the two differenced rows with 2 added to the wind of the last one only,
    as the claim says.  The levels the claim describes (cumulative sums of
    the forecast differences plus the snapshot) are 59, 10 and 62.6, 14; the
    frame the code returns holds NaN in all four cells. *)
Theorem simulate_scenario_differenced_returns_nan :
  let snapshot := mkSeries ["Temp_degF"; "Wind"] [num (554 # 10); num 6] in
  let run := @simulate_scenario Toy.plain Toy.three_rows 2 [("Wind", Q2Qc 2)] 2
               (Some snapshot) in
  map raw (s_values snapshot)
    = map raw (snd (last (df_rows (level_frame Toy.three_rows)) (PosLabel 0, []))) /\
  map (map raw) (df_values (diff_frame Toy.three_rows))
    = [[Some (9 # 5)%Q; Some (1 # 1)%Q]; [Some (18 # 5)%Q; Some (2 # 1)%Q]] /\
  (exists window,
     calls_of run = [CallForecast window 2] /\
     map (map raw) window
       = [[Some (9 # 5)%Q; Some (1 # 1)%Q]; [Some (18 # 5)%Q; Some (4 # 1)%Q]] /\
     exists fc,
       @forecast Toy.plain 2 window 2 = Returned fc /\
       Toy.cells (fdf <- frame_of_array fc (range_index 2) ["Temp_degF"; "Wind"] ;;
                  add_array (cumsum fdf) (s_values snapshot))
         = Some [(PosLabel 0, [Some (59 # 1)%Q; Some (10 # 1)%Q]);
                 (PosLabel 1, [Some (313 # 5)%Q; Some (14 # 1)%Q])]) /\
  Toy.cells run
    = Some [(TimeLabel 10800, [None; None]); (TimeLabel 14400, [None; None])].
Proof.
  cbv zeta. split; [reflexivity|]. split; [reflexivity|]. split; [|reflexivity].
  eexists. split; [reflexivity|]. split; [reflexivity|].
  eexists. split; reflexivity.
Qed.

(** ** The simulator: adjustments *)

Lemma series_get_combine (names : list string) (vals : row) (l : string) (y : value) :
  NoDup names -> In (l, y) (combine names vals) -> series_get names vals l = y.
Proof.
  intros Hnd. revert vals. induction Hnd as [|n names Hn _ IH]; intros [|v vals] Hin;
    simpl in *; try contradiction.
  destruct Hin as [Hin|Hin].
  - inversion Hin; subst. now rewrite String.eqb_refl.
  - destruct (String.eqb l n) eqn:Heq.
    + apply String.eqb_eq in Heq. subst. apply in_combine_l in Hin. contradiction.
    + now apply IH.
Qed.

Lemma zip_sub_known (get : string -> value) (idx : list string) (vals : row) :
  (forall l y, In (l, y) (combine idx vals) -> get l = y) ->
  Forall (fun v => isna v = false) vals ->
  List.length idx = List.length vals ->
  zip_with (fun l y => vsub (get l) y) idx vals = map (fun _ => Some (Q2Qc 0)) vals.
Proof.
  revert vals. induction idx as [|l idx IH]; intros [|y vals] Hget Hna Hlen;
    simpl in *; try discriminate; [reflexivity|].
  inversion Hna as [|? ? Hy Hvals]; subst. f_equal.
  - rewrite (Hget l y) by now left.
    destruct y as [q|]; [|discriminate]. simpl. f_equal. ring.
  - apply IH; auto.
Qed.

Lemma zip_sub_pointwise (get : string -> value) (delta : string -> Qc)
    (idx : list string) (vals : row) :
  (forall c y, In (c, y) (combine idx vals) -> vsub (get c) y = Some (delta c)) ->
  List.length idx = List.length vals ->
  zip_with (fun l y => vsub (get l) y) idx vals = map (fun c => Some (delta c)) idx.
Proof.
  revert vals. induction idx as [|c idx IH]; intros [|y vals] Hall Hlen; simpl in *;
    try discriminate; [reflexivity|].
  f_equal; [apply Hall; now left|]. apply IH; [|lia].
  intros c' y' Hin. apply Hall. now right.
Qed.

Lemma zip_sub_self (vals : row) :
  Forall (fun v => isna v = false) vals ->
  zip_with vsub vals vals = map (fun _ => Some (Q2Qc 0)) vals.
Proof.
  induction 1 as [|v vals Hv _ IH]; simpl; [reflexivity|].
  rewrite IH. f_equal. destruct v as [q|]; [|discriminate]. simpl. f_equal. ring.
Qed.

Lemma zip_add_zero (r vals : row) :
  List.length r = List.length vals ->
  zip_with vadd r (map (fun _ => Some (Q2Qc 0)) vals) = r.
Proof.
  revert vals. induction r as [|x r IH]; intros [|y vals] H; simpl in *;
    try discriminate; [reflexivity|].
  f_equal.
  - destruct x as [q|]; [|reflexivity]. simpl. f_equal. ring.
  - apply IH. lia.
Qed.

Lemma map_last_unchanged (f : row -> row) (rs : list (label * row)) :
  rs <> [] ->
  (forall lr, In lr rs -> f (snd lr) = snd lr) ->
  map_last f rs = Some rs.
Proof.
  induction rs as [|[l r] rs IH]; [congruence|]. intros _ Hf.
  destruct rs as [|lr rs].
  - simpl. pose proof (Hf (l, r) (or_introl eq_refl)) as Hr. simpl in Hr.
    now rewrite Hr.
  - change (map_last f ((l, r) :: lr :: rs))
      with (option_map (cons (l, r)) (map_last f (lr :: rs))).
    rewrite IH; [reflexivity|discriminate|].
    intros lr' Hin. apply Hf. now right.
Qed.

Section AdjustmentFacts.

Context {L : VarLib}.

Lemma apply_adjustments_level_known cols adjustments obs :
  apply_adjustments_level cols adjustments obs
    = apply_adjustments_level cols (known cols adjustments) obs.
Proof.
  revert obs. induction adjustments as [|[var change] rest IH]; intros obs;
    [reflexivity|].
  unfold known. simpl. destruct (has_label var cols) eqn:Hvar; simpl.
  - rewrite Hvar. apply bind_ext. intros obs'. apply IH.
  - apply IH.
Qed.

Lemma apply_adjustments_snapshot_known adjustments s :
  apply_adjustments_snapshot adjustments s
    = apply_adjustments_snapshot (known (s_index s) adjustments) s.
Proof.
  revert s. induction adjustments as [|[var change] rest IH]; intros s;
    [reflexivity|].
  unfold known. simpl. destruct (has_label var (s_index s)) eqn:Hvar; simpl.
  - rewrite Hvar. apply (IH (series_add_at s var change)).
  - apply IH.
Qed.

(** With no adjustment, the level branch forecasts from the last rows of
    the table as they are. *)
Lemma simulate_scenario_level_unadjusted data results steps :
  let window := map snd (iloc_tail (k_ar results) (df_rows (level_frame data))) in
  calls_of (simulate_scenario data results [] steps None)
    = [CallForecast window steps] /\
  forall frame,
    outcome_of (simulate_scenario data results [] steps None) = Return frame ->
    forecast results window steps = Returned (df_values frame).
Proof.
  cbv zeta. unfold simulate_scenario. cbv zeta. fold (level_frame data).
  cbn [apply_adjustments_level]. rewrite bind_ret_l, bind_lib_call.
  destruct (forecast results _ steps) as [fc|e]; [|split; [reflexivity|discriminate]].
  unfold calls_of at 1, outcome_of at 1. cbn [fst snd].
  unfold last_datetime. destruct (rev (rows data)) as [|[t r] rest].
  - split; [reflexivity|discriminate].
  - rewrite bind_ret_l. unfold frame_of_array. case_if.
    + split; [reflexivity|]. intros frame H. inversion H; subst.
      unfold df_values. cbn [df_rows]. rewrite map_snd_combine; [reflexivity|].
      match goal with
      | H : (_ && _) = true |- _ => apply andb_prop in H; destruct H as [H _];
                                     apply Nat.eqb_eq in H; now rewrite H
      end.
    + split; [reflexivity|discriminate].
Qed.

(** With no adjustment and the snapshot that train_var_model takes, the
    differenced branch forecasts from the last differenced rows as they
    are: x - x is 0 and r + 0 is r, in binary floating point as in exact
    arithmetic, for cells that are no NaN. *)
Lemma simulate_scenario_differenced_unadjusted data results steps snapshot :
  outcome_of (iloc_last (level_frame data)) = Return snapshot ->
  NoDup (df_columns (level_frame data)) ->
  rectangular (level_frame data) ->
  Forall (fun v => isna v = false) (s_values snapshot) ->
  df_rows (diff_frame data) <> [] ->
  calls_of (simulate_scenario data results [] steps (Some snapshot))
    = [CallForecast (map snd (iloc_tail (k_ar results) (df_rows (diff_frame data))))
         steps].
Proof.
  intros Hsnap _ Hrect Hna Havail.
  apply iloc_last_return in Hsnap. destruct Hsnap as (before0 & l0 & Hrows0 & Hidx).
  assert (Hwidth : List.length (s_values snapshot)
                   = List.length (df_columns (level_frame data))).
  { unfold rectangular in Hrect. rewrite Hrows0 in Hrect.
    apply Forall_app in Hrect. destruct Hrect as [_ Hrect].
    now inversion Hrect. }
  assert (Hfits : snapshot_of data snapshot).
  { split; [exact Hrect|]. split; [exact Hidx|exact Hwidth]. }
  destruct (differenced_branch_calls results [] steps Hfits Havail)
    as (before & l_last & r_last & init & l & r & Hrows & Htail & Hcalls).
  rewrite Hcalls. cbn [apply_adjustments_snapshot].
  assert (Hlast : r_last = s_values snapshot).
  { rewrite Hrows0 in Hrows. apply app_inj_tail in Hrows.
    destruct Hrows as [_ Hpair]. now inversion Hpair. }
  subst r_last. rewrite (zip_sub_self Hna).
  assert (Hr : List.length r = List.length (s_values snapshot)).
  { rewrite Hwidth, <- (diff_frame_columns data).
    pose proof (diff_frame_rectangular Hrect) as Hd. unfold rectangular in Hd.
    rewrite Forall_forall in Hd. apply (Hd (l, r)).
    apply (@iloc_tail_incl _ (k_ar results)).
    refine (eq_ind_r (fun xs => In (l, r) xs) _ Htail).
    apply in_or_app. right. now left. }
  rewrite (zip_add_zero _ _ Hr).
  refine (eq_ind_r (fun xs => [CallForecast _ steps] = [CallForecast (map snd xs) steps])
            _ Htail).
  now rewrite map_app.
Qed.

End AdjustmentFacts.

(** *** The differenced window under an adjustment set *)

Lemma series_get_add_at (names : list string) (vals : row) (v : string) (change : Qc)
    (v' : string) :
  List.length names = List.length vals ->
  has_label v names = true ->
  series_get names (add_at (get_loc v names) change vals) v'
    = if String.eqb v' v then vadd (series_get names vals v') (Some change)
      else series_get names vals v'.
Proof.
  revert vals. induction names as [|n names IH]; intros [|x vals] Hlen Hlab;
    simpl in *; try discriminate.
  destruct (String.eqb v n) eqn:Hvn.
  - apply String.eqb_eq in Hvn. subst n. simpl.
    now destruct (String.eqb v' v).
  - simpl in Hlab. simpl. destruct (String.eqb v' n) eqn:Hv'n.
    + apply String.eqb_eq in Hv'n. subst n.
      rewrite String.eqb_sym in Hvn. now rewrite Hvn.
    + apply IH; [lia|assumption].
Qed.

Lemma vadd_zero (x : value) : vadd x (Some (Q2Qc 0)) = x.
Proof.
  destruct x as [q|]; [|reflexivity]. simpl. f_equal. ring.
Qed.

Lemma find_key_absent (adjustments : adjustments_t) (var : string) :
  ~ In var (map fst adjustments) ->
  find (fun a => String.eqb var (fst a)) adjustments = None.
Proof.
  induction adjustments as [|[v d] rest IH]; intros Hin; simpl in *; [reflexivity|].
  destruct (String.eqb var v) eqn:Heq.
  - apply String.eqb_eq in Heq. subst. exfalso. apply Hin. now left.
  - apply IH. intros H. apply Hin. now right.
Qed.

Section WindowFacts.

Context {L : VarLib}.

(** Lines 88-91: each label of the snapshot gains the delta the adjustment
    set holds for it. *)
Lemma apply_adjustments_snapshot_get adjustments s var :
  NoDup (map fst adjustments) ->
  List.length (s_index s) = List.length (s_values s) ->
  has_label var (s_index s) = true ->
  series_get (s_index s) (s_values (apply_adjustments_snapshot adjustments s)) var
    = vadd (series_get (s_index s) (s_values s) var) (Some (net_delta adjustments var)) /\
  s_index (apply_adjustments_snapshot adjustments s) = s_index s.
Proof.
  revert s. induction adjustments as [|[v d] rest IH]; intros s Hnd Hlen Hvar.
  - simpl. unfold net_delta. simpl. now rewrite vadd_zero.
  - inversion Hnd as [|? ? Hv Hrest]; subst. simpl.
    unfold net_delta. simpl. fold (net_delta rest var).
    destruct (has_label v (s_index s)) eqn:Hlab.
    + destruct (IH (series_add_at s v d) Hrest) as [Hget Hidx].
      * simpl. now rewrite add_at_length.
      * exact Hvar.
      * simpl in Hget, Hidx. rewrite Hget, Hidx. split; [|reflexivity].
        rewrite (@series_get_add_at (s_index s) (s_values s) v d var Hlen Hlab).
        destruct (String.eqb var v) eqn:Heq; [|reflexivity].
        apply String.eqb_eq in Heq. subst v.
        unfold net_delta. rewrite (@find_key_absent rest var Hv). now rewrite vadd_zero.
    + destruct (IH s Hrest Hlen Hvar) as [Hget Hidx]. rewrite Hget, Hidx.
      split; [|reflexivity].
      destruct (String.eqb var v) eqn:Heq; [|reflexivity].
      apply String.eqb_eq in Heq. subst v. congruence.
Qed.

End WindowFacts.

(** With [cols] the variables of the model, i.e. the columns of the
    converted table (which label the snapshot, when there is one),
    simulate_scenario gives the same outcome, and makes the same call, for an
    adjustment set as for its restriction to the keys in [cols].  With the
    empty set the level branch forecasts from the last rows of the table as
    they are and returns the values the forecasting routine gave for them;
    the differenced branch, handed the snapshot train_var_model takes from
    a table without gaps in its last row, forecasts from the last
    differenced rows as they are, and what it returns is all NaN. *)
Lemma simulate_scenario_ignores_unknown_keys {L : VarLib} (data : Table)
    (results : var_results) (adjustments : adjustments_t) (steps : nat)
    (last_level : option Series) :
  let cols := columns (convert_temperature_to_fahrenheit data) in
  (forall snapshot, last_level = Some snapshot -> s_index snapshot = cols) ->
  simulate_scenario data results adjustments steps last_level
    = simulate_scenario data results (known cols adjustments) steps last_level /\
  (calls_of (simulate_scenario data results [] steps None)
     = [CallForecast (map snd (iloc_tail (k_ar results) (df_rows (level_frame data))))
          steps] /\
   forall frame,
     outcome_of (simulate_scenario data results [] steps None) = Return frame ->
     forecast results (map snd (iloc_tail (k_ar results) (df_rows (level_frame data))))
       steps = Returned (df_values frame)) /\
  (forall snapshot,
     outcome_of (iloc_last (level_frame data)) = Return snapshot ->
     NoDup cols ->
     rectangular (level_frame data) ->
     Forall (fun v => isna v = false) (s_values snapshot) ->
     df_rows (diff_frame data) <> [] ->
     calls_of (simulate_scenario data results [] steps (Some snapshot))
       = [CallForecast (map snd (iloc_tail (k_ar results) (df_rows (diff_frame data))))
            steps] /\
     forall frame,
       outcome_of (simulate_scenario data results [] steps (Some snapshot)) = Return frame ->
       all_nan frame).
Proof.
  intros cols Hlabels. split; [|split].
  - unfold simulate_scenario. cbv zeta. destruct last_level as [s|].
    + rewrite (apply_adjustments_snapshot_known adjustments s).
      now rewrite (Hlabels s eq_refl).
    + cbn [set_index df_columns].
      now rewrite (apply_adjustments_level_known
                     (columns (convert_temperature_to_fahrenheit data)) adjustments).
  - apply simulate_scenario_level_unadjusted.
  - intros snapshot Hsnap Hnd Hrect Hna Havail. split.
    + now apply simulate_scenario_differenced_unadjusted.
    + intros frame. now apply simulate_scenario_differenced_all_nan.
Qed.

(** C6, on three hourly rows with a model of lag order 2, the snapshot that
    train_var_model would return (55.4 degF, wind 6), no adjustment and two
    steps.  The window handed to the forecasting routine is the two
    differenced rows as they are, and the routine answers.  The
    unconditional forecast the claim describes (the cumulative sums of that
    answer plus the snapshot) is 59, 8 and 62.6, 10; the frame the code
    returns holds NaN in all four cells.  In the level branch the same
    call returns the values the routine gave. *)
Theorem simulate_scenario_empty_adjustments_returns_nan :
  let snapshot := mkSeries ["Temp_degF"; "Wind"] [num (554 # 10); num 6] in
  let run := @simulate_scenario Toy.checked Toy.three_rows 2 [] 2 (Some snapshot) in
  map raw (s_values snapshot)
    = map raw (snd (last (df_rows (level_frame Toy.three_rows)) (PosLabel 0, []))) /\
  (exists window,
     calls_of run = [CallForecast window 2] /\
     map (map raw) window = map (map raw) (df_values (diff_frame Toy.three_rows)) /\
     map (map raw) window
       = [[Some (9 # 5)%Q; Some (1 # 1)%Q]; [Some (18 # 5)%Q; Some (2 # 1)%Q]] /\
     exists fc,
       @forecast Toy.checked 2 window 2 = Returned fc /\
       Toy.cells (fdf <- frame_of_array fc (range_index 2) ["Temp_degF"; "Wind"] ;;
                  add_array (cumsum fdf) (s_values snapshot))
         = Some [(PosLabel 0, [Some (59 # 1)%Q; Some (8 # 1)%Q]);
                 (PosLabel 1, [Some (313 # 5)%Q; Some (10 # 1)%Q])]) /\
  Toy.cells run
    = Some [(TimeLabel 10800, [None; None]); (TimeLabel 14400, [None; None])] /\
  Toy.cells (@simulate_scenario Toy.checked Toy.three_rows 2 [] 2 None)
    = Some [(TimeLabel 10800, [Some (277 # 5)%Q; Some (6 # 1)%Q]);
            (TimeLabel 14400, [Some (277 # 5)%Q; Some (6 # 1)%Q])].
Proof.
  cbv zeta. split; [reflexivity|]. split; [|split; reflexivity].
  eexists. split; [reflexivity|]. split; [reflexivity|]. split; [reflexivity|].
  eexists. split; reflexivity.
Qed.

(** The frames train_var_model hands to VAR bear the columns of the
    converted table: these are the variables of the fitted model. *)
Lemma train_var_model_endog_columns {L : VarLib} (data : Table) (maxlags : nat)
    (endog : DataFrame) :
  In (CallVAR endog) (calls_of (train_var_model data maxlags)) ->
  df_columns endog = columns (convert_temperature_to_fahrenheit data).
Proof.
  intros Hin. apply train_calls_in in Hin. unfold level_fit, fallback_fit in Hin.
  assert (Hendog : endog = level_frame data \/ endog = diff_frame data).
  { destruct Hin as [Hin|[_ Hin]];
      [left|right];
      match type of Hin with
      | In _ (calls_of (select_and_fit ?e ?m)) =>
          destruct (select_and_fit_run e m); simpl in Hin;
          repeat (destruct Hin as [Hin|Hin]; try discriminate; try contradiction);
          now inversion Hin
      end. }
  destruct Hendog as [->| ->]; [reflexivity|apply diff_frame_columns].
Qed.

(* ================================================================== *)
(** * Further properties of simulation.py *)

(** ** The conversion in closed form *)

Lemma scale_row_rescale (col : string) (names : list string) (r : row) :
  scale_row col names r = rescale (fun n => String.eqb n col) names r.
Proof.
  revert r. induction names as [|n names IH]; intros [|v r]; simpl; try reflexivity.
  now rewrite IH.
Qed.

Lemma rescale_ext (p q : string -> bool) (names : list string) (r : row) :
  (forall n, In n names -> p n = q n) -> rescale p names r = rescale q names r.
Proof.
  revert r. induction names as [|n names IH]; intros [|v r] H; simpl; try reflexivity.
  rewrite (H n) by now left. f_equal. apply IH. intros n' Hn'. apply H. now right.
Qed.

Lemma rescale_none (names : list string) (r : row) :
  rescale (fun _ => false) names r = r.
Proof.
  revert r. induction names as [|n names IH]; intros [|v r]; simpl; try reflexivity.
  now rewrite IH.
Qed.

Lemma rescale_length (p : string -> bool) (names : list string) (r : row) :
  List.length (rescale p names r) = List.length r.
Proof.
  revert r. induction names as [|n names IH]; intros [|v r]; simpl; try reflexivity.
  now rewrite IH.
Qed.

(** One iteration for a marked label [c] whose new label is unmarked,
    followed by the conversion of the labels [q] picks out, none of them
    [c]: the conversion of [c] and of those. *)
Lemma rescale_after_step (c : string) (q : string -> bool) (names : list string) (r : row) :
  q (fahrenheit_name c) = false ->
  rescale q (rename_columns c (fahrenheit_name c) names)
    (rescale (fun n => String.eqb n c) names r)
  = rescale (fun n => String.eqb n c || q n) names r.
Proof.
  intros Hq. revert r. induction names as [|n names IH]; intros [|v r]; simpl;
    try reflexivity.
  rewrite IH. f_equal. destruct (String.eqb n c) eqn:Hn; simpl.
  - now rewrite Hq.
  - reflexivity.
Qed.

Lemma relabel_after_step (c : string) (q : string -> bool) (names : list string) :
  q (fahrenheit_name c) = false ->
  map (relabel q) (rename_columns c (fahrenheit_name c) names)
  = map (relabel (fun n => String.eqb n c || q n)) names.
Proof.
  intros Hq. unfold rename_columns. rewrite map_map. apply map_ext. intros n.
  unfold relabel. destruct (String.eqb n c) eqn:Hn; simpl.
  - rewrite Hq. apply String.eqb_eq in Hn. now subst.
  - reflexivity.
Qed.

Lemma fold_convert_closed_form (todo names : list string) (rws : list (Z * row)) :
  Forall (fun c => is_celsius_temperature c = true ->
                   is_celsius_temperature (fahrenheit_name c) = false) todo ->
  let pending := fun n => is_celsius_temperature n && has_label n todo in
  fold_left convert_column todo (mkTable names rws)
  = mkTable (map (relabel pending) names)
      (map (fun r => (fst r, rescale pending names (snd r))) rws).
Proof.
  revert names rws. induction todo as [|c todo IH]; intros names rws Hren; cbv zeta.
  - simpl. f_equal.
    + rewrite <- (map_id names) at 1. apply map_ext. intros n. unfold relabel.
      now rewrite andb_false_r.
    + rewrite <- (map_id rws) at 1. apply map_ext. intros [t r]. simpl. f_equal.
      rewrite (rescale_ext _ (fun _ => false)); [now rewrite rescale_none|].
      intros n _. apply andb_false_r.
  - inversion Hren as [|? ? Hc Hren']; subst. simpl fold_left.
    unfold convert_column at 2. cbn [columns rows].
    destruct (is_celsius_temperature c) eqn:Hmark.
    + rewrite (IH _ _ Hren'). cbv zeta.
      assert (Hq : (fun n => is_celsius_temperature n && has_label n todo)
                     (fahrenheit_name c) = false)
        by (cbv beta; now rewrite (Hc eq_refl)).
      f_equal.
      * rewrite (relabel_after_step c _ names Hq). apply map_ext_in. intros n _.
        unfold relabel. simpl. rewrite String.eqb_sym.
        destruct (String.eqb c n) eqn:Hn; simpl.
        -- apply String.eqb_eq in Hn. subst. now rewrite Hmark.
        -- reflexivity.
      * rewrite map_map. apply map_ext. intros [t r]. simpl. f_equal.
        rewrite scale_row_rescale, (rescale_after_step c _ names r Hq).
        apply rescale_ext. intros n _. simpl. rewrite (String.eqb_sym n c).
        destruct (String.eqb c n) eqn:Hn; simpl.
        -- apply String.eqb_eq in Hn. subst. now rewrite Hmark.
        -- reflexivity.
    + rewrite (IH _ _ Hren'). cbv zeta. f_equal.
      * apply map_ext. intros n. unfold relabel. simpl. rewrite String.eqb_sym.
        destruct (String.eqb c n) eqn:Hn; simpl; [|reflexivity].
        apply String.eqb_eq in Hn. subst. now rewrite Hmark.
      * apply map_ext. intros [t r]. simpl. f_equal. apply rescale_ext.
        intros n _. simpl. rewrite String.eqb_sym.
        destruct (String.eqb c n) eqn:Hn; simpl; [|reflexivity].
        apply String.eqb_eq in Hn. subst. now rewrite Hmark.
Qed.

Lemma has_label_in (n : string) (names : list string) :
  In n names -> has_label n names = true.
Proof.
  intros H. unfold has_label. apply existsb_exists. exists n.
  split; [assumption|apply String.eqb_refl].
Qed.

(** X1: when every label bearing the Celsius marker loses it in the
    renaming of line 16, the conversion is, column by column: a marked
    column is renamed and each of its cells [v] becomes [v * 1.8 + 32];
    every other column keeps its label and its cells; the DateTime stamps
    and the order of rows and columns stay as they were. *)
Theorem convert_temperature_closed_form (data : Table) :
  Forall (fun c => is_celsius_temperature c = true ->
                   is_celsius_temperature (fahrenheit_name c) = false) (columns data) ->
  convert_temperature_to_fahrenheit data
  = mkTable (map (relabel is_celsius_temperature) (columns data))
      (map (fun r => (fst r, rescale is_celsius_temperature (columns data) (snd r)))
         (rows data)).
Proof.
  intros Hren. unfold convert_temperature_to_fahrenheit.
  destruct data as [cols rws]. cbn [columns rows] in *.
  rewrite (fold_convert_closed_form cols rws Hren). cbv zeta. f_equal.
  - apply map_ext_in. intros n Hn. unfold relabel.
    now rewrite (has_label_in _ _ Hn), andb_true_r.
  - apply map_ext. intros [t r]. simpl. f_equal. apply rescale_ext.
    intros n Hn. now rewrite (has_label_in _ _ Hn), andb_true_r.
Qed.

Lemma convert_temperature_closed_form_witness :
  columns (convert_temperature_to_fahrenheit Toy.three_rows) = ["Temp_degF"; "Wind"] /\
  map (fun r => map raw (snd r)) (rows (convert_temperature_to_fahrenheit Toy.three_rows))
  = [[Some (50 # 1)%Q; Some (3 # 1)%Q]; [Some (259 # 5)%Q; Some (4 # 1)%Q];
     [Some (277 # 5)%Q; Some (6 # 1)%Q]].
Proof.
  rewrite (convert_temperature_closed_form Toy.three_rows).
  - split; reflexivity.
  - repeat constructor.
Defined.

Lemma convert_idempotent_when_renamed_witness :
  convert_temperature_to_fahrenheit (convert_temperature_to_fahrenheit Toy.ten_rows)
  = convert_temperature_to_fahrenheit Toy.ten_rows.
Proof.
  apply convert_idempotent_when_renamed. repeat constructor.
Defined.

(** ** What the conversion keeps *)

Lemma scale_row_length (col : string) (names : list string) (r : row) :
  List.length (scale_row col names r) = List.length r.
Proof.
  rewrite scale_row_rescale. apply rescale_length.
Qed.

Lemma convert_column_shape (data : Table) (col : string) :
  map fst (rows (convert_column data col)) = map fst (rows data) /\
  map (fun r => List.length (snd r)) (rows (convert_column data col))
    = map (fun r => List.length (snd r)) (rows data) /\
  List.length (columns (convert_column data col)) = List.length (columns data).
Proof.
  unfold convert_column. destruct (is_celsius_temperature col); [|auto].
  cbn [rows columns]. rewrite !map_map. cbn [fst snd].
  split; [reflexivity|]. split.
  - apply map_ext. intros r. apply scale_row_length.
  - unfold rename_columns. apply length_map.
Qed.

Lemma fold_convert_shape (todo : list string) (data : Table) :
  map fst (rows (fold_left convert_column todo data)) = map fst (rows data) /\
  map (fun r => List.length (snd r)) (rows (fold_left convert_column todo data))
    = map (fun r => List.length (snd r)) (rows data) /\
  List.length (columns (fold_left convert_column todo data))
    = List.length (columns data).
Proof.
  revert data. induction todo as [|c todo IH]; intros data; simpl.
  - auto.
  - destruct (IH (convert_column data c)) as (H1 & H2 & H3).
    destruct (convert_column_shape data c) as (G1 & G2 & G3).
    rewrite H1, H2, H3, G1, G2, G3. auto.
Qed.

(** X3: on every table the conversion keeps the DateTime stamps, in order,
    the width of each row, and the number of columns: it neither adds nor
    drops a row, a cell or a column. *)
Theorem convert_temperature_keeps_shape (data : Table) :
  map fst (rows (convert_temperature_to_fahrenheit data)) = map fst (rows data) /\
  map (fun r => List.length (snd r)) (rows (convert_temperature_to_fahrenheit data))
    = map (fun r => List.length (snd r)) (rows data) /\
  List.length (columns (convert_temperature_to_fahrenheit data))
    = List.length (columns data).
Proof.
  apply fold_convert_shape.
Qed.

(** ** The maximum lag asked for *)

Lemma reduce_maxlags_below (n_obs maxlags : nat) :
  2 <= n_obs -> reduce_maxlags n_obs maxlags < n_obs.
Proof.
  intros Hn. unfold reduce_maxlags. destruct (n_obs <=? maxlags) eqn:H.
  - lia.
  - apply Nat.leb_gt in H. lia.
Qed.

(** X4: whenever train_var_model asks for a lag selection, on the level
    frame or on the differenced one, and that frame has at least 2 rows, the
    maximum lag it asks for is smaller than the number of rows; and for a
    requested maximum of at least 1 it lies between 1 and that maximum. *)
Theorem train_var_model_maxlags_below_observations {L : VarLib}
    (data : Table) (maxlags : nat) (endog : DataFrame) (m : nat) :
  In (CallSelectOrder endog m) (calls_of (train_var_model data maxlags)) ->
  (2 <= len endog -> m < len endog) /\
  (1 <= maxlags -> 1 <= m <= maxlags).
Proof.
  intros Hin. apply train_calls_in in Hin. unfold level_fit, fallback_fit in Hin.
  destruct Hin as [Hin|[_ Hin]]; apply select_and_fit_select_call in Hin;
    destruct Hin as [-> ->].
  - split.
    + apply reduce_maxlags_below.
    + intros Hm. split; [now apply reduce_maxlags_pos|now apply reduce_maxlags_le].
  - split.
    + apply reduce_maxlags_below.
    + intros Hm.
      pose proof (reduce_maxlags_pos (len (level_frame data)) Hm) as H1.
      pose proof (reduce_maxlags_le (len (level_frame data)) Hm) as H2.
      fold (level_maxlags data maxlags) in H1, H2. unfold diff_maxlags.
      pose proof (reduce_maxlags_pos (len (diff_frame data)) H1).
      pose proof (reduce_maxlags_le (len (diff_frame data)) H1). lia.
Qed.

Lemma train_var_model_maxlags_below_observations_witness :
  In (CallSelectOrder (level_frame Toy.three_rows) 2)
     (calls_of (@train_var_model Toy.plain Toy.three_rows 7)) /\
  2 < len (level_frame Toy.three_rows) /\ 1 <= 2 <= 7.
Proof.
  assert (Hin : In (CallSelectOrder (level_frame Toy.three_rows) 2)
                   (calls_of (@train_var_model Toy.plain Toy.three_rows 7)))
    by (right; left; reflexivity).
  destruct (@train_var_model_maxlags_below_observations Toy.plain Toy.three_rows 7
              (level_frame Toy.three_rows) 2 Hin) as [Hlt Hbounds].
  split; [exact Hin|]. split.
  - apply Hlt. vm_compute. lia.
  - apply Hbounds. lia.
Defined.

(** ** Differencing *)

Lemma zip_sub_gap_free (a b : row) :
  Forall (fun v => isna v = false) a ->
  Forall (fun v => isna v = false) b ->
  Forall (fun v => isna v = false) (zip_with vsub a b).
Proof.
  intros Ha. revert b. induction Ha as [|x a Hx _ IH]; intros b Hb; simpl.
  - constructor.
  - destruct Hb as [|y b Hy Hb]; constructor.
    + destruct x, y; try discriminate; reflexivity.
    + now apply IH.
Qed.

Lemma diff_rows_pairs (prev : row) (rs : list (label * row)) :
  diff_rows prev rs
  = zip_with (fun before lr => (fst lr, zip_with vsub (snd lr) before))
      (prev :: map snd rs) rs.
Proof.
  revert prev. induction rs as [|[l r] rs IH]; intros prev; simpl; [reflexivity|].
  now rewrite IH.
Qed.

Lemma diff_rows_gap_free (prev : row) (rs : list (label * row)) :
  Forall (fun v => isna v = false) prev ->
  Forall (fun lr => Forall (fun v => isna v = false) (snd lr)) rs ->
  Forall (fun lr => Forall (fun v => isna v = false) (snd lr)) (diff_rows prev rs).
Proof.
  intros Hprev H. revert prev Hprev.
  induction H as [|[l r] rs Hr _ IH]; intros prev Hprev; simpl; constructor.
  - simpl. now apply zip_sub_gap_free.
  - now apply IH.
Qed.

Lemma filter_all (A : Type) (f : A -> bool) (xs : list A) :
  Forall (fun x => f x = true) xs -> filter f xs = xs.
Proof.
  induction 1 as [|x xs Hx _ IH]; simpl; [reflexivity|]. now rewrite Hx, IH.
Qed.

Lemma gap_free_row_kept (r : row) :
  Forall (fun v => isna v = false) r -> negb (existsb isna r) = true.
Proof.
  induction 1 as [|v r Hv _ IH]; simpl; [reflexivity|].
  rewrite Hv. exact IH.
Qed.

Lemma diff_frame_of_gap_free_rows (data : Table) (l0 : label) (r0 : row)
    (rest : list (label * row)) :
  df_rows (level_frame data) = (l0, r0) :: rest ->
  gap_free (level_frame data) ->
  r0 <> [] ->
  df_rows (diff_frame data) = diff_rows r0 rest /\
  gap_free (diff_frame data).
Proof.
  intros Hrows Hgap Hwide. unfold gap_free in Hgap. rewrite Hrows in Hgap.
  inversion Hgap as [|? ? Hr0 Hrest]; subst. simpl in Hr0.
  assert (Hd : df_rows (diff_frame data) = diff_rows r0 rest).
  { unfold diff_frame, dropna, diff. rewrite Hrows. cbn [df_rows snd].
    cbn [filter snd].
    replace (existsb isna (map (fun _ => NaN) r0)) with true
      by (destruct r0; [congruence|reflexivity]).
    cbn [negb]. apply filter_all.
    pose proof (diff_rows_gap_free Hr0 Hrest) as Hfree.
    rewrite Forall_forall in *. intros lr Hlr. apply gap_free_row_kept.
    now apply Hfree. }
  split; [exact Hd|]. unfold gap_free. rewrite Hd. now apply diff_rows_gap_free.
Qed.

(** X5: on a frame without gaps that has at least one column, differencing
    and dropping the incomplete rows (lines 47 and 84) removes the first row
    and nothing else: what is left is, for each later row, that row minus
    the row before it, under the later row's time stamp, and has no gap. *)
Theorem diff_frame_of_gap_free (data : Table) (l0 : label) (r0 : row)
    (rest : list (label * row)) :
  df_rows (level_frame data) = (l0, r0) :: rest ->
  gap_free (level_frame data) ->
  r0 <> [] ->
  df_rows (diff_frame data)
    = zip_with (fun before lr => (fst lr, zip_with vsub (snd lr) before))
        (r0 :: map snd rest) rest /\
  len (diff_frame data) = len (level_frame data) - 1 /\
  gap_free (diff_frame data).
Proof.
  intros Hrows Hgap Hwide.
  destruct (@diff_frame_of_gap_free_rows data l0 r0 rest Hrows Hgap Hwide) as [Hd Hfree].
  split; [rewrite Hd; apply diff_rows_pairs|]. split; [|exact Hfree].
  unfold len. rewrite Hd, Hrows, diff_rows_pairs, zip_with_length.
  cbn [List.length]. rewrite length_map.
  rewrite Nat.min_r by apply Nat.le_succ_diag_r. now rewrite Nat.sub_1_r.
Qed.

Lemma diff_frame_of_gap_free_witness :
  map (fun lr => map raw (snd lr)) (df_rows (diff_frame Toy.three_rows))
  = [[Some (9 # 5)%Q; Some (1 # 1)%Q]; [Some (18 # 5)%Q; Some (2 # 1)%Q]] /\
  len (diff_frame Toy.three_rows) = len (level_frame Toy.three_rows) - 1.
Proof.
  destruct (@diff_frame_of_gap_free Toy.three_rows
              (fst (hd (PosLabel 0, []) (df_rows (level_frame Toy.three_rows))))
              (snd (hd (PosLabel 0, []) (df_rows (level_frame Toy.three_rows))))
              (tl (df_rows (level_frame Toy.three_rows)))) as (Hrows & Hlen & _).
  - reflexivity.
  - repeat constructor.
  - discriminate.
  - split; [rewrite Hrows; reflexivity|exact Hlen].
Defined.

(** ** The window of the level branch *)

Lemma series_get_head_absent (n : string) (names : list string) (v : value) (vals : row)
    (c : string) :
  c <> n -> series_get (n :: names) (v :: vals) c = series_get names vals c.
Proof.
  intros H. simpl. destruct (String.eqb c n) eqn:Heq; [|reflexivity].
  apply String.eqb_eq in Heq. contradiction.
Qed.

Lemma series_values_ext (names : list string) (v1 v2 : row) :
  NoDup names ->
  List.length v1 = List.length names ->
  List.length v2 = List.length names ->
  (forall c, In c names -> series_get names v1 c = series_get names v2 c) ->
  v1 = v2.
Proof.
  intros Hnd. revert v1 v2. induction Hnd as [|n names Hn _ IH]; intros [|x v1] [|y v2] H1 H2 Hget;
    simpl in H1, H2; try discriminate; [reflexivity|].
  f_equal.
  - specialize (Hget n (or_introl eq_refl)). simpl in Hget.
    now rewrite String.eqb_refl in Hget.
  - apply IH; try lia. intros c Hc.
    assert (Hcn : c <> n) by (intros ->; contradiction).
    specialize (Hget c (or_intror Hc)).
    now rewrite !series_get_head_absent in Hget by assumption.
Qed.

Lemma series_get_zip_add (names : list string) (r : row) (f : string -> value) (c : string) :
  List.length r = List.length names ->
  In c names ->
  series_get names (zip_with vadd r (map f names)) c = vadd (series_get names r c) (f c).
Proof.
  revert r. induction names as [|n names IH]; intros [|x r] Hlen Hc; simpl in *;
    try discriminate; try contradiction.
  destruct (String.eqb c n) eqn:Heq.
  - apply String.eqb_eq in Heq. now subst.
  - destruct Hc as [Hc|Hc]; [subst; now rewrite String.eqb_refl in Heq|].
    apply IH; [lia|assumption].
Qed.

Section LevelWindowFacts.

Context {L : VarLib}.

(** Lines 88-91 in closed form. *)
Lemma apply_adjustments_snapshot_values adjustments s :
  NoDup (map fst adjustments) ->
  NoDup (s_index s) ->
  List.length (s_values s) = List.length (s_index s) ->
  s_values (apply_adjustments_snapshot adjustments s)
  = zip_with vadd (s_values s) (map (fun c => Some (net_delta adjustments c)) (s_index s)).
Proof.
  intros Hkeys Hnd Hlen. apply (@series_values_ext (s_index s)); try assumption.
  - now rewrite apply_adjustments_snapshot_length.
  - rewrite zip_with_length, length_map, Hlen. apply Nat.min_id.
  - intros c Hc.
    destruct (@apply_adjustments_snapshot_get adjustments s c Hkeys (eq_sym Hlen)
                (has_label_in _ _ Hc)) as [Hget _].
    rewrite Hget. symmetry. now apply series_get_zip_add.
Qed.

(** Lines 75-77 act on the last row of the window as lines 89-91 act on the
    snapshot. *)
Lemma apply_adjustments_level_snoc cols adjustments init l r :
  apply_adjustments_level cols adjustments (init ++ [(l, r)])
  = ret (init ++ [(l, s_values (apply_adjustments_snapshot adjustments (mkSeries cols r)))]).
Proof.
  revert r. induction adjustments as [|[v d] rest IH]; intros r; simpl; [reflexivity|].
  destruct (has_label v cols).
  - unfold iloc_last_add. rewrite map_last_snoc, bind_ret_l. apply IH.
  - apply IH.
Qed.

Lemma level_branch_after_adjustments data results adjustments steps obs :
  apply_adjustments_level (df_columns (level_frame data)) adjustments
    (iloc_tail (k_ar results) (df_rows (level_frame data))) = ret obs ->
  calls_of (simulate_scenario data results adjustments steps None)
    = [CallForecast (map snd obs) steps] /\
  forall frame,
    outcome_of (simulate_scenario data results adjustments steps None) = Return frame ->
    forecast results (map snd obs) steps = Returned (df_values frame).
Proof.
  intros Hobs. unfold simulate_scenario. cbv zeta. fold (level_frame data).
  rewrite Hobs, bind_ret_l, bind_lib_call.
  destruct (forecast results _ steps) as [fc|e]; [|split; [reflexivity|discriminate]].
  unfold calls_of at 1, outcome_of at 1. cbn [fst snd].
  unfold last_datetime. destruct (rev (rows data)) as [|[t r] rest].
  - split; [reflexivity|discriminate].
  - rewrite bind_ret_l. unfold frame_of_array. case_if.
    + split; [reflexivity|]. intros frame H. inversion H; subst.
      unfold df_values. cbn [df_rows]. rewrite map_snd_combine; [reflexivity|].
      match goal with
      | H : (_ && _) = true |- _ => apply andb_prop in H; destruct H as [H _];
                                     apply Nat.eqb_eq in H; now rewrite H
      end.
    + split; [reflexivity|discriminate].
Qed.

End LevelWindowFacts.

(** X7: in the level branch, on a table with at least one row, distinct
    column labels and one cell per column, and for adjustment keys that are
    distinct, the forecasting routine receives the last rows of the converted
    table, all as they are but the last one, in which each adjusted column
    has gained its delta; and the frame returned holds exactly the values the
    routine gave for that window. *)
Theorem simulate_scenario_level_window {L : VarLib} (data : Table)
    (results : var_results) (adjustments : adjustments_t) (steps : nat) :
  rows data <> [] ->
  NoDup (df_columns (level_frame data)) ->
  rectangular (level_frame data) ->
  NoDup (map fst adjustments) ->
  exists init l r,
    iloc_tail (k_ar results) (df_rows (level_frame data)) = init ++ [(l, r)] /\
    let window :=
      map snd init ++
      [zip_with vadd r
         (map (fun c => Some (net_delta adjustments c)) (df_columns (level_frame data)))] in
    calls_of (simulate_scenario data results adjustments steps None)
      = [CallForecast window steps] /\
    forall frame,
      outcome_of (simulate_scenario data results adjustments steps None) = Return frame ->
      forecast results window steps = Returned (df_values frame).
Proof.
  intros Hrows Hnd Hrect Hkeys.
  assert (Hne : iloc_tail (k_ar results) (df_rows (level_frame data)) <> []).
  { apply iloc_tail_nonempty. unfold level_frame. rewrite set_index_rows_nil.
    intros Hnil. pose proof (convert_rows_length data) as Hlen. rewrite Hnil in Hlen.
    destruct (rows data); [congruence|discriminate]. }
  destruct (exists_last Hne) as (init & [l r] & Htail).
  exists init, l, r. split; [exact Htail|]. cbv zeta.
  assert (Hr : List.length r = List.length (df_columns (level_frame data))).
  { unfold rectangular in Hrect. rewrite Forall_forall in Hrect.
    apply (Hrect (l, r)). apply (@iloc_tail_incl _ (k_ar results)).
    refine (eq_ind_r (fun xs => In (l, r) xs) _ Htail).
    apply in_or_app. right. now left. }
  pose proof (@apply_adjustments_level_snoc (df_columns (level_frame data))
                adjustments init l r) as Happly.
  assert (Happly' :
    apply_adjustments_level (df_columns (level_frame data)) adjustments
      (iloc_tail (k_ar results) (df_rows (level_frame data)))
    = ret (init ++
           [(l, s_values (apply_adjustments_snapshot adjustments
                            (mkSeries (df_columns (level_frame data)) r)))])).
  { refine (eq_ind_r (fun xs => apply_adjustments_level _ _ xs = _) Happly Htail). }
  clear Happly. rename Happly' into Happly.
  rewrite (@apply_adjustments_snapshot_values adjustments
             (mkSeries (df_columns (level_frame data)) r) Hkeys Hnd Hr) in Happly.
  cbn [s_values s_index] in Happly.
  destruct (@level_branch_after_adjustments _ data results adjustments steps _ Happly)
    as [Hcalls Hout].
  rewrite map_app in Hcalls, Hout. cbn [map snd] in Hcalls, Hout.
  split; assumption.
Qed.

Lemma simulate_scenario_level_window_witness :
  exists window,
    calls_of (@simulate_scenario Toy.plain Toy.three_rows 2 [("Wind", Q2Qc 2)] 2 None)
      = [CallForecast window 2] /\
    map (map raw) window
      = [[Some (259 # 5)%Q; Some (4 # 1)%Q]; [Some (277 # 5)%Q; Some (8 # 1)%Q]].
Proof.
  destruct (@simulate_scenario_level_window Toy.plain Toy.three_rows 2
              [("Wind", Q2Qc 2)] 2) as (init & l & r & Htail & Hcalls & _).
  - discriminate.
  - repeat constructor; simpl; intuition discriminate.
  - repeat constructor.
  - repeat constructor; simpl; intuition.
  - eexists. split; [exact Hcalls|].
    assert (Hrun : exists w,
              calls_of (@simulate_scenario Toy.plain Toy.three_rows 2 [("Wind", Q2Qc 2)] 2 None)
                = [CallForecast w 2] /\
              map (map raw) w
                = [[Some (259 # 5)%Q; Some (4 # 1)%Q]; [Some (277 # 5)%Q; Some (8 # 1)%Q]])
      by (eexists; split; reflexivity).
    destruct Hrun as (w & Hw & Hraw). rewrite Hcalls in Hw. congruence.
Defined.

(** X8: lines 84-96, with the snapshot that train_var_model takes from the
    table: the forecasting routine receives the last differenced rows, all
    as they are but the last one, to which line 95 adds, cell by cell, the
    adjusted snapshot minus the snapshot, (last_level + delta) - last_level
    as the code computes it. *)
Theorem simulate_scenario_differenced_window {L : VarLib} (data : Table)
    (results : var_results) (adjustments : adjustments_t) (steps : nat)
    (snapshot : Series) :
  outcome_of (iloc_last (level_frame data)) = Return snapshot ->
  NoDup (df_columns (level_frame data)) ->
  rectangular (level_frame data) ->
  df_rows (diff_frame data) <> [] ->
  NoDup (map fst adjustments) ->
  exists init l r,
    iloc_tail (k_ar results) (df_rows (diff_frame data)) = init ++ [(l, r)] /\
    let adjusted :=
      zip_with vadd (s_values snapshot)
        (map (fun c => Some (net_delta adjustments c)) (df_columns (level_frame data))) in
    calls_of (simulate_scenario data results adjustments steps (Some snapshot))
      = [CallForecast
           (map snd init ++
            [zip_with vadd r (zip_with vsub adjusted (s_values snapshot))])
           steps].
Proof.
  intros Hsnap Hnd Hrect Havail Hkeys.
  apply iloc_last_return in Hsnap. destruct Hsnap as (before0 & l0 & Hrows0 & Hidx).
  assert (Hwidth : List.length (s_values snapshot)
                   = List.length (df_columns (level_frame data))).
  { unfold rectangular in Hrect. rewrite Hrows0 in Hrect.
    apply Forall_app in Hrect. destruct Hrect as [_ Hrect].
    now inversion Hrect. }
  assert (Hfits : snapshot_of data snapshot).
  { split; [exact Hrect|]. split; [exact Hidx|exact Hwidth]. }
  destruct (@differenced_branch_calls _ data results adjustments steps snapshot Hfits Havail)
    as (before & l_last & r_last & init & l & r & Hrows & Htail & Hcalls).
  exists init, l, r. split; [exact Htail|]. cbv zeta.
  assert (Hlast : r_last = s_values snapshot).
  { rewrite Hrows0 in Hrows. apply app_inj_tail in Hrows.
    destruct Hrows as [_ Hpair]. now inversion Hpair. }
  subst r_last. rewrite Hcalls.
  rewrite (@apply_adjustments_snapshot_values adjustments snapshot Hkeys);
    [now rewrite Hidx|now rewrite Hidx|now rewrite Hidx].
Qed.

Lemma simulate_scenario_differenced_window_witness :
  exists window,
    calls_of (@simulate_scenario Toy.checked Toy.three_rows 2 [("Wind", Q2Qc 2)] 2
                (Some (mkSeries (df_columns (level_frame Toy.three_rows))
                         (snd (last (df_rows (level_frame Toy.three_rows)) (PosLabel 0, []))))))
      = [CallForecast window 2] /\
    map (map raw) window
      = [[Some (9 # 5)%Q; Some (1 # 1)%Q]; [Some (18 # 5)%Q; Some (4 # 1)%Q]].
Proof.
  destruct (@simulate_scenario_differenced_window Toy.checked Toy.three_rows 2
              [("Wind", Q2Qc 2)] 2
              (mkSeries (df_columns (level_frame Toy.three_rows))
                 (snd (last (df_rows (level_frame Toy.three_rows)) (PosLabel 0, [])))))
    as (init & l & r & _ & Hcalls).
  - reflexivity.
  - repeat constructor; simpl; intuition discriminate.
  - repeat constructor.
  - vm_compute. discriminate.
  - repeat constructor; simpl; intuition.
  - eexists. split; [exact Hcalls|].
    assert (Hrun : exists w,
              calls_of (@simulate_scenario Toy.checked Toy.three_rows 2 [("Wind", Q2Qc 2)] 2
                          (Some (mkSeries (df_columns (level_frame Toy.three_rows))
                                   (snd (last (df_rows (level_frame Toy.three_rows))
                                           (PosLabel 0, []))))))
                = [CallForecast w 2] /\
              map (map raw) w
                = [[Some (9 # 5)%Q; Some (1 # 1)%Q]; [Some (18 # 5)%Q; Some (4 # 1)%Q]])
      by (eexists; split; reflexivity).
    destruct Hrun as (w & Hw & Hraw). cbv zeta in Hcalls. rewrite Hcalls in Hw. congruence.
Defined.

(** ** No row to forecast from *)

(** X9: when no row is available, simulate_scenario returns no frame.  In
    the differenced branch (a table of fewer than 2 rows, or one whose
    differenced rows all hold a gap) it raises IndexError without
    consulting the forecasting routine; in the level branch (an empty table)
    every outcome is an exception. *)
Theorem simulate_scenario_without_rows {L : VarLib} (data : Table)
    (results : var_results) (adjustments : adjustments_t) (steps : nat)
    (last_level : option Series) :
  available_rows data last_level = [] ->
  (forall frame,
     outcome_of (simulate_scenario data results adjustments steps last_level)
       <> Return frame) /\
  (forall snapshot,
     last_level = Some snapshot ->
     simulate_scenario data results adjustments steps last_level
       = raise (IndexError "single positional indexer is out-of-bounds")).
Proof.
  intros Havail.
  assert (Hsnap : forall snapshot,
            last_level = Some snapshot ->
            simulate_scenario data results adjustments steps last_level
              = raise (IndexError "single positional indexer is out-of-bounds")).
  { intros snapshot ->. unfold available_rows in Havail.
    unfold simulate_scenario. cbv zeta. fold (level_frame data). fold (diff_frame data).
    rewrite Havail. unfold iloc_last.
    destruct (rev (df_rows (level_frame data))) as [|[l r] rest]; [reflexivity|].
    rewrite bind_ret_l. unfold iloc_tail.
    destruct (k_ar results =? 0); reflexivity. }
  split; [|exact Hsnap].
  intros frame. destruct last_level as [s|].
  - rewrite (Hsnap s eq_refl). discriminate.
  - unfold available_rows in Havail.
    assert (Hrows : rows data = []).
    { pose proof (level_frame_len data) as Hlen. unfold len in Hlen.
      rewrite Havail in Hlen. simpl in Hlen. symmetry in Hlen.
      now apply length_zero_iff_nil. }
    unfold simulate_scenario. cbv zeta. fold (level_frame data). rewrite Havail.
    assert (Htail : iloc_tail (k_ar results) (@nil (label * row)) = []).
    { unfold iloc_tail. destruct (k_ar results =? 0); reflexivity. }
    rewrite Htail. clear Htail.
    assert (Hadj : apply_adjustments_level (df_columns (level_frame data)) adjustments []
                   = ret [] \/
                   apply_adjustments_level (df_columns (level_frame data)) adjustments []
                   = raise (IndexError "index -1 is out of bounds for axis 0 with size 0")).
    { clear Hsnap. induction adjustments as [|[v d] rest IH]; [now left|].
      cbn [apply_adjustments_level]. case_if; [now right|exact IH]. }
    destruct Hadj as [-> | ->]; [|discriminate].
    rewrite bind_ret_l, bind_lib_call.
    destruct (forecast results _ steps) as [fc|e]; [|discriminate].
    unfold outcome_of. cbn [fst]. unfold last_datetime. rewrite Hrows. discriminate.
Qed.

Lemma simulate_scenario_without_rows_witness :
  @simulate_scenario Toy.plain Toy.one_row 1 [("Wind", Q2Qc 2)] 24
    (Some (mkSeries ["Temp_degF"; "Wind"] [num 50; num 3]))
  = raise (IndexError "single positional indexer is out-of-bounds").
Proof.
  apply (proj2 (@simulate_scenario_without_rows Toy.plain Toy.one_row 1
                  [("Wind", Q2Qc 2)] 24
                  (Some (mkSeries ["Temp_degF"; "Wind"] [num 50; num 3])) eq_refl)
           (mkSeries ["Temp_degF"; "Wind"] [num 50; num 3]) eq_refl).
Defined.

(* ================================================================== *)
(** * Further properties of alternative_models.py *)

Lemma firstn_skipn_tail (A : Type) (n : nat) (xs : list A) :
  1 <= n ->
  exists earlier, xs = earlier ++ tail n xs /\ List.length (tail n xs) = Nat.min n (List.length xs).
Proof.
  intros Hn. unfold tail. destruct (n =? 0) eqn:H0.
  - apply Nat.eqb_eq in H0. lia.
  - exists (firstn (List.length xs - n) xs). split.
    + symmetry. apply firstn_skipn.
    + rewrite length_skipn. lia.
Qed.

(** X10: on a table whose second sensor column [name] holds at least 2
    observations, when the estimator answers with [fc], forecast_arima
    returns, if [fc] has [steps] values, the one-column frame labelled [name]
    that holds them under the stamps t_last + 1 h, ..., t_last + steps h, and
    raises ValueError if [fc] has another length; the estimator has been
    called once, on that column. *)
Theorem forecast_arima_frame {U : UniLib} (data : Table) (order : nat * nat * nat)
    (steps : nat) (name : string) (ts : list (Z * value)) (fc : list value)
    (before : list (Z * row)) (t_last : Z) (r_last : row) :
  outcome_of (iloc_column data 1) = Return (name, ts) ->
  2 <= List.length ts ->
  rows data = before ++ [(t_last, r_last)] ->
  arima_forecast ts order steps = Returned fc ->
  calls_of (forecast_arima data order steps) = [CallARIMA ts] /\
  (List.length fc = steps ->
   exists frame,
     outcome_of (forecast_arima data order steps) = Return frame /\
     df_columns frame = [name] /\
     df_index frame = map (fun i => TimeLabel (t_last + 3600 * Z.of_nat i)) (seq 1 steps) /\
     df_values frame = map (fun v => [v]) fc) /\
  (List.length fc <> steps ->
   outcome_of (forecast_arima data order steps) = Raise (ValueError "Length mismatch")).
Proof.
  intros Hts Hlen Hrows Hfc. apply iloc_column_return in Hts.
  unfold forecast_arima. rewrite Hts, bind_ret_l. cbn [fst snd].
  apply Nat.ltb_ge in Hlen. rewrite Hlen.
  rewrite bind_lib_call, Hfc.
  rewrite (@last_datetime_last data before t_last r_last Hrows), bind_ret_l.
  cbv zeta. unfold calls_of at 1, outcome_of. cbn [fst snd].
  rewrite forecast_index_length.
  destruct (List.length fc =? steps) eqn:Hsteps.
  - apply Nat.eqb_eq in Hsteps. split; [reflexivity|]. split; [|congruence].
    intros _. eexists. split; [reflexivity|]. split; [reflexivity|]. split.
    + unfold df_index. cbn [df_rows].
      change (map (fun i => TimeLabel (t_last + 3600 * Z.of_nat i)) (seq 1 steps))
        with (forecast_index t_last steps).
      apply map_fst_combine. now rewrite forecast_index_length, length_map.
    + unfold df_values. cbn [df_rows]. apply map_snd_combine.
      now rewrite forecast_index_length, length_map.
  - apply Nat.eqb_neq in Hsteps. split; [reflexivity|]. split; [congruence|].
    reflexivity.
Qed.

Lemma forecast_arima_frame_witness :
  exists frame,
    outcome_of (@forecast_arima Toy.uni Toy.three_rows (1, 1, 1) 2) = Return frame /\
    df_columns frame = ["Wind"] /\
    df_index frame = [TimeLabel 10800; TimeLabel 14400] /\
    map (map raw) (df_values frame) = [[Some (6 # 1)%Q]; [Some (6 # 1)%Q]].
Proof.
  destruct (@forecast_arima_frame Toy.uni Toy.three_rows (1, 1, 1) 2 "Wind"
              (map (fun r => (fst r, nth 1 (snd r) NaN)) (rows Toy.three_rows))
              (repeat (num 6) 2)
              (Toy.hourly [[num 10; num 3]; [num 11; num 4]]) 7200%Z [num 13; num 6])
    as (_ & Hframe & _); try reflexivity.
  - vm_compute. lia.
  - destruct (Hframe eq_refl) as (frame & Hout & Hcols & Hidx & Hvals).
    exists frame. split; [exact Hout|]. split; [exact Hcols|]. split; [exact Hidx|].
    rewrite Hvals. reflexivity.
Defined.

(** X11: both single-series routines read the sensor column at position 1
    (line 11 and line 26): on a table with fewer than 2 sensor columns each
    raises IndexError, and the estimator is not called. *)
Theorem single_series_needs_two_columns {U : UniLib} (data : Table)
    (order : nat * nat * nat) (steps : nat) :
  List.length (columns data) < 2 ->
  forecast_arima data order steps
    = raise (IndexError "single positional indexer is out-of-bounds") /\
  forecast_prophet data steps
    = raise (IndexError "single positional indexer is out-of-bounds").
Proof.
  intros Hcols. unfold forecast_arima, forecast_prophet, iloc_column.
  replace (nth_error (columns data) 1) with (@None string).
  - split; reflexivity.
  - symmetry. apply nth_error_None. lia.
Qed.

Lemma single_series_needs_two_columns_witness :
  @forecast_arima Toy.uni Toy.lowercase_marker (1, 1, 1) 24
    = raise (IndexError "single positional indexer is out-of-bounds") /\
  @forecast_prophet Toy.uni Toy.lowercase_marker 24
    = raise (IndexError "single positional indexer is out-of-bounds").
Proof.
  apply (@single_series_needs_two_columns Toy.uni Toy.lowercase_marker (1, 1, 1) 24).
  vm_compute. lia.
Defined.

(** X12: on a table whose second sensor column holds at least 2 non-missing
    values, when the estimator answers with the prediction [fc],
    forecast_prophet returns a frame with the single column yhat that holds
    the last [steps] rows of [fc] (all of [fc] when it is shorter), each
    under its own stamp; for steps = 0 the frame has no row. *)
Theorem forecast_prophet_frame {U : UniLib} (data : Table) (steps : nat)
    (name : string) (ts : list (Z * value)) (fc : list (Z * value)) :
  outcome_of (iloc_column data 1) = Return (name, ts) ->
  2 <= count_non_missing ts ->
  prophet_predict ts steps = Returned fc ->
  exists frame,
    forecast_prophet data steps = (Return frame, [CallProphet ts]) /\
    df_columns frame = ["yhat"] /\
    len frame = Nat.min steps (List.length fc) /\
    exists earlier kept,
      fc = earlier ++ kept /\
      df_rows frame = map (fun p => (TimeLabel (fst p), [snd p])) kept.
Proof.
  intros Hts Hcount Hfc. apply iloc_column_return in Hts.
  unfold forecast_prophet. rewrite Hts, bind_ret_l. cbn [fst snd].
  apply Nat.ltb_ge in Hcount. rewrite Hcount.
  rewrite bind_lib_call, Hfc. cbv zeta. unfold ret, outcome_of, calls_of. cbn [fst snd].
  eexists. split; [reflexivity|]. split; [reflexivity|].
  unfold len. cbn [df_rows]. rewrite length_map.
  destruct steps as [|n].
  - split; [reflexivity|]. exists fc, []. split; [now rewrite app_nil_r|reflexivity].
  - destruct (@firstn_skipn_tail _ (S n) fc) as (earlier & Hsplit & Hlen); [lia|].
    split; [exact Hlen|]. exists earlier, (tail (S n) fc). split; [exact Hsplit|reflexivity].
Qed.

Lemma forecast_prophet_frame_witness :
  exists frame,
    @forecast_prophet Toy.uni Toy.three_rows 2
      = (Return frame,
         [CallProphet (map (fun r => (fst r, nth 1 (snd r) NaN)) (rows Toy.three_rows))]) /\
    df_columns frame = ["yhat"] /\ len frame = 2.
Proof.
  destruct (@forecast_prophet_frame Toy.uni Toy.three_rows 2 "Wind"
              (map (fun r => (fst r, nth 1 (snd r) NaN)) (rows Toy.three_rows))
              (map (fun r => (fst r, nth 1 (snd r) NaN)) (rows Toy.three_rows) ++
               [(10800%Z, num 6); (14400%Z, num 6)]))
    as (frame & Hrun & Hcols & Hlen & _).
  - reflexivity.
  - vm_compute. lia.
  - reflexivity.
  - exists frame. split; [exact Hrun|]. split; [exact Hcols|exact Hlen].
Defined.

(* ================================================================== *)
(** * Properties of data-processing.py *)

Section FileNameFacts.

Import FileName.

Lemma split_nonempty (sep : ascii) (s : string) : split sep s <> [].
Proof.
  destruct s as [|c s]; simpl; [discriminate|].
  destruct (Ascii.eqb c sep); [discriminate|].
  destruct (split sep s); discriminate.
Qed.

Lemma split_length (sep : ascii) (s : string) :
  List.length (split sep s) = S (count_char sep s).
Proof.
  induction s as [|c s IH]; simpl; [reflexivity|].
  destruct (Ascii.eqb c sep); simpl.
  - now rewrite IH.
  - destruct (split sep s) as [|h t] eqn:Hs; simpl in *; [discriminate|exact IH].
Qed.

Lemma split_parts_clean (sep : ascii) (s : string) :
  Forall (fun part => count_char sep part = 0) (split sep s).
Proof.
  induction s as [|c s IH]; simpl.
  - repeat constructor.
  - destruct (Ascii.eqb c sep) eqn:Hc.
    + constructor; [reflexivity|exact IH].
    + destruct (split sep s) as [|h t]; constructor; simpl; try rewrite Hc;
        try reflexivity; try constructor.
      * now inversion IH.
      * now inversion IH.
Qed.

Lemma join_split (sep : ascii) (s : string) :
  join (String sep EmptyString) (split sep s) = s.
Proof.
  induction s as [|c s IH]; simpl; [reflexivity|].
  destruct (Ascii.eqb c sep) eqn:Hc.
  - apply Ascii.eqb_eq in Hc. subst c.
    destruct (split sep s) as [|h t] eqn:Hs; [now apply split_nonempty in Hs|].
    simpl. f_equal. exact IH.
  - destruct (split sep s) as [|h t] eqn:Hs; [now apply split_nonempty in Hs|].
    destruct t as [|h' t]; simpl in *; now rewrite IH.
Qed.

Lemma split_app (sep : ascii) (a b : string) :
  split sep (String.append a (String sep b)) = split sep a ++ split sep b.
Proof.
  induction a as [|c a IH]; simpl.
  - now rewrite Ascii.eqb_refl.
  - destruct (Ascii.eqb c sep); [now rewrite IH|].
    rewrite IH. destruct (split sep a) as [|h t] eqn:Ha; [now apply split_nonempty in Ha|].
    reflexivity.
Qed.

Lemma split_clean (sep : ascii) (s : string) :
  count_char sep s = 0 -> split sep s = [s].
Proof.
  induction s as [|c s IH]; simpl; [reflexivity|].
  destruct (Ascii.eqb c sep); [discriminate|]. simpl. intros H. now rewrite (IH H).
Qed.

Lemma basename_of_path (dir base : string) :
  count_char "/" base = 0 ->
  basename (String.append dir (String "/" base)) = base.
Proof.
  intros H. unfold basename. rewrite split_app, (@split_clean "/"%char base H).
  apply last_last.
Qed.

Lemma append_assoc (a b c : string) :
  String.append (String.append a b) c = String.append a (String.append b c).
Proof.
  induction a as [|x a IH]; simpl; [reflexivity|]. now rewrite IH.
Qed.

Lemma join_snoc (sep : string) (mid : list string) (final : string) :
  mid <> [] ->
  join sep (mid ++ [final])
  = String.append (join sep mid) (String.append sep final).
Proof.
  induction mid as [|p mid IH]; [congruence|]. intros _.
  destruct mid as [|q mid].
  - reflexivity.
  - change (join sep ((p :: q :: mid) ++ [final]))
      with (String.append p (String.append sep (join sep ((q :: mid) ++ [final])))).
    rewrite IH by discriminate.
    change (join sep (p :: q :: mid))
      with (String.append p (String.append sep (join sep (q :: mid)))).
    now rewrite !append_assoc.
Qed.

Lemma count_char_append (c : ascii) (a b : string) :
  count_char c (String.append a b) = count_char c a + count_char c b.
Proof.
  induction a as [|x a IH]; simpl; [reflexivity|]. rewrite IH. lia.
Qed.

(** The text before the first separator. *)
Lemma hd_split (sep : ascii) (s : string) :
  exists rest,
    s = String.append (hd EmptyString (split sep s)) rest /\
    (rest = EmptyString \/ exists r, rest = String sep r) /\
    count_char sep (hd EmptyString (split sep s)) = 0.
Proof.
  pose proof (join_split sep s) as Hjoin.
  pose proof (split_parts_clean sep s) as Hclean.
  destruct (split sep s) as [|h t] eqn:Hs; [now apply split_nonempty in Hs|].
  apply Forall_inv in Hclean. cbn [hd].
  destruct t as [|h' t].
  - exists EmptyString. simpl in Hjoin. rewrite Hjoin in *. split; [|auto].
    clear. induction s as [|c s IH]; simpl; [reflexivity|]. now rewrite <- IH.
  - exists (String sep (join (String sep EmptyString) (h' :: t))).
    split; [|split; [right; eauto|assumption]].
    rewrite <- Hjoin at 1. reflexivity.
Qed.

Lemma upper_underscore_prefix (s : string) :
  prefix "RF" (upper (hd EmptyString (split "_" s))) = prefix "RF" (upper s).
Proof.
  destruct s as [|c1 s]; [reflexivity|]. cbn [split].
  destruct (Ascii.eqb c1 "_") eqn:H1.
  - apply Ascii.eqb_eq in H1. subst c1. reflexivity.
  - destruct s as [|c2 s]; [reflexivity|]. cbn [split].
    destruct (Ascii.eqb c2 "_") eqn:H2.
    + apply Ascii.eqb_eq in H2. subst c2. cbn [hd upper prefix].
      destruct (ascii_dec "R" (upper_ascii c1)); reflexivity.
    + destruct (split "_" s) as [|h t]; cbn [hd upper prefix];
        destruct (ascii_dec "R" (upper_ascii c1));
        destruct (ascii_dec "F" (upper_ascii c2)); try reflexivity;
        destruct s; try destruct h; reflexivity.
Qed.

End FileNameFacts.

(** X13: get_location_from_filename follows the rule of its docstring,
    read on the base name: it answers RainForest exactly when the base name
    starts with RF in any case (the code tests the text before the first
    underscore, which comes to the same), and otherwise the text before the
    first underscore, which is the whole base name when it has none. *)
Theorem get_location_rule (file_path : string) :
  let base := FileName.basename file_path in
  let location := FileName.get_location_from_filename file_path in
  (prefix "RF" (FileName.upper base) = true -> location = "RainForest") /\
  (prefix "RF" (FileName.upper base) = false ->
   FileName.count_char "_" location = 0 /\
   exists rest,
     base = String.append location rest /\
     (rest = EmptyString \/ exists r, rest = String "_" r)).
Proof.
  cbv zeta. unfold FileName.get_location_from_filename. cbv zeta.
  rewrite upper_underscore_prefix.
  destruct (prefix "RF" (FileName.upper (FileName.basename file_path))).
  - split; [reflexivity|discriminate].
  - split; [discriminate|]. intros _.
    destruct (hd_split "_" (FileName.basename file_path)) as (rest & Hbase & Hrest & Hclean).
    split; [exact Hclean|]. exists rest. split; assumption.
Qed.

Lemma get_location_rule_witness :
  FileName.get_location_from_filename "data/rf_MountainTower_rad_at10m_FEB-2025.csv"
    = "RainForest" /\
  FileName.get_location_from_filename "data/Desert_Plain_Temp_degC_FEB-2025.csv"
    = "Desert".
Proof.
  split.
  - apply (proj1 (get_location_rule "data/rf_MountainTower_rad_at10m_FEB-2025.csv")).
    reflexivity.
  - destruct (proj2 (get_location_rule "data/Desert_Plain_Temp_degC_FEB-2025.csv")
                eq_refl) as (_ & rest & _ & _).
    reflexivity.
Defined.

(** X14: get_variable_from_filename keeps the middle of the base name: when
    the base name has at least 2 underscores it is
    first_variable_last, with no underscore in [first] nor in [last] (the
    variable may hold some); with fewer than 2 underscores the answer is
    Measurement. *)
Theorem get_variable_rule (file_path : string) :
  let base := FileName.basename file_path in
  let variable := FileName.get_variable_from_filename file_path in
  (2 <= FileName.count_char "_" base ->
   exists first final,
     base = String.append first
              (String "_" (String.append variable (String "_" final))) /\
     FileName.count_char "_" first = 0 /\
     FileName.count_char "_" final = 0) /\
  (FileName.count_char "_" base < 2 -> variable = "Measurement").
Proof.
  cbv zeta. unfold FileName.get_variable_from_filename. cbv zeta.
  pose proof (split_length "_" (FileName.basename file_path)) as Hlen.
  pose proof (join_split "_" (FileName.basename file_path)) as Hjoin.
  pose proof (split_parts_clean "_" (FileName.basename file_path)) as Hclean.
  destruct (FileName.split "_" (FileName.basename file_path)) as [|first rest];
    [discriminate|].
  split.
  - intros Hcount. simpl in Hlen.
    replace (2 <? List.length (first :: rest)) with true
      by (symmetry; apply Nat.ltb_lt; simpl; lia).
    assert (Hrest : rest <> []) by (destruct rest; [simpl in Hlen; lia|discriminate]).
    destruct (exists_last Hrest) as (mid & final & ->).
    assert (Hmid : mid <> []).
    { destruct mid; [|discriminate]. simpl in Hlen. lia. }
    cbn [List.tl]. rewrite removelast_last.
    exists first, final. split; [|split].
    + rewrite <- Hjoin.
      destruct mid as [|m mid]; [congruence|].
      change (FileName.join "_" (first :: (m :: mid) ++ [final]))
        with (String.append first
                (String.append "_" (FileName.join "_" ((m :: mid) ++ [final])))).
      rewrite (@join_snoc "_" (m :: mid) final) by discriminate. reflexivity.
    + now apply Forall_inv in Hclean.
    + rewrite Forall_forall in Hclean. apply Hclean. right.
      apply in_or_app. right. now left.
  - intros Hcount. simpl in Hlen.
    replace (2 <? List.length (first :: rest)) with false; [reflexivity|].
    symmetry. apply Nat.ltb_ge. simpl. lia.
Qed.

Lemma get_variable_rule_witness :
  FileName.get_variable_from_filename "data/RF_MountainTower_rad_at10m_FEB-2025.csv"
    = "MountainTower_rad_at10m" /\
  FileName.get_variable_from_filename "data/Desert_FEB-2025.csv" = "Measurement".
Proof.
  split.
  - destruct (proj1 (get_variable_rule "data/RF_MountainTower_rad_at10m_FEB-2025.csv"))
      as (first & final & _ & _ & _); [vm_compute; lia|reflexivity].
  - apply (proj2 (get_variable_rule "data/Desert_FEB-2025.csv")). vm_compute. lia.
Defined.

Lemma basename_plain (base : string) :
  FileName.count_char "/" base = 0 -> FileName.basename base = base.
Proof.
  intros H. unfold FileName.basename. now rewrite (@split_clean "/"%char base H).
Qed.

(** X15: neither answer depends on the directory: for a base name without
    a slash, the location and the variable read off dir/base are those read
    off the base name alone. *)
Theorem file_name_ignores_directory (dir base : string) :
  FileName.count_char "/" base = 0 ->
  FileName.get_location_from_filename (String.append dir (String "/" base))
    = FileName.get_location_from_filename base /\
  FileName.get_variable_from_filename (String.append dir (String "/" base))
    = FileName.get_variable_from_filename base.
Proof.
  intros H. unfold FileName.get_location_from_filename, FileName.get_variable_from_filename.
  now rewrite (@basename_of_path dir base H), (@basename_plain base H).
Qed.

Lemma file_name_ignores_directory_witness :
  FileName.get_location_from_filename "data/feb/Desert_Plain_Temp_FEB-2025.csv"
    = FileName.get_location_from_filename "Desert_Plain_Temp_FEB-2025.csv" /\
  FileName.get_variable_from_filename "data/feb/Desert_Plain_Temp_FEB-2025.csv"
    = FileName.get_variable_from_filename "Desert_Plain_Temp_FEB-2025.csv".
Proof.
  apply (@file_name_ignores_directory "data/feb" "Desert_Plain_Temp_FEB-2025.csv").
  reflexivity.
Defined.

(** ** load_csv_with_location *)

Section LoaderFacts.

Import Loader.

Variable to_datetime : column -> list (option Z).

Lemma has_label_spec (name : string) (names : list string) :
  has_label name names = true <-> In name names.
Proof.
  unfold has_label. rewrite existsb_exists. split.
  - intros (n & Hin & Heq). apply String.eqb_eq in Heq. now subst.
  - intros Hin. exists name. split; [assumption|apply String.eqb_refl].
Qed.

Lemma unique_col_underscore (file_path : string) :
  FileName.count_char "_" (unique_col file_path) <> 0.
Proof.
  unfold unique_col. rewrite count_char_append. simpl. lia.
Qed.

Lemma unique_col_not_reserved (file_path : string) :
  unique_col file_path <> "DateTime" /\ unique_col file_path <> "Location".
Proof.
  pose proof (unique_col_underscore file_path) as H.
  split; intros Heq; rewrite Heq in H; now apply H.
Qed.

Lemma get_column_labelled (name : string) (P : column -> Prop) cols c :
  labelled name P cols -> get_column name cols = Some c -> P c.
Proof.
  induction 1 as [|[n c0] cols Hn _ IH]; simpl; [discriminate|].
  destruct (String.eqb name n) eqn:Heq.
  - apply String.eqb_eq in Heq. intros H. inversion H; subst. now apply Hn.
  - exact IH.
Qed.

Lemma get_column_some (name : string) cols :
  In name (labels cols) -> exists c, get_column name cols = Some c.
Proof.
  induction cols as [|[n c0] cols IH]; simpl; [contradiction|].
  intros [Hn|Hin].
  - subst. rewrite String.eqb_refl. eauto.
  - destruct (String.eqb name n); eauto.
Qed.

Lemma get_column_none (name : string) cols :
  ~ In name (labels cols) -> get_column name cols = None.
Proof.
  induction cols as [|[n c0] cols IH]; simpl; [reflexivity|].
  intros Hin. destruct (String.eqb name n) eqn:Heq.
  - apply String.eqb_eq in Heq. subst. exfalso. apply Hin. now left.
  - apply IH. intros H. apply Hin. now right.
Qed.

Lemma get_column_in (name : string) cols c :
  get_column name cols = Some c -> In (name, c) cols.
Proof.
  induction cols as [|[n c0] cols IH]; simpl; [discriminate|].
  destruct (String.eqb name n) eqn:Heq.
  - apply String.eqb_eq in Heq. intros H. inversion H; subst. now left.
  - intros H. right. now apply IH.
Qed.

Lemma set_column_labelled (name : string) (c : column) (P : column -> Prop) cols :
  P c -> labelled name P (set_column name c cols).
Proof.
  intros Hc. unfold set_column, labelled.
  destruct (has_label name (labels cols)) eqn:Hhas.
  - apply Forall_forall. intros nc Hin. apply in_map_iff in Hin.
    destruct Hin as ([n c0] & Heq & _). simpl in Heq.
    destruct (String.eqb n name) eqn:Hn.
    + subst nc. now intros _.
    + subst nc. simpl. intros ->. now rewrite String.eqb_refl in Hn.
  - apply Forall_app. split.
    + apply Forall_forall. intros [n c0] Hin. simpl. intros ->. exfalso.
      assert (Hl : has_label name (labels cols) = true)
        by (apply has_label_spec, in_map_iff; exists (name, c0); auto).
      congruence.
    + constructor; [now intros _|constructor].
Qed.

Lemma rename_label_labelled (old new name : string) (P : column -> Prop) cols :
  new <> name -> labelled name P cols -> labelled name P (rename_label old new cols).
Proof.
  intros Hnew H. unfold labelled, rename_label. apply Forall_forall.
  intros nc Hin. apply in_map_iff in Hin. destruct Hin as ([n c0] & <- & Hin).
  simpl. unfold labelled in H. rewrite Forall_forall in H. specialize (H _ Hin).
  simpl in H. destruct (String.eqb n old); [congruence|exact H].
Qed.

Lemma drop_labels_labelled (gone : list string) (name : string) (P : column -> Prop) cols :
  labelled name P cols -> labelled name P (drop_labels gone cols).
Proof.
  unfold labelled, drop_labels. rewrite !Forall_forall. intros H nc Hin.
  apply filter_In in Hin. now apply H.
Qed.

Lemma set_column_other_labelled (other name : string) (c : column) (P : column -> Prop) cols :
  other <> name -> labelled name P cols -> labelled name P (set_column other c cols).
Proof.
  intros Hne H. unfold set_column, labelled in *.
  destruct (has_label other (labels cols)).
  - rewrite Forall_forall in *. intros nc Hin. apply in_map_iff in Hin.
    destruct Hin as ([n c0] & Heq & Hin). simpl in Heq.
    destruct (String.eqb n other); subst nc; [simpl; congruence|now apply H].
  - apply Forall_app. split; [exact H|].
    constructor; [simpl; congruence|constructor].
Qed.

Lemma replace_sentinel_labelled (name : string) (P : column -> Prop) cols :
  (forall c, P c -> P (replace_sentinel c)) ->
  labelled name P cols ->
  labelled name P (replace_sentinels cols).
Proof.
  intros HP H. unfold replace_sentinels, labelled in *. rewrite Forall_forall in *. intros nc Hin.
  apply in_map_iff in Hin. destruct Hin as ([n c0] & <- & Hin). simpl.
  intros Hn. apply HP. now apply (H _ Hin).
Qed.

Lemma replace_sentinel_clean (c : column) : no_sentinel (replace_sentinel c).
Proof.
  destruct c as [cells| |]; simpl; auto.
  apply Forall_forall. intros v Hin. apply in_map_iff in Hin.
  destruct Hin as (v0 & <- & _). destruct (is_sentinel v0) eqn:Hv; [reflexivity|exact Hv].
Qed.

Lemma get_column_map (f : column -> column) (name : string) cols :
  get_column name (map (fun nc => (fst nc, f (snd nc))) cols)
  = option_map f (get_column name cols).
Proof.
  induction cols as [|[n c0] cols IH]; simpl; [reflexivity|].
  destruct (String.eqb name n); [reflexivity|exact IH].
Qed.

Lemma keep_first_measurement_labelled (unique : string) (n : nat) (name : string)
    (P : column -> Prop) cols :
  unique <> name ->
  labelled name P cols -> labelled name P (keep_first_measurement unique n cols).
Proof.
  intros Hne H. unfold keep_first_measurement. cbv zeta.
  destruct (filter is_data_label (labels cols)) as [|m others].
  - now apply set_column_other_labelled.
  - apply drop_labels_labelled. now apply rename_label_labelled.
Qed.

(** The function, stage by stage. *)
Lemma load_csv_stages (file_path : string) (df out : RawFrame) :
  load_csv_with_location to_datetime file_path df = inr out ->
  exists cols1 stamps d l m,
    get_column "DateTime" cols1 = Some stamps /\
    (has_label "DateTime" (labels (raw_columns df)) = true -> cols1 = raw_columns df) /\
    (has_label "DateTime" (labels (raw_columns df)) = false ->
     exists first c0 rest, raw_columns df = (first, c0) :: rest /\ stamps = c0) /\
    let final :=
      replace_sentinels
        (keep_first_measurement (unique_col file_path) (n_rows df)
           (add_location (FileName.get_location_from_filename file_path) (n_rows df)
              (set_column "DateTime" (Dates (to_datetime stamps)) cols1))) in
    get_column "DateTime" final = Some d /\
    get_column "Location" final = Some l /\
    get_column (unique_col file_path) final = Some m /\
    out = mkRaw (n_rows df) [("DateTime", d); ("Location", l); (unique_col file_path, m)].
Proof.
  unfold load_csv_with_location. cbv zeta.
  destruct (has_label "DateTime" (labels (raw_columns df))) eqn:Hdt.
  - destruct (get_column "DateTime" (raw_columns df)) as [stamps|] eqn:Hst; [|discriminate].
    intros H. exists (raw_columns df), stamps.
    destruct (get_column "DateTime" _) as [d|] eqn:Hd in H; [|discriminate].
    destruct (get_column "Location" _) as [l|] eqn:Hl in H; [|discriminate].
    destruct (get_column (unique_col file_path) _) as [m|] eqn:Hm in H; [|discriminate].
    exists d, l, m. inversion H.
    repeat split; try assumption; try reflexivity. discriminate.
  - destruct (raw_columns df) as [|[first c0] rest] eqn:Hcols; [discriminate|].
    destruct (get_column "DateTime" (rename_label first "DateTime" ((first, c0) :: rest)))
      as [stamps|] eqn:Hst; [|discriminate].
    intros H. exists (rename_label first "DateTime" ((first, c0) :: rest)), stamps.
    destruct (get_column "DateTime" _) as [d|] eqn:Hd in H; [|discriminate].
    destruct (get_column "Location" _) as [l|] eqn:Hl in H; [|discriminate].
    destruct (get_column (unique_col file_path) _) as [m|] eqn:Hm in H; [|discriminate].
    exists d, l, m. inversion H.
    repeat split; try assumption; try reflexivity; try discriminate.
    intros _. exists first, c0, rest. split; [reflexivity|].
    simpl in Hst. rewrite String.eqb_refl in Hst. simpl in Hst. congruence.
Qed.

(** What line 79 selects, whenever the function returns. *)
Lemma load_csv_selected (file_path : string) (df out : RawFrame) :
  load_csv_with_location to_datetime file_path df = inr out ->
  exists stamps d l m,
    ((has_label "DateTime" (labels (raw_columns df)) = true /\
      get_column "DateTime" (raw_columns df) = Some stamps) \/
     (has_label "DateTime" (labels (raw_columns df)) = false /\
      exists first rest, raw_columns df = (first, stamps) :: rest)) /\
    d = Dates (to_datetime stamps) /\
    l = Texts (repeat (FileName.get_location_from_filename file_path) (n_rows df)) /\
    no_sentinel m /\
    out = mkRaw (n_rows df) [("DateTime", d); ("Location", l); (unique_col file_path, m)].
Proof.
  intros H. apply load_csv_stages in H.
  destruct H as (cols1 & stamps & d & l & m & Hst & Hpresent & Habsent & H).
  cbv zeta in H. destruct H as (Hd & Hl & Hm & Hout).
  destruct (unique_col_not_reserved file_path) as [HnD HnL].
  exists stamps, d, l, m. repeat split; try assumption.
  - destruct (has_label "DateTime" (labels (raw_columns df))) eqn:Hdt.
    + left. split; [reflexivity|]. now rewrite <- (Hpresent eq_refl).
    + right. split; [reflexivity|].
      destruct (Habsent eq_refl) as (first & c0 & rest & Hcols & ->). eauto.
  - refine (get_column_labelled (P := fun c => c = Dates (to_datetime stamps)) _ Hd).
    apply replace_sentinel_labelled; [now intros c ->|].
    apply keep_first_measurement_labelled; [assumption|].
    apply set_column_other_labelled; [discriminate|].
    now apply set_column_labelled.
  - refine (get_column_labelled
              (P := fun c => c = Texts (repeat (FileName.get_location_from_filename file_path)
                                          (n_rows df))) _ Hl).
    apply replace_sentinel_labelled; [now intros c ->|].
    apply keep_first_measurement_labelled; [assumption|].
    now apply set_column_labelled.
  - apply get_column_in in Hm. unfold replace_sentinels in Hm.
    apply in_map_iff in Hm. destruct Hm as ([n0 c0] & Heq & _).
    inversion Heq. apply replace_sentinel_clean.
Qed.

Lemma set_column_labels_present (name : string) (c : column) cols :
  has_label name (labels cols) = true -> labels (set_column name c cols) = labels cols.
Proof.
  intros H. unfold set_column. rewrite H. unfold labels. rewrite map_map.
  apply map_ext. intros [n c0]. simpl.
  destruct (String.eqb n name) eqn:Heq; [|reflexivity].
  apply String.eqb_eq in Heq. now subst.
Qed.

Lemma set_column_labels_absent (name : string) (c : column) cols :
  has_label name (labels cols) = false ->
  labels (set_column name c cols) = labels cols ++ [name].
Proof.
  intros H. unfold set_column. rewrite H. unfold labels. now rewrite map_app.
Qed.

Lemma data_labels_set_reserved (name : string) (c : column) cols :
  is_data_label name = false ->
  filter is_data_label (labels (set_column name c cols))
  = filter is_data_label (labels cols).
Proof.
  intros Hres. destruct (has_label name (labels cols)) eqn:Hhas.
  - now rewrite set_column_labels_present.
  - rewrite set_column_labels_absent by assumption.
    rewrite filter_app. simpl. rewrite Hres. apply app_nil_r.
Qed.

Lemma get_column_set_other (name other : string) (c : column) cols :
  name <> other -> get_column name (set_column other c cols) = get_column name cols.
Proof.
  intros Hne. unfold set_column. destruct (has_label other (labels cols)).
  - induction cols as [|[n c0] cols IH]; simpl; [reflexivity|].
    destruct (String.eqb n other) eqn:Hn; simpl.
    + apply String.eqb_eq in Hn. subst n.
      destruct (String.eqb name other) eqn:Heq; [|exact IH].
      apply String.eqb_eq in Heq. contradiction.
    + destruct (String.eqb name n); [reflexivity|exact IH].
  - induction cols as [|[n c0] cols IH]; simpl.
    + destruct (String.eqb name other) eqn:Heq; [|reflexivity].
      apply String.eqb_eq in Heq. contradiction.
    + destruct (String.eqb name n); [reflexivity|exact IH].
Qed.

Lemma get_column_set_same (name : string) (c : column) cols :
  get_column name (set_column name c cols) = Some c.
Proof.
  destruct (get_column_some name (set_column name c cols)) as (c' & Hc').
  - apply has_label_spec. destruct (has_label name (labels cols)) eqn:Hhas.
    + now rewrite set_column_labels_present.
    + rewrite set_column_labels_absent by assumption.
      apply has_label_spec. apply in_or_app. right. now left.
  - rewrite Hc'. f_equal.
    exact (get_column_labelled (P := fun c' => c' = c)
             (set_column_labelled name c (fun c' => c' = c) cols eq_refl) Hc').
Qed.

Lemma get_column_replace_sentinels (name : string) cols :
  get_column name (replace_sentinels cols)
  = option_map replace_sentinel (get_column name cols).
Proof. apply get_column_map. Qed.

Lemma labels_replace_sentinels cols : labels (replace_sentinels cols) = labels cols.
Proof. unfold replace_sentinels, labels. rewrite map_map. now apply map_ext. Qed.

(** The column renamed at line 65 is found under its new label, unless
    line 69 drops that label. *)
Lemma get_column_renamed (m unique : string) (gone : list string) (c : column) cols :
  get_column m cols = Some c ->
  (forall l, In l (labels cols) -> l <> m -> l <> unique) ->
  ~ In unique gone ->
  get_column unique (drop_labels gone (rename_label m unique cols)) = Some c.
Proof.
  intros Hget Hother Hkept.
  assert (Hk : has_label unique gone = false).
  { destruct (has_label unique gone) eqn:Hh; [|reflexivity].
    apply has_label_spec in Hh. contradiction. }
  induction cols as [|[n c0] cols IH]; simpl in *; [discriminate|].
  destruct (String.eqb m n) eqn:Hmn.
  - apply String.eqb_eq in Hmn. subst n. rewrite String.eqb_refl. simpl.
    rewrite Hk. simpl. rewrite String.eqb_refl. exact Hget.
  - assert (Hnm : String.eqb n m = false) by (now rewrite String.eqb_sym).
    rewrite Hnm. simpl.
    assert (Hrest : get_column unique (drop_labels gone (rename_label m unique cols)) = Some c).
    { apply IH; [exact Hget|]. intros l Hin. apply Hother. now right. }
    destruct (has_label n gone); simpl; [exact Hrest|].
    destruct (String.eqb unique n) eqn:Hun; [|exact Hrest].
    apply String.eqb_eq in Hun. exfalso.
    apply (Hother n); [now left| |now symmetry].
    apply String.eqb_neq. exact Hnm.
Qed.

(** A label other than the renamed one survives lines 65-69 unless it is dropped. *)
Lemma label_survives (m unique l : string) (gone : list string) cols :
  In l (labels cols) -> l <> m -> ~ In l gone ->
  In l (labels (drop_labels gone (rename_label m unique cols))).
Proof.
  intros Hin Hne Hkept. unfold labels in *. apply in_map_iff in Hin.
  destruct Hin as ([n c0] & Hfst & Hin). simpl in Hfst. subst n.
  apply in_map_iff. exists (l, c0). split; [reflexivity|].
  unfold drop_labels. apply filter_In. split.
  - unfold rename_label. apply in_map_iff. exists (l, c0). split; [|assumption].
    simpl. apply String.eqb_neq in Hne. now rewrite Hne.
  - simpl. destruct (has_label l gone) eqn:Hh; [|reflexivity].
    apply has_label_spec in Hh. contradiction.
Qed.

(** The renamed label is gone after line 69 when it was among the dropped ones. *)
Lemma dropped_label_absent (l : string) (gone : list string) cols :
  In l gone -> ~ In l (labels (drop_labels gone cols)).
Proof.
  intros Hgone Hin. unfold labels in Hin. apply in_map_iff in Hin.
  destruct Hin as ([n c0] & Hfst & Hin). simpl in Hfst. subst n.
  unfold drop_labels in Hin. apply filter_In in Hin. destruct Hin as [_ Hkeep].
  simpl in Hkeep. apply has_label_spec in Hgone. rewrite Hgone in Hkeep. discriminate.
Qed.

Lemma is_data_label_spec (l : string) :
  is_data_label l = true <-> l <> "DateTime" /\ l <> "Location".
Proof.
  unfold is_data_label. rewrite negb_true_iff, orb_false_iff, !String.eqb_neq. tauto.
Qed.

(** The data labels as line 61 sees them are those of the file. *)
Lemma data_labels_at_line_61 (location : string) (n : nat) (stamps : column) cols :
  filter is_data_label
    (labels (add_location location n (set_column "DateTime" (Dates (to_datetime stamps)) cols)))
  = filter is_data_label (labels cols).
Proof.
  unfold add_location. now rewrite !data_labels_set_reserved.
Qed.

(** A column that is neither renamed nor dropped is read back unchanged. *)
Lemma get_column_kept (name m unique : string) (gone : list string) cols :
  name <> m -> name <> unique -> ~ In name gone ->
  get_column name (drop_labels gone (rename_label m unique cols)) = get_column name cols.
Proof.
  intros Hm Hu Hkept.
  induction cols as [|[n c0] cols IH]; simpl; [reflexivity|].
  destruct (String.eqb n m) eqn:Hnm.
  - apply String.eqb_eq in Hnm. subst n.
    apply String.eqb_neq in Hm. rewrite Hm.
    destruct (has_label unique gone); simpl; [exact IH|].
    apply String.eqb_neq in Hu. rewrite Hu. exact IH.
  - destruct (has_label n gone) eqn:Hg; simpl.
    + destruct (String.eqb name n) eqn:Heq; [|exact IH].
      apply String.eqb_eq in Heq. subst n. apply has_label_spec in Hg. contradiction.
    + destruct (String.eqb name n); [reflexivity|exact IH].
Qed.

Lemma extra_cols_spec (m x : string) (others : list string) :
  In x (filter (fun col => negb (String.eqb col m)) (m :: others)) <->
  In x others /\ x <> m.
Proof.
  rewrite filter_In, negb_true_iff, String.eqb_neq. simpl. split.
  - intros [[Heq|Hin] Hne]; [now subst|now split].
  - intros [Hin Hne]. split; [now right|assumption].
Qed.

Lemma data_label_in (l m : string) (others : list string) (names : list string) :
  filter is_data_label names = m :: others ->
  In l (m :: others) -> In l names /\ l <> "DateTime" /\ l <> "Location".
Proof.
  intros Hdata Hin. rewrite <- Hdata in Hin. apply filter_In in Hin.
  destruct Hin as [Hin Hl]. apply is_data_label_spec in Hl. tauto.
Qed.

(** The three columns line 79 reads, for a file with a [DateTime] column
    and at least one measurement column. *)
Lemma columns_at_line_79 (file_path : string) (n : nat) (stamps c : column)
    (m : string) (others : list string) cols :
  get_column "DateTime" cols = Some stamps ->
  filter is_data_label (labels cols) = m :: others ->
  get_column m cols = Some c ->
  let location := FileName.get_location_from_filename file_path in
  let final :=
    replace_sentinels
      (keep_first_measurement (unique_col file_path) n
         (add_location location n
            (set_column "DateTime" (Dates (to_datetime stamps)) cols))) in
  get_column "DateTime" final = Some (Dates (to_datetime stamps)) /\
  get_column "Location" final = Some (Texts (repeat location n)) /\
  (~ In (unique_col file_path) others ->
   get_column (unique_col file_path) final = Some (replace_sentinel c)) /\
  (In (unique_col file_path) others -> unique_col file_path <> m ->
   get_column (unique_col file_path) final = None).
Proof.
  intros Hst Hdata Hm location final.
  destruct (unique_col_not_reserved file_path) as [HnD HnL].
  set (cols3 := add_location location n
                  (set_column "DateTime" (Dates (to_datetime stamps)) cols)) in *.
  assert (Hdata3 : filter is_data_label (labels cols3) = m :: others).
  { unfold cols3. now rewrite data_labels_at_line_61. }
  destruct (@data_label_in m m others (labels cols) Hdata (or_introl eq_refl)) as (_ & HmD & HmL).
  assert (Hgone : forall x,
             In x (filter (fun col => negb (String.eqb col m)) (m :: others)) ->
             x <> "DateTime" /\ x <> "Location").
  { intros x Hx. apply extra_cols_spec in Hx. destruct Hx as [Hx _].
    apply (@data_label_in x m others (labels cols) Hdata). now right. }
  assert (Hd3 : get_column "DateTime" cols3 = Some (Dates (to_datetime stamps))).
  { unfold cols3, add_location. rewrite get_column_set_other by discriminate.
    apply get_column_set_same. }
  assert (Hl3 : get_column "Location" cols3 = Some (Texts (repeat location n))).
  { unfold cols3, add_location. apply get_column_set_same. }
  assert (Hm3 : get_column m cols3 = Some c).
  { unfold cols3, add_location. now rewrite !get_column_set_other by assumption. }
  unfold final, keep_first_measurement. cbv zeta. fold cols3. rewrite Hdata3.
  rewrite !get_column_replace_sentinels.
  repeat split.
  - rewrite get_column_kept; [now rewrite Hd3|congruence|congruence|].
    intros Hx. now apply Hgone in Hx.
  - rewrite get_column_kept; [now rewrite Hl3|congruence|congruence|].
    intros Hx. now apply Hgone in Hx.
  - intros HU.
    rewrite (@get_column_renamed m (unique_col file_path)
               (filter (fun col => negb (String.eqb col m)) (m :: others)) c cols3);
      [reflexivity|exact Hm3| |].
    + intros l Hin Hne Heq. subst l. apply HU.
      assert (Hin' : In (unique_col file_path) (m :: others)).
      { rewrite <- Hdata3. apply filter_In. split; [assumption|].
        now apply is_data_label_spec. }
      destruct Hin' as [Heq|Hin']; [now subst|assumption].
    + intros Hx. apply extra_cols_spec in Hx. tauto.
  - intros HU Hne. rewrite get_column_none; [reflexivity|].
    apply dropped_label_absent. apply extra_cols_spec. now split.
Qed.

(** X16: whenever a file loads, the frame returned has the columns
    [DateTime], [Location] and the unique name, in this order, and the
    row count of the file; its [Location] column repeats the location
    read off the file name, and its measurement column holds no -9999. *)
Theorem load_csv_result_shape (file_path : string) (df out : RawFrame) :
  load_csv_with_location to_datetime file_path df = inr out ->
  labels (raw_columns out) = ["DateTime"; "Location"; unique_col file_path] /\
  n_rows out = n_rows df /\
  get_column "Location" (raw_columns out)
  = Some (Texts (repeat (FileName.get_location_from_filename file_path) (n_rows df))) /\
  exists m, get_column (unique_col file_path) (raw_columns out) = Some m /\ no_sentinel m.
Proof.
  intros H. apply load_csv_selected in H.
  destruct H as (stamps & d & l & m & _ & _ & Hl & Hm & ->).
  destruct (unique_col_not_reserved file_path) as [HnD HnL].
  apply String.eqb_neq in HnD, HnL.
  repeat split.
  - simpl. now rewrite Hl.
  - exists m. split; [|exact Hm]. simpl. now rewrite HnD, HnL, String.eqb_refl.
Qed.

(** X17: the [DateTime] column returned is the parse of the file's
    [DateTime] column when it has one, and of its first column otherwise. *)
Theorem load_csv_time_column (file_path : string) (df out : RawFrame) :
  load_csv_with_location to_datetime file_path df = inr out ->
  exists stamps,
    get_column "DateTime" (raw_columns out) = Some (Dates (to_datetime stamps)) /\
    ((has_label "DateTime" (labels (raw_columns df)) = true /\
      get_column "DateTime" (raw_columns df) = Some stamps) \/
     (has_label "DateTime" (labels (raw_columns df)) = false /\
      exists first rest, raw_columns df = (first, stamps) :: rest)).
Proof.
  intros H. apply load_csv_selected in H.
  destruct H as (stamps & d & l & m & Hsrc & Hd & _ & _ & ->).
  exists stamps. split; [|exact Hsrc]. simpl. now rewrite Hd.
Qed.

(** X18: for a file with a [DateTime] column whose first other column is
    [measurement], and no further column already bearing the unique name,
    the frame returned holds the parsed time stamps, the location, and
    that first column with -9999 replaced by NaN; every other column is
    dropped. *)
Theorem load_csv_first_measurement (file_path : string) (df : RawFrame)
    (stamps c : column) (measurement : string) (others : list string) :
  NoDup (labels (raw_columns df)) ->
  get_column "DateTime" (raw_columns df) = Some stamps ->
  filter is_data_label (labels (raw_columns df)) = measurement :: others ->
  get_column measurement (raw_columns df) = Some c ->
  ~ In (unique_col file_path) others ->
  load_csv_with_location to_datetime file_path df
  = inr (mkRaw (n_rows df)
           [("DateTime", Dates (to_datetime stamps));
            ("Location",
             Texts (repeat (FileName.get_location_from_filename file_path) (n_rows df)));
            (unique_col file_path, replace_sentinel c)]).
Proof.
  intros _ Hst Hdata Hm HU.
  destruct (@columns_at_line_79 file_path (n_rows df) _ _ _ _ _ Hst Hdata Hm) as (Hd & Hl & Hu & _).
  unfold load_csv_with_location. cbv zeta.
  assert (Hdt : has_label "DateTime" (labels (raw_columns df)) = true).
  { apply has_label_spec. apply get_column_in in Hst.
    unfold labels. apply in_map_iff. now exists ("DateTime", stamps). }
  rewrite Hdt, Hst, Hd, Hl, (Hu HU). reflexivity.
Qed.

(** X19: when a later measurement column of the file already bears the
    unique name, line 69 drops the renamed first column together with it,
    and line 79 raises KeyError for the unique name. *)
Theorem load_csv_name_clash (file_path : string) (df : RawFrame)
    (stamps : column) (measurement : string) (others : list string) :
  NoDup (labels (raw_columns df)) ->
  get_column "DateTime" (raw_columns df) = Some stamps ->
  filter is_data_label (labels (raw_columns df)) = measurement :: others ->
  In (unique_col file_path) others ->
  load_csv_with_location to_datetime file_path df
  = inl (LoadKeyError (unique_col file_path)).
Proof.
  intros Hnd Hst Hdata HU.
  assert (Hne : unique_col file_path <> measurement).
  { intros Heq. assert (Hnd' : NoDup (measurement :: others)).
    { rewrite <- Hdata. now apply NoDup_filter. }
    inversion Hnd'; subst. contradiction. }
  destruct (get_column_some measurement (raw_columns df)) as (c & Hm).
  { apply (@data_label_in measurement measurement others (labels (raw_columns df)) Hdata).
    now left. }
  destruct (@columns_at_line_79 file_path (n_rows df) _ _ _ _ _ Hst Hdata Hm) as (Hd & Hl & _ & Hu).
  unfold load_csv_with_location. cbv zeta.
  assert (Hdt : has_label "DateTime" (labels (raw_columns df)) = true).
  { apply has_label_spec. apply get_column_in in Hst.
    unfold labels. apply in_map_iff. now exists ("DateTime", stamps). }
  rewrite Hdt, Hst, Hd, Hl, (Hu HU Hne). reflexivity.
Qed.

(** X20: a file that holds a [DateTime] column and no measurement column
    loads with a measurement column of NaN, one cell per row. *)
Theorem load_csv_without_measurement (file_path : string) (df : RawFrame)
    (stamps : column) :
  get_column "DateTime" (raw_columns df) = Some stamps ->
  filter is_data_label (labels (raw_columns df)) = [] ->
  load_csv_with_location to_datetime file_path df
  = inr (mkRaw (n_rows df)
           [("DateTime", Dates (to_datetime stamps));
            ("Location",
             Texts (repeat (FileName.get_location_from_filename file_path) (n_rows df)));
            (unique_col file_path, Numbers (repeat NaN (n_rows df)))]).
Proof.
  intros Hst Hdata.
  destruct (unique_col_not_reserved file_path) as [HnD HnL].
  unfold load_csv_with_location. cbv zeta.
  assert (Hdt : has_label "DateTime" (labels (raw_columns df)) = true).
  { apply has_label_spec. apply get_column_in in Hst.
    unfold labels. apply in_map_iff. now exists ("DateTime", stamps). }
  rewrite Hdt, Hst. unfold keep_first_measurement. cbv zeta.
  rewrite data_labels_at_line_61, Hdata.
  rewrite !get_column_replace_sentinels.
  rewrite get_column_set_same.
  rewrite !(get_column_set_other (other := unique_col file_path)) by congruence.
  unfold add_location. rewrite get_column_set_same.
  rewrite get_column_set_other by discriminate. rewrite get_column_set_same.
  simpl. rewrite map_repeat. reflexivity.
Qed.

End LoaderFacts.

Lemma load_csv_result_shape_witness :
  Loader.labels (Loader.raw_columns
     (Loader.mkRaw 3
        [("DateTime", Loader.Dates [Some 0%Z; Some 1%Z; Some 2%Z]);
         ("Location", Loader.Texts ["RainForest"; "RainForest"; "RainForest"]);
         ("RainForest_MountainTower_rad_at10m", Loader.Numbers [num 5; NaN; num 7])]))
  = ["DateTime"; "Location"; Loader.unique_col Toy.tower_file] /\
  Loader.n_rows
     (Loader.mkRaw 3
        [("DateTime", Loader.Dates [Some 0%Z; Some 1%Z; Some 2%Z]);
         ("Location", Loader.Texts ["RainForest"; "RainForest"; "RainForest"]);
         ("RainForest_MountainTower_rad_at10m", Loader.Numbers [num 5; NaN; num 7])])
  = Loader.n_rows Toy.headerless_frame /\
  Loader.get_column "Location"
    (Loader.raw_columns
       (Loader.mkRaw 3
          [("DateTime", Loader.Dates [Some 0%Z; Some 1%Z; Some 2%Z]);
           ("Location", Loader.Texts ["RainForest"; "RainForest"; "RainForest"]);
           ("RainForest_MountainTower_rad_at10m", Loader.Numbers [num 5; NaN; num 7])]))
  = Some (Loader.Texts
            (repeat (FileName.get_location_from_filename Toy.tower_file)
               (Loader.n_rows Toy.headerless_frame))) /\
  exists m,
    Loader.get_column (Loader.unique_col Toy.tower_file)
      (Loader.raw_columns
         (Loader.mkRaw 3
            [("DateTime", Loader.Dates [Some 0%Z; Some 1%Z; Some 2%Z]);
             ("Location", Loader.Texts ["RainForest"; "RainForest"; "RainForest"]);
             ("RainForest_MountainTower_rad_at10m", Loader.Numbers [num 5; NaN; num 7])]))
    = Some m /\ Loader.no_sentinel m.
Proof.
  apply (@load_csv_result_shape Toy.to_datetime Toy.tower_file Toy.headerless_frame).
  vm_compute. reflexivity.
Defined.

Lemma load_csv_time_column_witness :
  exists stamps,
    Loader.get_column "DateTime"
      (Loader.raw_columns
         (Loader.mkRaw 3
            [("DateTime", Loader.Dates [Some 0%Z; Some 1%Z; Some 2%Z]);
             ("Location", Loader.Texts ["RainForest"; "RainForest"; "RainForest"]);
             ("RainForest_MountainTower_rad_at10m", Loader.Numbers [num 5; NaN; num 7])]))
    = Some (Loader.Dates (Toy.to_datetime stamps)) /\
    ((has_label "DateTime" (Loader.labels (Loader.raw_columns Toy.headerless_frame)) = true /\
      Loader.get_column "DateTime" (Loader.raw_columns Toy.headerless_frame) = Some stamps) \/
     (has_label "DateTime" (Loader.labels (Loader.raw_columns Toy.headerless_frame)) = false /\
      exists first rest, Loader.raw_columns Toy.headerless_frame = (first, stamps) :: rest)).
Proof.
  apply (@load_csv_time_column Toy.to_datetime Toy.tower_file Toy.headerless_frame).
  vm_compute. reflexivity.
Defined.

Lemma load_csv_first_measurement_witness :
  Loader.load_csv_with_location Toy.to_datetime Toy.tower_file Toy.tower_frame
  = inr (Loader.mkRaw 3
           [("DateTime", Loader.Dates [Some 0%Z; Some 1%Z; Some 2%Z]);
            ("Location", Loader.Texts ["RainForest"; "RainForest"; "RainForest"]);
            ("RainForest_MountainTower_rad_at10m", Loader.Numbers [num 5; NaN; num 7])]).
Proof.
  apply (@load_csv_first_measurement Toy.to_datetime Toy.tower_file Toy.tower_frame
           (Loader.Numbers [num 0; num 1; num 2])
           (Loader.Numbers [num 5; num (-9999); num 7]) "rad" ["flag"]).
  - repeat constructor; simpl; intuition discriminate.
  - reflexivity.
  - reflexivity.
  - reflexivity.
  - vm_compute. intuition discriminate.
Defined.

Lemma load_csv_name_clash_witness :
  Loader.load_csv_with_location Toy.to_datetime Toy.tower_file Toy.clash_frame
  = inl (Loader.LoadKeyError "RainForest_MountainTower_rad_at10m").
Proof.
  apply (@load_csv_name_clash Toy.to_datetime Toy.tower_file Toy.clash_frame
           (Loader.Numbers [num 0]) "rad" ["RainForest_MountainTower_rad_at10m"]).
  - repeat constructor; simpl; intuition discriminate.
  - reflexivity.
  - reflexivity.
  - vm_compute. now left.
Defined.

Lemma load_csv_without_measurement_witness :
  Loader.load_csv_with_location Toy.to_datetime Toy.tower_file Toy.stamps_only
  = inr (Loader.mkRaw 2
           [("DateTime", Loader.Dates [Some 0%Z; Some 1%Z]);
            ("Location", Loader.Texts ["RainForest"; "RainForest"]);
            ("RainForest_MountainTower_rad_at10m", Loader.Numbers [NaN; NaN])]).
Proof.
  apply (@load_csv_without_measurement Toy.to_datetime Toy.tower_file Toy.stamps_only
           (Loader.Numbers [num 0; num 1])); reflexivity.
Defined.

(* ------------------------------------------------------------------ *)
(** ** [merge_by_location] *)

Section MergeFacts.

Import Merge.

Variables frame key : Type.
Variable key_eqb : key -> key -> bool.
Variable first_location : frame -> merge_error + key.
Variable merge : frame -> frame -> merge_error + frame.
Variable sort_and_interpolate : frame -> merge_error + frame.

Hypothesis key_eqb_eq : forall a b, key_eqb a b = true <-> a = b.

Local Abbreviation located := (Merge.located key_eqb first_location).
Local Abbreviation first_appearances := (Merge.first_appearances key_eqb first_location).
Local Abbreviation groups_of := (Merge.groups_of key_eqb first_location).
Local Abbreviation note := (Merge.note key_eqb first_location).

Lemma key_eqb_refl (a : key) : key_eqb a a = true.
Proof. now apply key_eqb_eq. Qed.

Lemma key_eqb_neq (a b : key) : key_eqb a b = false <-> a <> b.
Proof.
  split.
  - intros H Heq. apply key_eqb_eq in Heq. congruence.
  - intros H. destruct (key_eqb a b) eqn:Heq; [|reflexivity].
    apply key_eqb_eq in Heq. contradiction.
Qed.

Lemma existsb_key (k : key) (seen : list key) :
  existsb (key_eqb k) seen = true <-> In k seen.
Proof.
  rewrite existsb_exists. split.
  - intros (x & Hin & Heq). apply key_eqb_eq in Heq. now subst.
  - intros Hin. exists k. split; [assumption|apply key_eqb_refl].
Qed.

Lemma first_appearances_snoc (pre : list frame) (df : frame) :
  first_appearances (pre ++ [df]) = note (first_appearances pre) df.
Proof. unfold Merge.first_appearances. now rewrite fold_left_app. Qed.

Lemma located_snoc (loc : key) (pre : list frame) (df : frame) (k : key) :
  first_location df = inr k ->
  located loc (pre ++ [df])
  = if key_eqb k loc then located loc pre ++ [df] else located loc pre.
Proof.
  intros Hk. unfold Merge.located. rewrite filter_app. simpl. rewrite Hk.
  destruct (key_eqb k loc); [reflexivity|apply app_nil_r].
Qed.

Lemma first_appearances_in (pre : list frame) (k : key) :
  In k (first_appearances pre) <-> exists df, In df pre /\ first_location df = inr k.
Proof.
  induction pre as [|df pre IH] using rev_ind.
  - simpl. split; [contradiction|now intros (df & [] & _)].
  - rewrite first_appearances_snoc. unfold Merge.note.
    destruct (first_location df) as [e|k'] eqn:Hdf.
    + rewrite IH. split.
      * intros (d & Hin & Hd). exists d. split; [apply in_or_app; now left|assumption].
      * intros (d & Hin & Hd). apply in_app_or in Hin. destruct Hin as [Hin|[<-|[]]].
        -- eauto.
        -- congruence.
    + assert (Hgoal : In k (first_appearances pre ++ [k']) <->
                      exists d, In d (pre ++ [df]) /\ first_location d = inr k).
      { rewrite in_app_iff, IH. split.
        - intros [(d & Hin & Hd)|[<-|[]]].
          + exists d. split; [apply in_or_app; now left|assumption].
          + exists df. split; [apply in_or_app; right; now left|assumption].
        - intros (d & Hin & Hd). apply in_app_or in Hin. destruct Hin as [Hin|[<-|[]]].
          + left. eauto.
          + right. left. congruence. }
      destruct (existsb (key_eqb k') (first_appearances pre)) eqn:Hseen; [|exact Hgoal].
      rewrite <- Hgoal. rewrite in_app_iff. split; [now left|].
      intros [H|[<-|[]]]; [assumption|]. now apply existsb_key.
Qed.

Lemma first_appearances_NoDup (pre : list frame) : NoDup (first_appearances pre).
Proof.
  induction pre as [|df pre IH] using rev_ind; [constructor|].
  rewrite first_appearances_snoc. unfold Merge.note.
  destruct (first_location df) as [e|k]; [exact IH|].
  destruct (existsb (key_eqb k) (first_appearances pre)) eqn:Hseen; [exact IH|].
  apply NoDup_app; [exact IH|repeat constructor; now simpl|].
  intros x Hx [<-|[]]. apply existsb_key in Hx. congruence.
Qed.

Lemma located_unseen (loc : key) (pre : list frame) :
  ~ In loc (first_appearances pre) -> located loc pre = [].
Proof.
  intros Hnot. unfold Merge.located.
  induction pre as [|df pre IH]; simpl; [reflexivity|].
  assert (Hrest : ~ In loc (first_appearances pre)).
  { intros Hin. apply Hnot. apply first_appearances_in in Hin.
    destruct Hin as (d & Hin & Hd). apply first_appearances_in.
    exists d. split; [now right|assumption]. }
  destruct (first_location df) as [e|k] eqn:Hdf; [now apply IH|].
  destruct (key_eqb k loc) eqn:Heq; [|now apply IH].
  apply key_eqb_eq in Heq. subst k. exfalso. apply Hnot.
  apply first_appearances_in. exists df. split; [now left|assumption].
Qed.

(** One turn of the first loop. *)
Lemma setdefault_append_groups (loc : key) (df : frame) (pre : list frame) (ks : list key) :
  first_location df = inr loc ->
  NoDup ks ->
  (~ In loc ks -> located loc pre = []) ->
  setdefault_append key_eqb loc df (map (fun k => (k, located k pre)) ks)
  = map (fun k => (k, located k (pre ++ [df])))
      (if existsb (key_eqb loc) ks then ks else ks ++ [loc]).
Proof.
  intros Hdf Hnd Hnew. induction ks as [|k ks IH]; simpl.
  - rewrite (located_snoc _ _ Hdf), key_eqb_refl, Hnew by tauto. reflexivity.
  - inversion Hnd as [|k0 ks0 Hk Hks]; subst.
    destruct (key_eqb loc k) eqn:Heq; simpl.
    + apply key_eqb_eq in Heq. subst k.
      rewrite (located_snoc _ _ Hdf), key_eqb_refl. f_equal.
      apply map_ext_in. intros k' Hin.
      rewrite (located_snoc _ _ Hdf).
      destruct (key_eqb loc k') eqn:Heq'; [|reflexivity].
      apply key_eqb_eq in Heq'. subst k'. contradiction.
    + rewrite IH.
      * destruct (existsb (key_eqb loc) ks); simpl;
          now rewrite (located_snoc k _ Hdf), Heq.
      * assumption.
      * intros Hnot. apply Hnew. intros [->|Hin]; [|contradiction].
        rewrite key_eqb_refl in Heq. discriminate.
Qed.

Lemma group_frames_from (dfs pre : list frame) :
  all_located first_location dfs ->
  group_frames key_eqb first_location dfs (groups_of pre) = inr (groups_of (pre ++ dfs)).
Proof.
  revert pre. induction dfs as [|df dfs IH]; intros pre Hall; simpl.
  - now rewrite app_nil_r.
  - inversion Hall as [|d ds (loc & Hloc) Hrest]; subst.
    rewrite Hloc. simpl. unfold Merge.groups_of at 1.
    rewrite (@setdefault_append_groups loc df pre (first_appearances pre) Hloc).
    + replace (if existsb (key_eqb loc) (first_appearances pre)
               then first_appearances pre else first_appearances pre ++ [loc])
        with (first_appearances (pre ++ [df])).
      * fold (groups_of (pre ++ [df])). rewrite (IH (pre ++ [df]) Hrest).
        now rewrite <- app_assoc.
      * rewrite first_appearances_snoc. unfold Merge.note. now rewrite Hloc.
    + apply first_appearances_NoDup.
    + apply located_unseen.
Qed.

Lemma group_frames_fails (pre : list frame) (df : frame) (post : list frame)
    (e : merge_error) (groups : list (key * list frame)) :
  all_located first_location pre ->
  first_location df = inl e ->
  group_frames key_eqb first_location (pre ++ df :: post) groups = inl e.
Proof.
  intros Hall Hdf. revert groups. induction Hall as [|d ds (k & Hk) _ IH]; intros groups; simpl.
  - now rewrite Hdf.
  - rewrite Hk. simpl. apply IH.
Qed.

Lemma all_located_or_not (dfs : list frame) :
  all_located first_location dfs \/
  exists pre df post e,
    dfs = pre ++ df :: post /\ all_located first_location pre /\ first_location df = inl e.
Proof.
  induction dfs as [|df dfs IH].
  - left. constructor.
  - destruct (first_location df) as [e|k] eqn:Hdf.
    + right. exists [], df, dfs, e. repeat split; [constructor|assumption].
    + destruct IH as [Hall|(pre & d & post & e & -> & Hpre & Hd)].
      * left. constructor; eauto.
      * right. exists (df :: pre), d, post, e. repeat split; [|assumption].
        constructor; eauto.
Qed.

Lemma merge_groups_keys (groups : list (key * list frame)) out :
  merge_groups merge sort_and_interpolate groups = inr out ->
  map fst out = map fst groups /\
  forall loc merged_df, In (loc, merged_df) out ->
    exists group, In (loc, group) groups /\
                  merge_group merge sort_and_interpolate group = inr merged_df.
Proof.
  revert out. induction groups as [|[k g] groups IH]; intros out H; simpl in H.
  - inversion H. split; [reflexivity|contradiction].
  - destruct (merge_group merge sort_and_interpolate g) as [e|v] eqn:Hg; [discriminate|].
    simpl in H.
    destruct (merge_groups merge sort_and_interpolate groups) as [e|rest] eqn:Hrest;
      [discriminate|].
    simpl in H. inversion H; subst out. destruct (IH rest eq_refl) as [Hkeys Hvals].
    split; [simpl; now rewrite Hkeys|].
    intros loc merged_df [Heq|Hin].
    + inversion Heq; subst. exists g. split; [now left|assumption].
    + destruct (Hvals _ _ Hin) as (group & Hin' & Hm). exists group. split; [now right|assumption].
Qed.

(** X21: when every frame has a first location, the result is what
    merging gives, for each location in the order of first appearance,
    on the frames of that location in their order in the input. *)
Theorem merge_by_location_by_groups (dfs : list frame) :
  all_located first_location dfs ->
  merge_by_location key_eqb first_location merge sort_and_interpolate dfs
  = merge_groups merge sort_and_interpolate
      (map (fun loc => (loc, located loc dfs)) (first_appearances dfs)).
Proof.
  intros Hall. unfold merge_by_location.
  change (@nil (key * list frame)) with (groups_of []).
  rewrite (group_frames_from [] Hall). reflexivity.
Qed.

(** X22: the dict returned has one entry per location, in the order of
    first appearance, and the entry of a location is the merge of the
    frames whose first row bears it. *)
Theorem merge_by_location_entries (dfs : list frame) (out : list (key * frame)) :
  merge_by_location key_eqb first_location merge sort_and_interpolate dfs = inr out ->
  map fst out = first_appearances dfs /\
  NoDup (map fst out) /\
  forall loc merged_df, In (loc, merged_df) out ->
    located loc dfs <> [] /\
    merge_group merge sort_and_interpolate (located loc dfs) = inr merged_df.
Proof.
  intros H. destruct (all_located_or_not dfs) as [Hall|(pre & df & post & e & -> & Hpre & Hdf)].
  - unfold merge_by_location in H.
    change (@nil (key * list frame)) with (groups_of []) in H.
    rewrite (group_frames_from [] Hall) in H. simpl in H.
    apply merge_groups_keys in H. destruct H as [Hkeys Hvals].
    assert (Hk : map fst out = first_appearances dfs).
    { rewrite Hkeys. unfold Merge.groups_of. rewrite map_map. simpl. apply map_id. }
    split; [exact Hk|]. split; [rewrite Hk; apply first_appearances_NoDup|].
    intros loc merged_df Hin. destruct (Hvals _ _ Hin) as (group & Hg & Hm).
    unfold Merge.groups_of in Hg. apply in_map_iff in Hg.
    destruct Hg as (k & Heq & Hin'). inversion Heq; subst.
    split; [|exact Hm]. intros Hnil. rewrite Hnil in Hm. discriminate.
  - unfold merge_by_location in H. rewrite (group_frames_fails post [] Hpre Hdf) in H.
    discriminate.
Qed.

(** X23: the first frame without a first location (no row, or no
    [Location] column) makes the call raise that frame's error, whatever
    the other frames hold. *)
Theorem merge_by_location_unlocated (pre : list frame) (df : frame) (post : list frame)
    (e : merge_error) :
  all_located first_location pre ->
  first_location df = inl e ->
  merge_by_location key_eqb first_location merge sort_and_interpolate (pre ++ df :: post)
  = inl e.
Proof.
  intros Hpre Hdf. unfold merge_by_location.
  now rewrite (group_frames_fails post [] Hpre Hdf).
Qed.

End MergeFacts.

Lemma merge_by_location_by_groups_witness :
  Merge.merge_by_location String.eqb Toy.first_location Toy.merge Toy.sort_and_interpolate
    [Toy.tower_rad; Toy.lake_temp; Toy.tower_wind]
  = Merge.merge_groups Toy.merge Toy.sort_and_interpolate
      (map (fun loc =>
              (loc, Merge.located String.eqb Toy.first_location loc
                      [Toy.tower_rad; Toy.lake_temp; Toy.tower_wind]))
         (Merge.first_appearances String.eqb Toy.first_location
            [Toy.tower_rad; Toy.lake_temp; Toy.tower_wind])).
Proof.
  apply (@merge_by_location_by_groups _ _ String.eqb Toy.first_location Toy.merge
           Toy.sort_and_interpolate String.eqb_eq).
  repeat constructor; eexists; reflexivity.
Defined.

Lemma merge_by_location_entries_witness :
  map fst Toy.merged_towers
  = Merge.first_appearances String.eqb Toy.first_location
      [Toy.tower_rad; Toy.lake_temp; Toy.tower_wind] /\
  NoDup (map fst Toy.merged_towers) /\
  forall loc merged_df, In (loc, merged_df) Toy.merged_towers ->
    Merge.located String.eqb Toy.first_location loc
      [Toy.tower_rad; Toy.lake_temp; Toy.tower_wind] <> [] /\
    Merge.merge_group Toy.merge Toy.sort_and_interpolate
      (Merge.located String.eqb Toy.first_location loc
         [Toy.tower_rad; Toy.lake_temp; Toy.tower_wind])
    = inr merged_df.
Proof.
  apply (@merge_by_location_entries _ _ String.eqb Toy.first_location Toy.merge
           Toy.sort_and_interpolate String.eqb_eq).
  reflexivity.
Defined.

Lemma merge_by_location_unlocated_witness :
  Merge.merge_by_location String.eqb Toy.first_location Toy.merge Toy.sort_and_interpolate
    ([Toy.tower_rad; Toy.lake_temp] ++ Toy.no_rows :: [Toy.tower_wind])
  = inl Merge.MergeIndexError.
Proof.
  apply (@merge_by_location_unlocated _ _ String.eqb Toy.first_location Toy.merge
           Toy.sort_and_interpolate).
  - repeat constructor; eexists; reflexivity.
  - reflexivity.
Defined.

(* ------------------------------------------------------------------ *)
(** * Properties of ai_integration.py and experts.py *)

Section OllamaFacts.

Import Ollama.

Variable run : list string -> run_result.

Lemma lstrip_split (s : string) :
  exists pre, s = String.append pre (lstrip s) /\ all_space pre = true.
Proof.
  induction s as [|c s IH]; simpl.
  - exists EmptyString. now split.
  - destruct (is_space c) eqn:Hc.
    + destruct IH as (pre & Hs & Hpre). exists (String c pre). simpl.
      rewrite Hc, Hpre. split; [now rewrite <- Hs|reflexivity].
    + exists EmptyString. now split.
Qed.

Lemma lstrip_first (s : string) (c : ascii) :
  first_char (lstrip s) = Some c -> is_space c = false.
Proof.
  induction s as [|x s IH]; simpl; [discriminate|].
  destruct (is_space x) eqn:Hx; [exact IH|].
  simpl. intros H. now inversion H; subst.
Qed.

Lemma rstrip_split (s : string) :
  exists post, s = String.append (rstrip s) post /\ all_space post = true.
Proof.
  induction s as [|c s IH]; simpl.
  - exists EmptyString. now split.
  - destruct IH as (post & Hs & Hpost).
    destruct (rstrip s) as [|k kept] eqn:Hk.
    + simpl in Hs. subst post. destruct (is_space c) eqn:Hc.
      * exists (String c s). simpl. now rewrite Hc, Hpost.
      * exists s. now split.
    + exists post. split; [|assumption]. simpl. f_equal. exact Hs.
Qed.

Lemma rstrip_last (s : string) (c : ascii) :
  last_char (rstrip s) = Some c -> is_space c = false.
Proof.
  induction s as [|x s IH]; simpl; [discriminate|].
  destruct (rstrip s) as [|k kept] eqn:Hk.
  - destruct (is_space x) eqn:Hx; simpl; [discriminate|].
    intros H. now inversion H; subst.
  - simpl. exact IH.
Qed.

Lemma rstrip_first (s : string) (c : ascii) :
  first_char (rstrip s) = Some c -> first_char s = Some c.
Proof.
  destruct s as [|x s]; simpl; [discriminate|].
  destruct (rstrip s); [|now simpl].
  destruct (is_space x); [discriminate|now simpl].
Qed.

Lemma lstrip_all_space (s : string) : all_space s = true -> lstrip s = EmptyString.
Proof.
  induction s as [|c s IH]; simpl; [reflexivity|].
  intros H. apply andb_true_iff in H. destruct H as [Hc Hs]. rewrite Hc. now apply IH.
Qed.

Lemma strip_all_space (s : string) : all_space s = true -> strip s = EmptyString.
Proof. intros H. unfold strip. now rewrite lstrip_all_space. Qed.

Lemma strip_split (s : string) :
  exists pre post,
    s = String.append pre (String.append (strip s) post) /\
    all_space pre = true /\ all_space post = true /\ trimmed (strip s).
Proof.
  destruct (lstrip_split s) as (pre & Hs & Hpre).
  destruct (rstrip_split (lstrip s)) as (post & Hl & Hpost).
  exists pre, post. unfold strip. repeat split; try assumption.
  - now rewrite <- Hl.
  - intros c Hc. apply rstrip_first in Hc. now apply lstrip_first in Hc.
  - intros c. apply rstrip_last.
Qed.

(** X24: when [ollama] completes, the summary returned is its output
    without the white space around it: the output is the summary between
    two runs of white space, and the summary neither starts nor ends with
    white space. *)
Theorem generate_summary_trims (simulation_text model stdout : string) :
  run (command model simulation_text) = Completed stdout ->
  exists summary pre post,
    generate_summary run simulation_text model = inr summary /\
    stdout = String.append pre (String.append summary post) /\
    all_space pre = true /\ all_space post = true /\ trimmed summary.
Proof.
  intros Hrun. unfold generate_summary. rewrite Hrun.
  destruct (strip_split stdout) as (pre & post & H).
  exists (strip stdout), pre, post. split; [reflexivity|exact H].
Qed.

End OllamaFacts.

Section ExpertsFacts.

Import Experts.

Variable run : list string -> Ollama.run_result.

(** X25: a non-zero exit of [ollama] is not raised by
    [generate_expert_response]: the error text comes back as the
    response, and it is appended to the log as the expert's message. *)
Theorem generate_expert_response_logs_failure (now expert context : string)
    (data_summary : option string) (model_choice text : string)
    (conversation_log : list entry) :
  run (Ollama.command model_choice (prompt expert context data_summary))
  = Ollama.CalledProcessError text ->
  generate_expert_response run now expert context data_summary model_choice
    conversation_log
  = (inr (String.append "Error generating summary: " text),
     List.app conversation_log
       [mkEntry now expert (String.append "Error generating summary: " text)]).
Proof.
  intros Hrun. unfold generate_expert_response, Ollama.generate_summary.
  now rewrite Hrun.
Qed.

Lemma has_summary_blank (text : string) :
  Ollama.all_space text = true -> has_summary (Some text) = false.
Proof.
  intros H. unfold has_summary. rewrite (strip_all_space text H). now destruct text.
Qed.

(** X26: a data summary of white space only is treated as no data
    summary at all: the same command is run, with the same outcome and
    the same entry in the log. *)
Theorem generate_expert_response_blank_summary (now expert context text : string)
    (model_choice : string) (conversation_log : list entry) :
  Ollama.all_space text = true ->
  prompt expert context (Some text) = prompt expert context None /\
  generate_expert_response run now expert context (Some text) model_choice
    conversation_log
  = generate_expert_response run now expert context None model_choice conversation_log.
Proof.
  intros H.
  assert (Hp : prompt expert context (Some text) = prompt expert context None).
  { unfold prompt. now rewrite (has_summary_blank text H). }
  split; [exact Hp|]. unfold generate_expert_response. now rewrite Hp.
Qed.

End ExpertsFacts.

Lemma generate_summary_trims_witness :
  exists summary pre post,
    Ollama.generate_summary Toy.run "Wind rises." "phi3" = inr summary /\
    String (ascii_of_nat 10)
      (String.append " Warmer and calmer. " (String (ascii_of_nat 10) EmptyString))
    = String.append pre (String.append summary post) /\
    Ollama.all_space pre = true /\ Ollama.all_space post = true /\
    Ollama.trimmed summary.
Proof.
  apply (@generate_summary_trims Toy.run "Wind rises." "phi3"). reflexivity.
Defined.

Lemma generate_expert_response_logs_failure_witness :
  Experts.generate_expert_response Toy.run "2025-02-01 10:00:00" "Ada" "Dry season."
    None "llama3" []
  = (inr (String.append "Error generating summary: " "returned non-zero exit status 1."),
     List.app []
       [Experts.mkEntry "2025-02-01 10:00:00" "Ada"
          (String.append "Error generating summary: "
             "returned non-zero exit status 1.")]).
Proof.
  apply (@generate_expert_response_logs_failure Toy.run "2025-02-01 10:00:00" "Ada"
           "Dry season." None "llama3" "returned non-zero exit status 1." []).
  reflexivity.
Defined.

Lemma generate_expert_response_blank_summary_witness :
  Experts.prompt "Ada" "Dry season." (Some "  ") = Experts.prompt "Ada" "Dry season." None /\
  Experts.generate_expert_response Toy.run "2025-02-01 10:00:00" "Ada" "Dry season."
    (Some "  ") "phi3" []
  = Experts.generate_expert_response Toy.run "2025-02-01 10:00:00" "Ada" "Dry season."
      None "phi3" [].
Proof.
  apply (@generate_expert_response_blank_summary Toy.run "2025-02-01 10:00:00" "Ada"
           "Dry season." "  " "phi3" []).
  reflexivity.
Defined.

(* ------------------------------------------------------------------ *)
(** * Properties of app.py *)

Section PrepareFacts.

Import Prepare.

Variable interpolate_time : list value -> list value.

Lemma ffill_from_length (last : value) (cells : list value) :
  List.length (ffill_from last cells) = List.length cells.
Proof.
  revert last. induction cells as [|[q|] cells IH]; intros last; simpl;
    [reflexivity| |]; now rewrite IH.
Qed.

Lemma ffill_from_complete (last : value) (cells : list value) :
  isna last = false -> complete (ffill_from last cells).
Proof.
  revert last. induction cells as [|[q|] cells IH]; intros last Hlast; simpl.
  - constructor.
  - constructor; [reflexivity|now apply IH].
  - constructor; [assumption|now apply IH].
Qed.

Lemma ffill_from_app_reading (last : value) (pre post : list value) (q : Qc) :
  ffill_from last (pre ++ Some q :: post)
  = ffill_from last pre ++ Some q :: ffill_from (Some q) post.
Proof.
  revert last. induction pre as [|[p|] pre IH]; intros last; simpl;
    [reflexivity| |]; now rewrite IH.
Qed.

Lemma ffill_from_nth (last : value) (cells : list value) (i : nat) (q : Qc) :
  nth_error cells i = Some (Some q) -> nth_error (ffill_from last cells) i = Some (Some q).
Proof.
  revert last i. induction cells as [|[p|] cells IH]; intros last [|i]; simpl;
    try discriminate; try (intros H; exact H); apply IH.
Qed.

Lemma ffill_all_nan (cells : list value) :
  Forall (fun v => v = NaN) cells -> ffill cells = cells.
Proof.
  unfold ffill. induction 1 as [|v cells Hv _ IH]; simpl; [reflexivity|].
  subst v. now rewrite IH.
Qed.

Lemma bfill_length (cells : list value) : List.length (bfill cells) = List.length cells.
Proof.
  induction cells as [|[q|] cells IH]; simpl; [reflexivity| |]; now rewrite IH.
Qed.

Lemma bfill_nth (cells : list value) (i : nat) (q : Qc) :
  nth_error cells i = Some (Some q) -> nth_error (bfill cells) i = Some (Some q).
Proof.
  revert i. induction cells as [|[p|] cells IH]; intros [|i]; simpl;
    try discriminate; try (intros H; exact H); apply IH.
Qed.

Lemma bfill_all_nan (cells : list value) :
  Forall (fun v => v = NaN) cells -> bfill cells = cells.
Proof.
  induction 1 as [|v cells Hv Hrest IH]; simpl; [reflexivity|].
  subst v. rewrite IH. f_equal. destruct Hrest as [|w ws Hw _]; [reflexivity|now subst].
Qed.

Lemma bfill_complete (cells : list value) : complete cells -> bfill cells = cells.
Proof.
  induction 1 as [|[q|] cells Hv _ IH]; simpl; [reflexivity| |discriminate].
  now rewrite IH.
Qed.

Lemma bfill_app_complete (pre filled : list value) :
  complete filled -> filled <> [] -> complete (bfill (pre ++ filled)).
Proof.
  intros Hc Hne. induction pre as [|[q|] pre IH]; simpl.
  - now rewrite bfill_complete.
  - constructor; [reflexivity|exact IH].
  - constructor; [|exact IH].
    assert (Hlen : List.length (bfill (pre ++ filled)) <> 0).
    { rewrite bfill_length, length_app. destruct filled; [contradiction|simpl; lia]. }
    destruct (bfill (pre ++ filled)) as [|v rest]; [contradiction|].
    simpl. now inversion IH.
Qed.

Lemma reading_or_all_nan (cells : list value) :
  (exists q, In (Some q) cells) \/ Forall (fun v => v = NaN) cells.
Proof.
  induction cells as [|[q|] cells IH].
  - right. constructor.
  - left. exists q. now left.
  - destruct IH as [(q & Hin)|Hall].
    + left. exists q. now right.
    + right. now constructor.
Qed.

(** The two fills after one another. *)
Lemma bfill_ffill_complete (cells : list value) (q : Qc) :
  In (Some q) cells -> complete (bfill (ffill cells)).
Proof.
  intros Hin. apply in_split in Hin. destruct Hin as (pre & post & ->).
  unfold ffill. rewrite ffill_from_app_reading.
  apply bfill_app_complete; [|discriminate].
  constructor; [reflexivity|]. now apply ffill_from_complete.
Qed.

Lemma keeps_readings_length (cells out : list value) :
  keeps_readings cells out = true -> List.length out = List.length cells.
Proof.
  revert out. induction cells as [|[q|] cells IH]; intros [|[q'|] out]; simpl;
    try discriminate; try reflexivity; intros H.
  - apply andb_true_iff in H. f_equal. now apply IH.
  - f_equal. now apply IH.
  - f_equal. now apply IH.
Qed.

Lemma keeps_readings_nth (cells out : list value) (i : nat) (q : Qc) :
  keeps_readings cells out = true ->
  nth_error cells i = Some (Some q) -> nth_error out i = Some (Some q).
Proof.
  revert out i. induction cells as [|[p|] cells IH]; intros [|[p'|] out] [|i]; simpl;
    try discriminate; intros H Hi.
  - apply andb_true_iff in H. destruct H as [Hq _].
    apply Qc_eq_bool_correct in Hq. congruence.
  - apply andb_true_iff in H. destruct H as [_ H]. now apply (IH out i).
  - now apply (IH out i).
  - now apply (IH out i).
Qed.

(** X27: after the two fills a sensor column has no missing cell exactly
    when the interpolated column is empty or holds a reading; a column
    without any reading stays as it is. *)
Theorem fill_gaps_complete_iff (cells : list value) :
  (complete (fill_gaps interpolate_time cells) <->
   interpolate_time cells = [] \/ exists q, In (Some q) (interpolate_time cells)) /\
  (Forall (fun v => v = NaN) (interpolate_time cells) ->
   fill_gaps interpolate_time cells = interpolate_time cells).
Proof.
  unfold fill_gaps. split; [split|].
  - intros Hc. destruct (reading_or_all_nan (interpolate_time cells)) as [Hq|Hall];
      [now right|left].
    rewrite (ffill_all_nan Hall), (bfill_all_nan Hall) in Hc.
    destruct Hall as [|v rest Hv _]; [reflexivity|]. subst v. now inversion Hc.
  - intros [Hnil|(q & Hin)].
    + rewrite Hnil. constructor.
    + exact (bfill_ffill_complete _ q Hin).
  - intros Hall. now rewrite (ffill_all_nan Hall), (bfill_all_nan Hall).
Qed.

(** X28: when the interpolation keeps the rows and the readings of a
    sensor column that holds at least one reading, the prepared column
    has the same number of rows and no missing cell. *)
Theorem fill_gaps_complete (cells : list value) (q : Qc) :
  keeps_readings cells (interpolate_time cells) = true ->
  In (Some q) cells ->
  List.length (fill_gaps interpolate_time cells) = List.length cells /\
  complete (fill_gaps interpolate_time cells).
Proof.
  intros Hkeep Hin. unfold fill_gaps. split.
  - unfold ffill. rewrite bfill_length, ffill_from_length.
    now apply keeps_readings_length.
  - apply In_nth_error in Hin. destruct Hin as (i & Hi).
    apply (keeps_readings_nth _ _ _ Hkeep) in Hi. apply nth_error_In in Hi.
    exact (bfill_ffill_complete _ q Hi).
Qed.

(** X29: a reading is never overwritten: when the interpolation keeps the
    readings of a column, so does the preparation, cell by cell. *)
Theorem fill_gaps_keeps_readings (cells : list value) (i : nat) (q : Qc) :
  keeps_readings cells (interpolate_time cells) = true ->
  nth_error cells i = Some (Some q) ->
  nth_error (fill_gaps interpolate_time cells) i = Some (Some q).
Proof.
  intros Hkeep Hi. unfold fill_gaps, ffill.
  apply bfill_nth, ffill_from_nth. exact (keeps_readings_nth _ _ _ Hkeep Hi).
Qed.

End PrepareFacts.

Lemma fill_gaps_complete_witness :
  List.length (Prepare.fill_gaps Toy.interpolate_hourly [NaN; num 1; NaN; num 3; NaN])
  = List.length [NaN; num 1; NaN; num 3; NaN] /\
  Prepare.complete (Prepare.fill_gaps Toy.interpolate_hourly [NaN; num 1; NaN; num 3; NaN]).
Proof.
  apply (@fill_gaps_complete Toy.interpolate_hourly [NaN; num 1; NaN; num 3; NaN]
           (Q2Qc 1)).
  - vm_compute. reflexivity.
  - right. left. reflexivity.
Defined.

Lemma fill_gaps_keeps_readings_witness :
  nth_error (Prepare.fill_gaps Toy.interpolate_hourly [NaN; num 1; NaN; num 3; NaN]) 3
  = Some (num 3).
Proof.
  apply (@fill_gaps_keeps_readings Toy.interpolate_hourly [NaN; num 1; NaN; num 3; NaN]
           3 (Q2Qc 3)).
  - vm_compute. reflexivity.
  - reflexivity.
Defined.
